(** * PlasticineLab optimizers: a shallow embedding of
      [plb/optimizer/focal_learn_latent.py], [plb/optimizer/learn_latent.py]
      and [plb/optimizer/solver.py].

    The three Python modules are control code around external collaborators
    (the Taichi simulator, the PyTorch model and optimizer, the MPI helpers,
    the assignment oracles).  The collaborators appear here as interfaces
    (type classes); the control code is translated line by line into a
    state-and-exception monad over the Python objects it manipulates. *)

From Stdlib Require Import ZArith List Bool Lia.
From Stdlib Require Import Floats.SpecFloat.
From stdpp Require Import base option list sorting gmap strings.

Set Warnings "-clear-no-such-hyp".

(** ** IEEE binary64 numbers

    Python [float], NumPy [float64] and the Taichi loss field are binary64.
    [spec_float] is the Standard Library's executable specification of IEEE
    arithmetic; NaN, the infinities and signed zeros are ordinary values. *)
Module Float64.

Definition prec : Z := 53%Z.
Definition emax : Z := 1024%Z.

Definition of_Z (n : Z) : spec_float := binary_normalize prec emax n 0%Z false.

Definition add : spec_float -> spec_float -> spec_float := SFadd prec emax.
Definition div : spec_float -> spec_float -> spec_float := SFdiv prec emax.
Definition ltb : spec_float -> spec_float -> bool := SFltb.
Definition leb : spec_float -> spec_float -> bool := SFleb.

Definition is_nan (x : spec_float) : bool :=
  match x with S754_nan => true | _ => false end.

(** [0.0], [1], [-1] and [1e10] as they are read by Python. *)
Definition zero : spec_float := S754_zero false.
Definition one : spec_float := Eval vm_compute in of_Z 1%Z.
Definition neg_one : spec_float := Eval vm_compute in of_Z (-1)%Z.
Definition ten_billion : spec_float := Eval vm_compute in of_Z 10000000000%Z.

(** [x.float()]: rounding of a binary64 value to binary32. *)
Definition to_float32 (x : spec_float) : spec_float :=
  match x with
  | S754_finite s m e => binary_round 24%Z 128%Z s m e
  | _ => x
  end.

(** [x.double()] on a binary32 value: the same number in binary64. *)
Definition to_float64 (x : spec_float) : spec_float :=
  match x with
  | S754_finite s m e => binary_round prec emax s m e
  | _ => x
  end.

(** [torch.clamp] on one element: NaN is passed through, everything else
    is [min(max(x, lo), hi)]. *)
Definition clamp (lo hi x : spec_float) : spec_float :=
  if is_nan x then x
  else
    let y := if ltb x lo then lo else x in
    if ltb hi y then hi else y.

End Float64.

Abbreviation float := spec_float.

(** ** Exceptions and the program monad *)

Inductive exn : Type :=
| IndexError
| TypeError
| ZeroDivisionError
| UnboundLocalError
| NotImplementedError
| KeyError
| NameError
| OSError.

Inductive res (A : Type) : Type :=
| Ok (a : A)
| Raise (e : exn).
Arguments Ok {A} a.
Arguments Raise {A} e.

(** A program over a world [W] returns a value or raises, and leaves a world
    behind in both cases: what Python has mutated before an exception stays
    mutated. *)
Definition Prog (W A : Type) : Type := W -> res A * W.

Definition ret {W A} (a : A) : Prog W A := fun w => (Ok a, w).

Definition bind {W A B} (m : Prog W A) (k : A -> Prog W B) : Prog W B :=
  fun w =>
    match m w with
    | (Ok a, w') => k a w'
    | (Raise e, w') => (Raise e, w')
    end.

Definition raise {W A} (e : exn) : Prog W A := fun w => (Raise e, w).
Definition get {W} : Prog W W := fun w => (Ok w, w).
Definition gets {W A} (f : W -> A) : Prog W A := fun w => (Ok (f w), w).
Definition modify {W} (f : W -> W) : Prog W unit := fun w => (Ok tt, f w).
Definition lift {W A} (f : W -> A * W) : Prog W A :=
  fun w => let '(a, w') := f w in (Ok a, w').

#[global] Instance prog_ret {W} : MRet (Prog W) := fun A => @ret W A.
#[global] Instance prog_bind {W} : MBind (Prog W) := fun A B k m => @bind W A B m k.

(** [for x in l: body(x)] *)
Fixpoint for_each {W A} (l : list A) (body : A -> Prog W unit) : Prog W unit :=
  match l with
  | [] => ret tt
  | x :: l' => body x;; for_each l' body
  end.

(** [for i in range(n): body(i)] *)
Definition for_range {W} (n : nat) (body : nat -> Prog W unit) : Prog W unit :=
  for_each (seq 0 n) body.

(** [if c: body] *)
Definition when {W} (c : bool) (body : Prog W unit) : Prog W unit :=
  if c then body else ret tt.

(** ** NumPy arrays and Torch tensors

    An array is its shape and its elements in row-major order.  Indexing with
    one integer selects along the first axis. *)
Record ndarray : Type := mk_ndarray { shape : list nat; data : list float }.

Module Nd.

Definition row_size (a : ndarray) : nat := fold_right Nat.mul 1%nat (tail (shape a)).

(** [len(a)]; a 0-dimensional array has no length. *)
Definition len (a : ndarray) : option nat := head (shape a).

(** [a[i]] for [0 <= i]. *)
Definition row (a : ndarray) (i : nat) : option ndarray :=
  match shape a with
  | [] => None
  | n :: sh =>
      if (i <? n)%nat
      then Some (mk_ndarray sh (take (row_size a) (drop (i * row_size a) (data a))))
      else None
  end.

(** Python index normalisation: [-n <= i < 0] counts from the end. *)
Definition norm_index (n : nat) (i : Z) : option nat :=
  if ((0 <=? i) && (i <? Z.of_nat n))%Z then Some (Z.to_nat i)
  else if ((- Z.of_nat n <=? i) && (i <? 0))%Z then Some (Z.to_nat (i + Z.of_nat n))
  else None.

(** [a[idx]] for an integer index tensor [idx]: gathers rows. *)
Definition index_select (a : ndarray) (idx : list Z) : option ndarray :=
  match shape a with
  | [] => None
  | n :: sh =>
      rows ← mapM (fun i => j ← norm_index n i; row a j) idx;
      Some (mk_ndarray (length idx :: sh) (concat (map data rows)))
  end.

Definition map_elems (f : float -> float) (a : ndarray) : ndarray :=
  mk_ndarray (shape a) (map f (data a)).

(** [a.clamp(lo, hi)] *)
Definition clamp (lo hi : float) (a : ndarray) : ndarray :=
  map_elems (Float64.clamp lo hi) a.

(** [torch.isnan(a).any()] *)
Definition any_nan (a : ndarray) : bool := existsb Float64.is_nan (data a).

(** [a.float()] *)
Definition to_float32 (a : ndarray) : ndarray := map_elems Float64.to_float32 a.

(** [a.double()] *)
Definition to_float64 (a : ndarray) : ndarray := map_elems Float64.to_float64 a.

(** [np.zeros_like(a)] *)
Definition zeros_like (a : ndarray) : ndarray := map_elems (fun _ => Float64.zero) a.

End Nd.

(** ** The Python heap

    Lists and arrays are objects with identity: two names may denote the same
    object, and a store through one is seen through the other. *)
Definition loc : Type := nat.

Inductive obj : Type :=
| PyList (items : list loc)
| NdArray (a : ndarray).

(** ** The simulator ([plb.engine.taichi_env.TaichiEnv])

    The differentiable simulator is an external collaborator.  Its methods
    read the arrays they are given and change only the simulator's own
    state, so they are functions on an abstract simulator state [Env]. *)
Class TaichiEnv : Type := {
  Env : Type;
  Snapshot : Type;
(** [env.set_state(state, softness, is_copy)] *)
env_set_state : list ndarray -> float -> bool -> Env -> Env;
(** [env.get_state()]: the [state], [softness] and [is_copy] entries *)
env_get_state : Env -> list ndarray * float * bool;
(** [env.set_target(target)] *)
env_set_target : ndarray -> Env -> Env;
(** [env.step(action)] *)
env_step : ndarray -> Env -> Env;
(** [env.compute_loss(copy_grad=c, decay=d)] *)
env_compute_loss : bool -> float -> Env -> Env;
(** [env.compute_loss(taichi_loss=True)] *)
env_compute_loss_taichi : Env -> Env;
(** [env.set_grad()] *)
env_set_grad : Env -> Env;
(** [env.loss.loss[None]] *)
env_loss : Env -> float;
(** [env.get_state_grad()] *)
env_get_state_grad : Env -> ndarray * ndarray;
(** [env.primitives.get_grad(n)] and [env.primitives.action_dim] *)
env_primitives_get_grad : nat -> Env -> ndarray;
env_action_dim : Env -> nat;
(** entering and leaving [with ti.Tape(env.loss.loss)] *)
tape_enter : Env -> Env;
tape_exit : Env -> Env;
(** what [env.save_current_state(path)] writes to [path] *)
env_snapshot : Env -> Snapshot
}.

(** ** The assignment oracles ([plb.engine.losses])

    [compute_emd(x, x_hat, iters)] returns a distance and an assignment,
    [solve_icp(x_hat, x, iters)] an assignment only.  The assignment is given
    as the integer indices that index the decoded cloud (after [.long()]). *)
Class Oracles : Type := {
  compute_emd : ndarray -> ndarray -> Z -> float * list Z;
  solve_icp : ndarray -> ndarray -> Z -> list Z
}.

(** ** The rollout coordinator's world: heap, simulator, messages *)
Section Rollout.
Context `{TaichiEnv} `{Oracles}.

Record World : Type := mk_World {
  heap : gmap loc obj;
  env : Env;
  log : list string
}.

Definition set_heap (f : gmap loc obj -> gmap loc obj) (w : World) : World :=
  mk_World (f (heap w)) (env w) (log w).
Definition set_env (f : Env -> Env) (w : World) : World :=
  mk_World (heap w) (f (env w)) (log w).

(** [mpi.msg(s)] *)
Definition say (s : string) (w : World) : World :=
  mk_World (heap w) (env w) (log w ++ [s]).
Definition msg (s : string) : Prog World unit := modify (say s).

(** Reading the object a name denotes.  Every name of a running Python
    program denotes an object; [NameError] stands for the other case. *)
Definition load (l : loc) : Prog World obj :=
  fun w => match heap w !! l with
           | Some o => (Ok o, w)
           | None => (Raise NameError, w)
           end.

(** A new object gets an identity no live object has. *)
Definition alloc (o : obj) : Prog World loc :=
  fun w => let l := fresh (dom (heap w)) in (Ok l, set_heap <[l:=o]> w).

(** The value of a NumPy array ([torch.from_numpy] refuses anything else). *)
Definition array_of (l : loc) : Prog World ndarray :=
  o ← load l;
  match o with
  | NdArray a => mret a
  | PyList _ => raise TypeError
  end.

(** [xs[i]] for a Python list [xs] of objects. *)
Definition list_getitem (l : loc) (i : nat) : Prog World loc :=
  o ← load l;
  match o with
  | PyList items =>
      match items !! i with
      | Some x => mret x
      | None => raise IndexError
      end
  | NdArray _ => raise TypeError
  end.

(** [xs[i] = x] for a Python list [xs]. *)
Definition list_setitem (l : loc) (i : nat) (x : loc) : Prog World unit :=
  o ← load l;
  match o with
  | PyList items =>
      if (i <? length items)%nat
      then modify (set_heap <[l:=PyList (<[i:=x]> items)]>)
      else raise IndexError
  | NdArray _ => raise TypeError
  end.

(** [len(xs)] for a list or an array. *)
Definition py_len (l : loc) : Prog World nat :=
  o ← load l;
  match o with
  | PyList items => mret (length items)
  | NdArray a =>
      match Nd.len a with
      | Some n => mret n
      | None => raise TypeError
      end
  end.

(** [xs[i]] read as an array value: an element of a list of arrays, or a
    row of an array. *)
Definition getitem (l : loc) (i : nat) : Prog World ndarray :=
  o ← load l;
  match o with
  | PyList items =>
      match items !! i with
      | Some x => array_of x
      | None => raise IndexError
      end
  | NdArray a =>
      match Nd.row a i with
      | Some r => mret r
      | None => raise IndexError
      end
  end.

(** [copy.deepcopy] of the elements of a list of arrays.  The memo keeps
    an array that occurs twice shared in the copy. *)
Fixpoint deepcopy_items (memo : gmap loc loc) (items : list loc)
  : Prog World (list loc) :=
  match items with
  | [] => mret []
  | l :: rest =>
      match memo !! l with
      | Some l' =>
          ls ← deepcopy_items memo rest;
          mret (l' :: ls)
      | None =>
          a ← array_of l;
          l' ← alloc (NdArray a);
          ls ← deepcopy_items (<[l:=l']> memo) rest;
          mret (l' :: ls)
      end
  end.

(** [copy.deepcopy(x)] for an array or a list of arrays. *)
Definition deepcopy (l : loc) : Prog World loc :=
  o ← load l;
  match o with
  | PyList items =>
      items' ← deepcopy_items ∅ items;
      alloc (PyList items')
  | NdArray a => alloc (NdArray a)
  end.

(** The arrays of a state list, as the simulator reads them. *)
Definition read_state (l : loc) : Prog World (list ndarray) :=
  o ← load l;
  match o with
  | PyList items => mapM array_of items
  | NdArray _ => raise TypeError
  end.

(** *** [Solver] of [focal_learn_latent.py] and [learn_latent.py]

    The fields the two rollout operations read: the network's forward
    function, [cfg.softness], [decay_factor] and [steps]. *)
Record Solver : Type := mk_Solver {
  model : ndarray -> ndarray;
  softness : float;
  decay_factor : float;
  steps : option Z
}.

(** The rollout length, as all three [forward] closures compute it:
<<
    if self.steps == None:
        steps = len(targets)
    else:
        steps = self.steps if ((self.steps<len(targets))and (self.steps>0)) else len(targets)
>> *)
Definition effective_steps (configured : option Z) (len_targets : Z) : Z :=
  match configured with
  | None => len_targets
  | Some s => if ((s <? len_targets) && (s >? 0))%Z then s else len_targets
  end.

(** [with ti.Tape(env.loss.loss): body]; the tape is left on every exit,
    also on an exception. *)
Definition with_tape {A} (body : Prog World A) : Prog World A :=
  fun w =>
    let '(r, w') := body (set_env tape_enter w) in
    (r, set_env tape_exit w').

(** One step of either rollout loop. *)
Definition rollout_step (self : Solver) (targets actions : loc) (i : nat)
  : Prog World unit :=
  t ← getitem targets i;
  modify (set_env (env_set_target t));;
  a ← getitem actions i;
  modify (set_env (env_step a));;
  modify (set_env (env_compute_loss false (decay_factor self))).

(** [forward] of [solve_multistep] (gradient recording). *)
Definition forward_grad (self : Solver) (state targets actions : loc)
  : Prog World (float * (ndarray * ndarray)) :=
  st ← read_state state;
  modify (set_env (env_set_state st (softness self) false));;
  n ← py_len targets;
  let steps := effective_steps (steps self) (Z.of_nat n) in
  with_tape (
    for_range (Z.to_nat steps) (rollout_step self targets actions);;
    modify (set_env env_set_grad));;
  e ← gets env;
  mret (env_loss e, env_get_state_grad e).

(** [forward] of [exec_multistep] (no gradient). *)
Definition forward_nograd (self : Solver) (state targets actions : loc)
  : Prog World float :=
  st ← read_state state;
  modify (set_env (env_set_state st (softness self) false));;
  n ← py_len targets;
  let steps := effective_steps (steps self) (Z.of_nat n) in
  for_range (Z.to_nat steps) (rollout_step self targets actions);;
  e ← gets env;
  mret (env_loss e).

(** [x_hat[assignment]] *)
Definition reorder (x_hat : ndarray) (assignment : list Z) : Prog World ndarray :=
  match Nd.index_select x_hat assignment with
  | Some r => mret r
  | None => raise IndexError
  end.

End Rollout.

(** ** [focal_learn_latent.py]: the rollout coordinator *)
Module Focal.
Section Coordinator.
Context `{TaichiEnv} `{Oracles}.

(** [Solver.solve_multistep], lines 99-106: decode the first frame,
    reorder it, substitute it into a deep copy of [state] and roll out.
    The results are [x_hat], [loss_first], [loss] and the raw [x_hat_grad].
    [x_hat] is a binary32 tensor value; the array stored into
    [state_hat[0]] is a new binary64 NumPy object. *)
Definition rollout (self : Solver) (state actions targets : loc)
  : Prog World (ndarray * float * float * ndarray) :=
  s0 ← list_getitem state 0;
  x ← array_of s0;
  let x_hat := model self (Nd.to_float32 x) in
  let '(loss_first, assignment) := compute_emd x x_hat 3000 in
  x_hat_after ← reorder x_hat assignment;
  let x_hat := x_hat_after in
  state_hat ← deepcopy state;
  arr ← alloc (NdArray (Nd.to_float64 x_hat));
  list_setitem state_hat 0 arr;;
  '(loss, (x_hat_grad, _)) ← forward_grad self state_hat targets actions;
  mret (x_hat, loss_first, loss, x_hat_grad).

(** [Solver.solve_multistep(state, actions, targets, localDevice)]:
    lines 99-106, then lines 107-112. *)
Definition solve_multistep (self : Solver) (state actions targets : loc)
  : Prog World (option ndarray * option ndarray * float * float) :=
  '(x_hat, loss_first, loss, x_hat_grad) ← rollout self state actions targets;
  let x_hat_grad := Nd.clamp Float64.neg_one Float64.one x_hat_grad in
  if negb (Nd.any_nan x_hat_grad)
  then mret (Some x_hat, Some x_hat_grad, loss_first, loss)
  else
    msg "NAN Detected";;
    mret (None, None, loss_first, loss).

(** [Solver.exec_multistep(state, actions, targets, localDevice)],
    lines 145-153. *)
Definition exec_multistep (self : Solver) (state actions targets : loc)
  : Prog World (float * float) :=
  s0 ← list_getitem state 0;
  x ← array_of s0;
  let x_hat := model self (Nd.to_float32 x) in
  let '(loss_first, assignment) := compute_emd x x_hat 3000 in
  x_hat_after ← reorder x_hat assignment;
  let x_hat := x_hat_after in
  state_hat ← deepcopy state;
  arr ← alloc (NdArray (Nd.to_float64 x_hat));
  list_setitem state_hat 0 arr;;
  loss ← forward_nograd self state_hat targets actions;
  mret (loss_first, loss).

End Coordinator.
End Focal.

(** ** [learn_latent.py]: the rollout coordinator *)
Module LearnLatent.
Section Coordinator.
Context `{TaichiEnv} `{Oracles}.

(** [Solver.solve_multistep], lines 100-106: as in the focal variant, with
    [solve_icp] for the assignment and no distance.  The results are
    [x_hat], [loss] and the raw [x_hat_grad]. *)
Definition rollout (self : Solver) (state actions targets : loc)
  : Prog World (ndarray * float * ndarray) :=
  s0 ← list_getitem state 0;
  x ← array_of s0;
  let x_hat := model self (Nd.to_float32 x) in
  let assignment := solve_icp x_hat x 3000 in
  x_hat ← reorder x_hat assignment;
  state_hat ← deepcopy state;
  arr ← alloc (NdArray (Nd.to_float64 x_hat));
  list_setitem state_hat 0 arr;;
  '(loss, (x_hat_grad, _)) ← forward_grad self state_hat targets actions;
  mret (x_hat, loss, x_hat_grad).

(** [Solver.solve_multistep(state, actions, targets, localDevice)]:
    lines 100-106, then lines 107-112.  The third component of the result
    is the integer [0]. *)
Definition solve_multistep (self : Solver) (state actions targets : loc)
  : Prog World (option ndarray * option ndarray * Z * float) :=
  '(x_hat, loss, x_hat_grad) ← rollout self state actions targets;
  let x_hat_grad := Nd.clamp Float64.neg_one Float64.one x_hat_grad in
  if negb (Nd.any_nan x_hat_grad)
  then mret (Some x_hat, Some x_hat_grad, 0%Z, loss)
  else
    msg "NAN Detected";;
    mret (None, None, 0%Z, loss).

End Coordinator.
End LearnLatent.

(** ** The distributed training loops

    What the loops call outside the three modules: the rollout coordinator
    (as an interface, so that the loops can be studied for any behaviour of
    the coordinator), the MPI helpers of [plb.mpi], PyTorch's autograd,
    optimizer and checkpointing, and the dataset of [plb.neurals].  [Sys] is
    the state all of them live in: network parameters, optimizer state,
    simulator, dataset with its loss table, communicator.  The coordinator
    may raise; the library calls are taken to return. *)

(** Names of the checkpoint files written by [torch.save]. *)
Inductive checkpoint : Type :=
| BatchModel (total_batch : nat)
| BatchEncoder (total_batch : nat)
| FinalModel
| FinalEncoder
| FocalModel
| FocalEncoder.

Class Runtime : Type := {
  Sys : Type;
  Batch : Type;
  StateArg : Type;
  TargetArg : Type;
  ActionArg : Type;
  IndexArg : Type;
  Cloud : Type;
  Grad : Type;
  LossFirst : Type;
  Subset : Type;
(** [solver.solve_multistep(state=, actions=, targets=, localDevice=)] *)
solver_solve_multistep :
  StateArg -> ActionArg -> TargetArg ->
  Prog Sys (option Cloud * option Grad * LossFirst * float);
(** [solver.exec_multistep(state=, actions=, targets=, localDevice=)] *)
solver_exec_multistep :
  StateArg -> ActionArg -> TargetArg -> Prog Sys (LossFirst * float);
(** the two [mpi.batch_collate] calls on one minibatch *)
batch_collate : Batch -> Sys -> (StateArg * TargetArg * ActionArg * IndexArg) * Sys;
(** [mpi.avg(x)] and [mpi.avg(x, base=b)] *)
mpi_avg : float -> option Z -> Sys -> float * Sys;
mpi_avg_grads : Sys -> Sys;
mpi_sync_params : Sys -> Sys;
mpi_num_procs : Sys -> nat * Sys;
mpi_proc_id : Sys -> nat * Sys;
mpi_gather_loss_id : IndexArg -> float -> Sys -> option (list Z * list float) * Sys;
mpi_sync_loss : Sys -> Sys;
(** [optimizer.zero_grad()], [state.backward(gradient, retain_graph=True)],
    [loss.backward()], [optimizer.step()] *)
optimizer_zero_grad : Sys -> Sys;
tensor_backward : Cloud -> Grad -> Sys -> Sys;
loss_backward : LossFirst -> Sys -> Sys;
optimizer_step : Sys -> Sys;
(** [dataset.recordLoss(idxs, losses)], [dataset.getSubset(size)],
    [DataLoader(subset, batch_size=n)] *)
dataset_recordLoss : list Z -> list float -> Sys -> Sys;
dataset_getSubset : nat -> Sys -> Subset * Sys;
make_DataLoader : Subset -> nat -> list Batch;
(** [torch.save(..., path)] *)
torch_save : checkpoint -> Sys -> Sys
}.

(** Messages printed through [mpi.msg]. *)
Inductive message : Type :=
| MsgBatch (batchCnt : nat) (batchLoss : float)
| MsgEpoch (i : nat) (avg : float)
| MsgTotalLocal (avg : float)
| MsgTotalGlobal (avg : float).

(** What the loop has done with the coordinator and the dataset: every
    [solve_multistep] and [exec_multistep] call that returned, with the epoch
    and batch counter of the call, whether the state and the gradient it
    returned were both not [None], and the loss it returned; and every
    rebuilding of the dataloader.  The trace is not a Python variable. *)
Inductive event : Type :=
| EvSolve (epoch batch : nat) (usable : bool) (loss : float)
| EvExec (epoch batch : nat) (loss : float)
| EvResample (epoch : nat).

Section Training.
Context `{Runtime}.

(** The local variables of [learn_latent] and [learn_latent_focal], next
    to the external state. *)
Record Loop : Type := mk_Loop {
  sys : Sys;
  msgs : list message;
  trace : list event;
  dataloader : list Batch;
  use_grad : bool;
  procAvgLoss : list float;
  batchCnt : nat;
  efficientBatchCnt : nat;
  batchLoss : float;
  total_batch : nat
}.

Definition set_sys (x : Sys) (w : Loop) : Loop :=
  mk_Loop x (msgs w) (trace w) (dataloader w) (use_grad w) (procAvgLoss w)
    (batchCnt w) (efficientBatchCnt w) (batchLoss w) (total_batch w).
Definition set_msgs (x : list message) (w : Loop) : Loop :=
  mk_Loop (sys w) x (trace w) (dataloader w) (use_grad w) (procAvgLoss w)
    (batchCnt w) (efficientBatchCnt w) (batchLoss w) (total_batch w).
Definition set_trace (x : list event) (w : Loop) : Loop :=
  mk_Loop (sys w) (msgs w) x (dataloader w) (use_grad w) (procAvgLoss w)
    (batchCnt w) (efficientBatchCnt w) (batchLoss w) (total_batch w).
Definition set_dataloader (x : list Batch) (w : Loop) : Loop :=
  mk_Loop (sys w) (msgs w) (trace w) x (use_grad w) (procAvgLoss w)
    (batchCnt w) (efficientBatchCnt w) (batchLoss w) (total_batch w).
Definition set_use_grad (x : bool) (w : Loop) : Loop :=
  mk_Loop (sys w) (msgs w) (trace w) (dataloader w) x (procAvgLoss w)
    (batchCnt w) (efficientBatchCnt w) (batchLoss w) (total_batch w).
Definition set_procAvgLoss (x : list float) (w : Loop) : Loop :=
  mk_Loop (sys w) (msgs w) (trace w) (dataloader w) (use_grad w) x
    (batchCnt w) (efficientBatchCnt w) (batchLoss w) (total_batch w).
Definition set_batchCnt (x : nat) (w : Loop) : Loop :=
  mk_Loop (sys w) (msgs w) (trace w) (dataloader w) (use_grad w) (procAvgLoss w)
    x (efficientBatchCnt w) (batchLoss w) (total_batch w).
Definition set_efficientBatchCnt (x : nat) (w : Loop) : Loop :=
  mk_Loop (sys w) (msgs w) (trace w) (dataloader w) (use_grad w) (procAvgLoss w)
    (batchCnt w) x (batchLoss w) (total_batch w).
Definition set_batchLoss (x : float) (w : Loop) : Loop :=
  mk_Loop (sys w) (msgs w) (trace w) (dataloader w) (use_grad w) (procAvgLoss w)
    (batchCnt w) (efficientBatchCnt w) x (total_batch w).
Definition set_total_batch (x : nat) (w : Loop) : Loop :=
  mk_Loop (sys w) (msgs w) (trace w) (dataloader w) (use_grad w) (procAvgLoss w)
    (batchCnt w) (efficientBatchCnt w) (batchLoss w) x.

(** A call to the coordinator, and a call to a library. *)
Definition call {A} (m : Prog Sys A) : Prog Loop A :=
  fun w => let '(r, s) := m (sys w) in (r, set_sys s w).
Definition ext {A} (f : Sys -> A * Sys) : Prog Loop A := call (lift f).
Definition ext_ (f : Sys -> Sys) : Prog Loop unit := call (modify f).

Definition emit (m : message) : Prog Loop unit :=
  modify (fun w => set_msgs (msgs w ++ [m]) w).

Definition record (e : event) : Prog Loop unit :=
  modify (fun w => set_trace (trace w ++ [e]) w).

(** [procAvgLoss[i] += x] *)
Definition add_loss (i : nat) (x : float) : Prog Loop unit :=
  l ← gets procAvgLoss;
  match l !! i with
  | Some v => modify (set_procAvgLoss (<[i:=Float64.add v x]> l))
  | None => raise IndexError
  end.

(** [x / n] for a float [x] and an int [n] *)
Definition truediv {W} (x : float) (n : nat) : Prog W float :=
  if (n =? 0)%nat then raise ZeroDivisionError
  else mret (Float64.div x (Float64.of_Z (Z.of_nat n))).

(** [procAvgLoss[i] /= efficientBatchCnt] *)
Definition div_loss (i : nat) : Prog Loop unit :=
  l ← gets procAvgLoss;
  match l !! i with
  | Some v =>
      n ← gets efficientBatchCnt;
      q ← truediv v n;
      modify (set_procAvgLoss (<[i:=q]> l))
  | None => raise IndexError
  end.

(** [procAvgLoss[i]] *)
Definition read_loss (i : nat) : Prog Loop float :=
  l ← gets procAvgLoss;
  match l !! i with
  | Some v => mret v
  | None => raise IndexError
  end.

(** [sum(xs)]: Python starts from the integer [0]. *)
Definition py_sum (xs : list float) : float :=
  fold_left Float64.add xs (Float64.of_Z 0).

End Training.

(** ** [focal_learn_latent.py]: the training loop *)
Module FocalLoop.
Section Loop.
Context `{Runtime}.

Definition epochs : nat := 20.

(** [_update_network_mpi(model, optimizer, state, gradient, loss, use_loss)] *)
Definition _update_network_mpi
    (state : option Cloud) (gradient : option Grad) (loss : LossFirst)
    (use_loss : bool) : Prog Sys unit :=
  match state, gradient with
  | Some s, Some g =>
      modify optimizer_zero_grad;;
      modify (tensor_backward s g);;
      when use_loss (modify (loss_backward loss))
  | _, _ => mret tt
  end;;
  modify mpi_avg_grads;;
  when (bool_decide (is_Some state) && bool_decide (is_Some gradient))
    (modify optimizer_step).

(** [_update_loss(index, loss, dataset)] *)
Definition _update_loss (index : IndexArg) (loss : float) : Prog Sys unit :=
  data ← lift (mpi_gather_loss_id index loss);
  match data with
  | Some (idxs, losses) => modify (dataset_recordLoss idxs losses)
  | None => mret tt
  end.

(** [_update_focal_scheme(dataset, size)] *)
Definition _update_focal_scheme (size : nat) : Prog Sys (list Batch) :=
  modify mpi_sync_loss;;
  subdataset ← lift (dataset_getSubset size);
  n ← lift mpi_num_procs;
  mret (make_DataLoader subdataset n).

(** The body of [for ... in dataloader], lines 282-325, in epoch [i]. *)
Definition process_batch (i : nat) (b : Batch) : Prog Loop unit :=
  '(stateProc, targetProc, actionProc, indexProc) ← ext (batch_collate b);
  g ← gets use_grad;
  k ← gets batchCnt;
  (if (g : bool) then
     '(result_state, gradient, lossInBuffer, currentLoss) ←
       call (solver_solve_multistep stateProc actionProc targetProc);
     let usable :=
       bool_decide (is_Some result_state) && bool_decide (is_Some gradient) in
     record (EvSolve i k usable currentLoss);;
     (if usable then
        add_loss i currentLoss;;
        bl ← ext (mpi_avg currentLoss None);
        modify (set_batchLoss bl);;
        modify (fun w => set_efficientBatchCnt (efficientBatchCnt w + 1) w)
      else
        bl ← ext (mpi_avg (Float64.of_Z 0) (Some 0%Z));
        modify (set_batchLoss bl));;
     call (_update_network_mpi result_state gradient lossInBuffer false);;
     n ← ext mpi_num_procs;
     when (1 <? n)%nat (ext_ mpi_sync_params)
   else
     '(lossInBuffer, currentLoss) ←
       call (solver_exec_multistep stateProc actionProc targetProc);
     record (EvExec i k currentLoss);;
     call (_update_loss indexProc currentLoss);;
     add_loss i currentLoss;;
     bl ← ext (mpi_avg currentLoss None);
     modify (set_batchLoss bl);;
     modify (fun w => set_efficientBatchCnt (efficientBatchCnt w + 1) w));;
  pid ← ext mpi_proc_id;
  when (pid =? 0)%nat (bl ← gets batchLoss; emit (MsgBatch k bl));;
  modify (fun w => set_batchCnt (batchCnt w + 1) w).

(** The body of [for i in range(epochs)], lines 279-334. *)
Definition run_epoch (i : nat) : Prog Loop unit :=
  modify (set_batchCnt 0);;
  modify (set_efficientBatchCnt 0);;
  dl ← gets dataloader;
  for_each dl (process_batch i);;
  div_loss i;;
  avg ← read_loss i;
  emit (MsgEpoch i avg);;
  if (i mod 5 =? 0)%nat then
    dl' ← call (_update_focal_scheme 1000);
    record (EvResample i);;
    modify (set_dataloader dl');;
    modify (set_use_grad true)
  else if (i mod 5 =? 4)%nat then
    modify (set_use_grad false)
  else mret tt.

(** Lines 276-334 for [n] epochs. *)
Definition training_loop (n : nat) : Prog Loop unit :=
  modify (set_use_grad false);;
  modify (set_procAvgLoss (replicate n Float64.zero));;
  for_range n run_epoch.

(** [learn_latent_focal(args, loss_fn)] from line 276 on.  Lines 251-275
    build the collaborators: they are the [sys] and the [dataloader] of
    the world the program starts in. *)
Definition learn_latent_focal : Prog Loop unit :=
  training_loop epochs;;
  l ← gets procAvgLoss;
  totalAverageLoss ← truediv (py_sum l) (length l);
  emit (MsgTotalLocal totalAverageLoss);;
  totalAverageLoss ← ext (mpi_avg totalAverageLoss None);
  pid ← ext mpi_proc_id;
  when (pid =? 0)%nat (
    ext_ (torch_save FocalModel);;
    ext_ (torch_save FocalEncoder)).

End Loop.
End FocalLoop.

(** ** [learn_latent.py]: the training loop *)
Module LearnLatentLoop.
Section Loop.
Context `{Runtime}.

Definition epochs : nat := 5.

(** [_update_network_mpi(model, optimizer, state, gradient, loss, use_loss)] *)
Definition _update_network_mpi
    (state : option Cloud) (gradient : option Grad) (loss : LossFirst)
    (use_loss : bool) : Prog Sys unit :=
  match state, gradient with
  | Some s, Some g =>
      modify optimizer_zero_grad;;
      modify (tensor_backward s g);;
      when use_loss (modify (loss_backward loss))
  | _, _ => mret tt
  end;;
  n ← lift mpi_num_procs;
  when (1 <? n)%nat (modify mpi_avg_grads);;
  when (bool_decide (is_Some state) && bool_decide (is_Some gradient))
    (modify optimizer_step).

(** The body of [for ... in dataloader], lines 240-279, in epoch [i]. *)
Definition process_batch (i : nat) (b : Batch) : Prog Loop unit :=
  '(stateProc, targetProc, actionProc, indexProc) ← ext (batch_collate b);
  k ← gets batchCnt;
  '(result_state, gradient, lossInBuffer, currentLoss) ←
    call (solver_solve_multistep stateProc actionProc targetProc);
  let usable :=
    bool_decide (is_Some result_state) && bool_decide (is_Some gradient) in
  record (EvSolve i k usable currentLoss);;
  (if usable then
     add_loss i currentLoss;;
     bl ← ext (mpi_avg currentLoss None);
     modify (set_batchLoss bl);;
     modify (fun w => set_efficientBatchCnt (efficientBatchCnt w + 1) w)
   else
     bl ← ext (mpi_avg (Float64.of_Z 0) (Some 0%Z));
     modify (set_batchLoss bl));;
  call (_update_network_mpi result_state gradient lossInBuffer false);;
  n ← ext mpi_num_procs;
  when (1 <? n)%nat (ext_ mpi_sync_params);;
  pid ← ext mpi_proc_id;
  when (pid =? 0)%nat (
    bl ← gets batchLoss;
    emit (MsgBatch k bl);;
    tb ← gets total_batch;
    when ((tb =? 5) || (tb =? 10) || (tb =? 1000))%nat (
      ext_ (torch_save (BatchModel tb));;
      ext_ (torch_save (BatchEncoder tb))));;
  modify (fun w => set_batchCnt (batchCnt w + 1) w);;
  modify (fun w => set_total_batch (total_batch w + 1) w).

(** The body of [for i in range(epochs)], lines 238-281. *)
Definition run_epoch (i : nat) : Prog Loop unit :=
  modify (set_batchCnt 0);;
  modify (set_efficientBatchCnt 0);;
  dl ← gets dataloader;
  for_each dl (process_batch i);;
  div_loss i;;
  avg ← read_loss i;
  emit (MsgEpoch i avg).

(** Lines 235-281 for [n] epochs. *)
Definition training_loop (n : nat) : Prog Loop unit :=
  modify (set_procAvgLoss (replicate n Float64.zero));;
  modify (set_total_batch 0);;
  for_range n run_epoch.

(** [learn_latent(args, loss_fn)] from line 235 on. *)
Definition learn_latent : Prog Loop unit :=
  training_loop epochs;;
  l ← gets procAvgLoss;
  totalAverageLoss ← truediv (py_sum l) (length l);
  emit (MsgTotalLocal totalAverageLoss);;
  totalAverageLoss ← ext (mpi_avg totalAverageLoss None);
  pid ← ext mpi_proc_id;
  when (pid =? 0)%nat (
    emit (MsgTotalGlobal totalAverageLoss);;
    ext_ (torch_save FinalModel);;
    ext_ (torch_save FinalEncoder)).

End Loop.
End LearnLatentLoop.

(** ** [solver.py]: the single-agent trajectory optimizer *)

(** The optimizers of [plb.optimizer.optim], the logger and NumPy's random
    generator are external. *)
Inductive optim_class : Type := Adam | Momentum.

Class TrajLibs : Type := {
  OptimCfg : Type;
  Optim : Type;
  Logger : Type;
  Rng : Type;
(** [OPTIMS[type](init_actions, cfg)] *)
optim_new : optim_class -> ndarray -> OptimCfg -> Optim;
(** [optim.step(grads)] *)
optim_step : ndarray -> Optim -> ndarray * Optim;
(** [logger.reset()] *)
logger_reset : Logger -> Logger;
(** [np.random.uniform(lo, hi, size=(rows, cols))] *)
np_random_uniform : float -> float -> nat -> nat -> Rng -> ndarray * Rng
}.

Module TrajOpt.
Section Solver.
Context `{TaichiEnv} `{TrajLibs}.

(** [OPTIMS] *)
Definition OPTIMS : gmap string optim_class :=
  <["Adam":=Adam]> (<["Momentum":=Momentum]> ∅).

(** [self.cfg], with [cfg.optim] split into its [type] and the rest. *)
Record Config : Type := mk_Config {
  optim_type : string;
  optim_cfg : OptimCfg;
  n_iters : Z;
  softness : float;
  horizon : nat;
  init_range : float;
  init_sampler : string
}.

(** The solver object ([self.total_steps], [self.pc_cnt], [self.params],
    [self.logger], [self.env]), the locals of [solve] ([optim],
    [action_buffer], [best_action], [best_loss], [actions]), the files
    under [raw_data/<exp_name>/] and what [print] has written.  [evals] is
    not a Python variable: it lists, for every gradient rollout, the
    action sequence it ran and the loss it read back. *)
Record World : Type := mk_World {
  env : Env;
  logger : option Logger;
  rng : Rng;
  optim : Optim;
  total_steps : nat;
  pc_cnt : nat;
  params : option ndarray;
  action_buffer : list ndarray;
  best_action : option ndarray;
  best_loss : float;
  actions : ndarray;
  state_files : gmap nat Snapshot;
  action_file : option (list ndarray);
  printed : list (nat * float);
  evals : list (ndarray * float)
}.

Definition set_env (f : Env -> Env) (w : World) : World :=
  mk_World (f (env w)) (logger w) (rng w) (optim w) (total_steps w) (pc_cnt w)
    (params w) (action_buffer w) (best_action w) (best_loss w) (actions w)
    (state_files w) (action_file w) (printed w) (evals w).
Definition set_logger (f : option Logger -> option Logger) (w : World) : World :=
  mk_World (env w) (f (logger w)) (rng w) (optim w) (total_steps w) (pc_cnt w)
    (params w) (action_buffer w) (best_action w) (best_loss w) (actions w)
    (state_files w) (action_file w) (printed w) (evals w).
Definition set_rng (x : Rng) (w : World) : World :=
  mk_World (env w) (logger w) x (optim w) (total_steps w) (pc_cnt w)
    (params w) (action_buffer w) (best_action w) (best_loss w) (actions w)
    (state_files w) (action_file w) (printed w) (evals w).
Definition set_optim (x : Optim) (w : World) : World :=
  mk_World (env w) (logger w) (rng w) x (total_steps w) (pc_cnt w)
    (params w) (action_buffer w) (best_action w) (best_loss w) (actions w)
    (state_files w) (action_file w) (printed w) (evals w).
Definition set_total_steps (f : nat -> nat) (w : World) : World :=
  mk_World (env w) (logger w) (rng w) (optim w) (f (total_steps w)) (pc_cnt w)
    (params w) (action_buffer w) (best_action w) (best_loss w) (actions w)
    (state_files w) (action_file w) (printed w) (evals w).
Definition set_pc_cnt (f : nat -> nat) (w : World) : World :=
  mk_World (env w) (logger w) (rng w) (optim w) (total_steps w) (f (pc_cnt w))
    (params w) (action_buffer w) (best_action w) (best_loss w) (actions w)
    (state_files w) (action_file w) (printed w) (evals w).
Definition set_params (x : option ndarray) (w : World) : World :=
  mk_World (env w) (logger w) (rng w) (optim w) (total_steps w) (pc_cnt w)
    x (action_buffer w) (best_action w) (best_loss w) (actions w)
    (state_files w) (action_file w) (printed w) (evals w).
Definition set_action_buffer (f : list ndarray -> list ndarray) (w : World) : World :=
  mk_World (env w) (logger w) (rng w) (optim w) (total_steps w) (pc_cnt w)
    (params w) (f (action_buffer w)) (best_action w) (best_loss w) (actions w)
    (state_files w) (action_file w) (printed w) (evals w).
Definition set_best_action (x : option ndarray) (w : World) : World :=
  mk_World (env w) (logger w) (rng w) (optim w) (total_steps w) (pc_cnt w)
    (params w) (action_buffer w) x (best_loss w) (actions w)
    (state_files w) (action_file w) (printed w) (evals w).
Definition set_best_loss (x : float) (w : World) : World :=
  mk_World (env w) (logger w) (rng w) (optim w) (total_steps w) (pc_cnt w)
    (params w) (action_buffer w) (best_action w) x (actions w)
    (state_files w) (action_file w) (printed w) (evals w).
Definition set_actions (x : ndarray) (w : World) : World :=
  mk_World (env w) (logger w) (rng w) (optim w) (total_steps w) (pc_cnt w)
    (params w) (action_buffer w) (best_action w) (best_loss w) x
    (state_files w) (action_file w) (printed w) (evals w).
Definition set_state_files (f : gmap nat Snapshot -> gmap nat Snapshot) (w : World)
  : World :=
  mk_World (env w) (logger w) (rng w) (optim w) (total_steps w) (pc_cnt w)
    (params w) (action_buffer w) (best_action w) (best_loss w) (actions w)
    (f (state_files w)) (action_file w) (printed w) (evals w).
Definition set_action_file (x : option (list ndarray)) (w : World) : World :=
  mk_World (env w) (logger w) (rng w) (optim w) (total_steps w) (pc_cnt w)
    (params w) (action_buffer w) (best_action w) (best_loss w) (actions w)
    (state_files w) x (printed w) (evals w).
Definition set_printed (f : list (nat * float) -> list (nat * float)) (w : World)
  : World :=
  mk_World (env w) (logger w) (rng w) (optim w) (total_steps w) (pc_cnt w)
    (params w) (action_buffer w) (best_action w) (best_loss w) (actions w)
    (state_files w) (action_file w) (f (printed w)) (evals w).
Definition set_evals (f : list (ndarray * float) -> list (ndarray * float))
    (w : World) : World :=
  mk_World (env w) (logger w) (rng w) (optim w) (total_steps w) (pc_cnt w)
    (params w) (action_buffer w) (best_action w) (best_loss w) (actions w)
    (state_files w) (action_file w) (printed w) (f (evals w)).

(** [if self.logger is not None: self.logger.reset()] *)
Definition reset_logger : Prog World unit :=
  modify (set_logger (fmap logger_reset)).

(** [len(a)] and [a[i]] on an array value *)
Definition nd_len (a : ndarray) : Prog World nat :=
  match Nd.len a with
  | Some n => mret n
  | None => raise TypeError
  end.

Definition nd_getitem (a : ndarray) (i : nat) : Prog World ndarray :=
  match Nd.row a i with
  | Some r => mret r
  | None => raise IndexError
  end.

(** [with ti.Tape(loss=env.loss.loss): body] *)
Definition with_tape {A} (body : Prog World A) : Prog World A :=
  fun w =>
    let '(r, w') := body (set_env tape_enter w) in
    (r, set_env tape_exit w').

(** [env.save_current_state(f'raw_data/{exp_name}/state/{self.pc_cnt}')]:
    the file is named by the counter, an existing file is overwritten. *)
Definition save_current_state : Prog World unit :=
  modify (fun w => set_state_files <[pc_cnt w:=env_snapshot (env w)]> w).

(** [Solver.init_actions(env, cfg)] *)
Definition init_actions (cfg : Config) : Prog World ndarray :=
  action_dim ← gets (fun w => env_action_dim (env w));
  if String.eqb (init_sampler cfg) "uniform" then
    lift (fun w =>
      let '(a, r) :=
        np_random_uniform (SFopp (init_range cfg)) (init_range cfg)
          (horizon cfg) action_dim (rng w) in
      (a, set_rng r w))
  else raise NotImplementedError.

(** The closure [forward(sim_state, actions)] of [solve], lines 37-48. *)
Definition forward (cfg : Config) (sim_state : list ndarray) (actions : ndarray)
  : Prog World (float * ndarray) :=
  reset_logger;;
  modify (set_env (env_set_state sim_state (softness cfg) false));;
  n ← nd_len actions;
  with_tape (
    for_range n (fun i =>
      a ← nd_getitem actions i;
      modify (set_env (env_step a));;
      modify (set_total_steps (fun k => k + 1));;
      modify (set_env env_compute_loss_taichi)));;
  e ← gets env;
  mret (env_loss e, env_primitives_get_grad n e).

(** The closure [forward_nograd(sim_state, action)] of [solve], lines
    50-64.  After the loop [i] is the last index; when the loop has not
    run, [i] is unbound and [action[i]] raises. *)
Definition forward_nograd (cfg : Config) (sim_state : list ndarray) (action : ndarray)
  : Prog World unit :=
  reset_logger;;
  modify (set_env (env_set_state sim_state (softness cfg) false));;
  n ← nd_len action;
  for_range n (fun i =>
    save_current_state;;
    a ← nd_getitem action i;
    modify (set_action_buffer (fun b => b ++ [a]));;
    modify (set_env (env_step a));;
    modify (set_total_steps (fun k => k + 1));;
    modify (set_pc_cnt (fun k => k + 1));;
    modify (set_env env_compute_loss_taichi));;
  last ← match n with
         | O => raise UnboundLocalError
         | S i => nd_getitem action i
         end;
  modify (set_action_buffer (fun b => b ++ [Nd.zeros_like last]));;
  save_current_state;;
  modify (set_pc_cnt (fun k => k + 1)).

(** A callback is called as [callback(self, optim, loss, grads)]; it is
    taken to act on the optimizer and the simulator, not on the solver's
    counters. *)
Definition Callback : Type := float -> ndarray -> Optim * Env -> Optim * Env.

Definition run_callback (loss : float) (grads : ndarray) (cb : Callback)
  : Prog World unit :=
  modify (fun w =>
    let '(o, e) := cb loss grads (optim w, env w) in
    set_env (fun _ => e) (set_optim o w)).

(** One pass of [for iter in range(self.cfg.n_iters)], lines 71-80. *)
Definition iteration (cfg : Config) (sim_state : list ndarray)
    (callbacks : list Callback) (iter : nat) : Prog World unit :=
  a ← gets actions;
  modify (set_params (Some a));;
  '(loss, grads) ← forward cfg sim_state a;
  modify (set_evals (fun l => l ++ [(a, loss)]));;
  bl ← gets best_loss;
  when (Float64.ltb loss bl) (
    modify (set_best_loss loss);;
    modify (set_best_action (Some a)));;
  modify (fun w =>
    let '(a', o) := optim_step grads (optim w) in
    set_actions a' (set_optim o w));;
  for_each callbacks (run_callback loss grads);;
  a' ← gets actions;
  forward_nograd cfg sim_state a';;
  modify (set_printed (fun l => l ++ [(iter, loss)])).

(** [Solver.solve(exp_name, init_actions, callbacks)] *)
Definition solve (cfg : Config) (init : option ndarray) (callbacks : list Callback)
  : Prog World (option ndarray) :=
  init ← match init with
         | Some a => mret a
         | None => init_actions cfg
         end;
  cls ← match OPTIMS !! optim_type cfg with
        | Some c => mret c
        | None => raise KeyError
        end;
  modify (set_optim (optim_new cls init (optim_cfg cfg)));;
  env_state ← gets (fun w => env_get_state (env w));
  modify (set_total_steps (fun _ => 0));;
  modify (set_pc_cnt (fun _ => 0));;
  modify (set_action_buffer (fun _ => []));;
  modify (set_best_action None);;
  modify (set_best_loss Float64.ten_billion);;
  modify (set_actions init);;
  modify (set_evals (fun _ => []));;
  for_range (Z.to_nat (n_iters cfg)) (iteration cfg env_state.1.1 callbacks);;
  modify (set_env (env_set_state env_state.1.1 env_state.1.2 env_state.2));;
  buf ← gets action_buffer;
  modify (set_action_file (Some buf));;
  gets best_action.

End Solver.
End TrajOpt.

(** * Vocabulary of the statements *)

(** [post P m Q E]: started in a world satisfying [P], the program [m] ends
    in a world satisfying [Q a] when it returns [a] and in a world
    satisfying [E] when it raises. *)
Definition post {W A} (P : W -> Prop) (m : Prog W A)
    (Q : A -> W -> Prop) (E : W -> Prop) : Prop :=
  forall w, P w ->
    match m w with
    | (Ok a, w') => Q a w'
    | (Raise _, w') => E w'
    end.

(** A program that leaves a part [view] of the world as it was, whether it
    returns or raises. *)
Definition unchanged {W V A} (view : W -> V) (m : Prog W A) : Prop :=
  forall w, view (m w).2 = view w.

(** Programs of the rollout coordinator and the heap. *)
Section HeapVocabulary.
Context `{TaichiEnv}.

(** Every object of [h0] is still there, unchanged. *)
Definition keeps (h0 : gmap loc obj) (w : World) : Prop := h0 ⊆ heap w.

(** A program that does not touch the heap. *)
Definition heap_silent {A} (m : Prog World A) : Prop :=
  forall w, heap (m w).2 = heap w.

End HeapVocabulary.

(** Reading the trace of a training loop. *)
Section TraceVocabulary.
Context `{Runtime}.

(** The loss of a batch that the loop adds to [procAvgLoss[i]] and counts
    in [efficientBatchCnt]. *)
Definition counted_loss (e : event) : option float :=
  match e with
  | EvSolve _ _ true l => Some l
  | EvSolve _ _ false _ => None
  | EvExec _ _ l => Some l
  | EvResample _ => None
  end.

(** The loss of a batch whose [solve_multistep] call gave a state and a
    gradient that are both not [None]. *)
Definition usable_pair_loss (e : event) : option float :=
  match e with
  | EvSolve _ _ true l => Some l
  | _ => None
  end.

(** [e] is the coordinator call of batch [k] of epoch [i], made in
    gradient mode ([g = true]) or in evaluation mode. *)
Definition batch_event (i k : nat) (g : bool) (e : event) : Prop :=
  match e with
  | EvSolve i' k' _ _ => g = true /\ i' = i /\ k' = k
  | EvExec i' k' _ => g = false /\ i' = i /\ k' = k
  | EvResample _ => False
  end.

(** What the batch behind [e] has done to the accumulators. *)
Definition accounted (i : nat) (e : event) (w w' : Loop) : Prop :=
  match counted_loss e with
  | Some l =>
      efficientBatchCnt w' = (efficientBatchCnt w + 1)%nat /\
      exists v, procAvgLoss w !! i = Some v /\
                procAvgLoss w' = <[i:=Float64.add v l]> (procAvgLoss w)
  | None =>
      efficientBatchCnt w' = efficientBatchCnt w /\ procAvgLoss w' = procAvgLoss w
  end.

(** [e] is a coordinator call of epoch [i] made in mode [g]. *)
Definition epoch_event (i : nat) (g : bool) (e : event) : Prop :=
  match e with
  | EvSolve i' _ _ _ => g = true /\ i' = i
  | EvExec i' _ _ => g = false /\ i' = i
  | EvResample _ => False
  end.

(** The losses that a stretch of the trace adds to the accumulator. *)
Definition counted_losses (evs : list event) : list float := omap counted_loss evs.

Definition usable_pair_losses (evs : list event) : list float :=
  omap usable_pair_loss evs.

(** What one pass of a batch loop of epoch [i] does, for a loop whose mode
    is read off the world by [mode]. *)
Definition batch_spec (mode : Loop -> bool) (i : nat)
    (body : Batch -> Prog Loop unit) : Prop :=
  forall b w,
    match body b w with
    | (Ok _, w') =>
        mode w' = mode w /\ use_grad w' = use_grad w /\
        dataloader w' = dataloader w /\
        exists e, trace w' = trace w ++ [e] /\
                  epoch_event i (mode w) e /\ accounted i e w w'
    | (Raise _, w') =>
        mode w' = mode w /\ use_grad w' = use_grad w /\
        (trace w' = trace w \/
         procAvgLoss w !! i = None /\
         exists e, trace w' = trace w ++ [e] /\ epoch_event i (mode w) e)
    end.

(** The epochs whose batches the focal loop runs in evaluation mode. *)
Definition evaluation_epoch (i : nat) : bool := (i mod 5 =? 0)%nat.

(** An event that agrees with that schedule: [exec_multistep] calls and
    resamplings belong to epochs [i] with [i mod 5 = 0], [solve_multistep]
    calls to the other epochs. *)
Definition on_schedule (e : event) : Prop :=
  match e with
  | EvSolve i _ _ _ => evaluation_epoch i = false
  | EvExec i _ _ => evaluation_epoch i = true
  | EvResample i => evaluation_epoch i = true
  end.

(** The place of an event in a run: the coordinator calls of epoch [i]
    come first, the resampling of epoch [i] after them and before the
    calls of epoch [i + 1]. *)
Definition event_time (e : event) : nat :=
  match e with
  | EvSolve i _ _ _ => 2 * i
  | EvExec i _ _ => 2 * i
  | EvResample i => 2 * i + 1
  end.

Definition in_time_order (t : list event) : Prop :=
  StronglySorted (fun a b => event_time a <= event_time b)%nat t.

(** The trace so far is on schedule, in time order, and earlier than [B]. *)
Definition scheduled (B : nat) (t : list event) : Prop :=
  Forall on_schedule t /\ in_time_order t /\
  Forall (fun e => event_time e < B)%nat t.

(** A [solve_multistep] call of epoch [i] that returned the NaN sentinel. *)
Definition nan_sentinel_call (i : nat) (e : event) : Prop :=
  exists k l, e = EvSolve i k false l.

(** The arithmetic mean as Python computes it from an accumulator that
    starts at [0.0]. *)
Definition mean (ls : list float) : float :=
  Float64.div (fold_left Float64.add ls Float64.zero)
              (Float64.of_Z (Z.of_nat (length ls))).

End TraceVocabulary.

(** The trajectory archive. *)
Section ArchiveVocabulary.
Context `{TaichiEnv} `{TrajLibs}.

(** The snapshots [0 .. pc_cnt - 1] have been written next to the files
    [F0] that were there, and as many actions have been buffered. *)
Definition aligned (F0 : gset nat) (w : TrajOpt.World) : Prop :=
  length (TrajOpt.action_buffer w) = TrajOpt.pc_cnt w /\
  dom (TrajOpt.state_files w) = F0 ∪ set_seq 0 (TrajOpt.pc_cnt w).

(** The part of the world that the archive statements are about, and the
    part that the best-so-far statements are about. *)
Definition archive_view (w : TrajOpt.World) :=
  (TrajOpt.action_buffer w, TrajOpt.pc_cnt w, TrajOpt.state_files w).

Definition best_view (w : TrajOpt.World) :=
  (TrajOpt.best_loss w, TrajOpt.best_action w, TrajOpt.evals w).

(** The best-so-far variables are what their names say: [best_loss] is a
    number, not above the initial [1e10]; no recorded loss is below it;
    [best_action] is [None] while [best_loss] is still [1e10], and
    otherwise the action sequence of an evaluation [k] whose loss is
    [best_loss], which is below [1e10], every earlier evaluation having a
    loss that is not less than or equal to it (larger, or NaN). *)
Definition best_so_far (w : TrajOpt.World) : Prop :=
  Float64.is_nan (TrajOpt.best_loss w) = false /\
  Float64.leb (TrajOpt.best_loss w) Float64.ten_billion = true /\
  (forall a l, (a, l) ∈ TrajOpt.evals w ->
               Float64.ltb l (TrajOpt.best_loss w) = false) /\
  match TrajOpt.best_action w with
  | None => TrajOpt.best_loss w = Float64.ten_billion
  | Some a =>
      exists k l,
        TrajOpt.evals w !! k = Some (a, l) /\ TrajOpt.best_loss w = l /\
        Float64.ltb l Float64.ten_billion = true /\
        forall k' a' l', (k' < k)%nat -> TrajOpt.evals w !! k' = Some (a', l') ->
                         Float64.leb l' l = false
  end.

(** The body of the loop of [forward_nograd]. *)
Definition archive_step (action : ndarray) (i : nat) : Prog TrajOpt.World unit :=
  TrajOpt.save_current_state;;
  a ← TrajOpt.nd_getitem action i;
  modify (TrajOpt.set_action_buffer (fun b => b ++ [a]));;
  modify (TrajOpt.set_env (env_step a));;
  modify (TrajOpt.set_total_steps (fun k => k + 1));;
  modify (TrajOpt.set_pc_cnt (fun k => k + 1));;
  modify (TrajOpt.set_env env_compute_loss_taichi).

End ArchiveVocabulary.

(** * Small systems to run the programs on *)

Module Example.

(** A simulator that keeps the state arrays it was given and, as its loss,
    the sum of the first components of the actions it has stepped with; the
    state gradient it reports is the first state array. *)
Definition sim : TaichiEnv := {|
  Env := list ndarray * float;
  Snapshot := unit;
  env_set_state st _ _ _ := (st, Float64.zero);
  env_get_state e := (e.1, Float64.zero, false);
  env_set_target _ e := e;
  env_step a e := (e.1, Float64.add e.2 (hd Float64.zero (data a)));
  env_compute_loss _ _ e := e;
  env_compute_loss_taichi e := e;
  env_set_grad e := e;
  env_loss e := e.2;
  env_get_state_grad e := (hd (mk_ndarray [] []) e.1, mk_ndarray [] []);
  env_primitives_get_grad n _ := mk_ndarray [n; 1%nat] (replicate n Float64.one);
  env_action_dim _ := 1%nat;
  tape_enter e := e;
  tape_exit e := e;
  env_snapshot _ := tt
|}.

(** Oracles for clouds of two points: both swap the two points;
    [compute_emd] reports the distance 1. *)
Definition oracles : Oracles := {|
  compute_emd _ _ _ := (Float64.one, [1%Z; 0%Z]);
  solve_icp _ _ _ := [1%Z; 0%Z]
|}.

Definition five : float := Eval vm_compute in Float64.of_Z 5.
Definition minus_seven : float := Eval vm_compute in Float64.of_Z (-7).
Definition twenty_billion : float := Eval vm_compute in Float64.of_Z 20000000000.

(** A solver whose network is the identity, and one whose network decodes
    every cloud to a cloud with a NaN. *)
Definition plain_solver : Solver :=
  mk_Solver (fun x => x) Float64.one Float64.one None.

Definition nan_solver : Solver :=
  mk_Solver (fun _ => mk_ndarray [2; 1]%nat [S754_nan; Float64.one])
    Float64.one Float64.one None.

(** A heap with a state list [0] of two arrays [3] and [4], two actions [1]
    and two targets [2]. *)
Definition cloud : ndarray := mk_ndarray [2; 1]%nat [five; minus_seven].

Definition heap0 : gmap loc obj :=
  <[0%nat:=PyList [3; 4]%nat]>
    (<[1%nat:=NdArray (mk_ndarray [2; 1]%nat [Float64.one; Float64.one])]>
       (<[2%nat:=NdArray (mk_ndarray [2; 1]%nat [Float64.zero; Float64.zero])]>
          (<[3%nat:=NdArray cloud]>
             (<[4%nat:=NdArray (mk_ndarray [2; 1]%nat [Float64.zero; Float64.zero])]>
                ∅)))).

Definition world0 : @World sim := @mk_World sim heap0 ([], Float64.zero) [].

(** A training runtime with nothing behind it: one process, every collective
    the identity, a coordinator that returns the loss 1, with a usable pair
    or with the NaN sentinel. *)
Definition runtime (usable : bool) : Runtime := {|
  Sys := unit;
  Batch := unit;
  StateArg := unit;
  TargetArg := unit;
  ActionArg := unit;
  IndexArg := unit;
  Cloud := unit;
  Grad := unit;
  LossFirst := unit;
  Subset := unit;
  solver_solve_multistep _ _ _ s :=
    (Ok (if usable then Some tt else None, if usable then Some tt else None,
         tt, Float64.one), s);
  solver_exec_multistep _ _ _ s := (Ok (tt, Float64.one), s);
  batch_collate _ s := ((tt, tt, tt, tt), s);
  mpi_avg x _ s := (x, s);
  mpi_avg_grads s := s;
  mpi_sync_params s := s;
  mpi_num_procs s := (1%nat, s);
  mpi_proc_id s := (0%nat, s);
  mpi_gather_loss_id _ _ s := (None, s);
  mpi_sync_loss s := s;
  optimizer_zero_grad s := s;
  tensor_backward _ _ s := s;
  loss_backward _ s := s;
  optimizer_step s := s;
  dataset_recordLoss _ _ s := s;
  dataset_getSubset _ s := (tt, s);
  make_DataLoader _ _ := [tt];
  torch_save _ s := s
|}.

(** A loop world with the given batches and mode and a zeroed accumulator. *)
Definition loop0 (usable : bool) (batches : nat) (grad : bool) (epochs : nat)
  : @Loop (runtime usable) :=
  @mk_Loop (runtime usable) tt [] [] (replicate batches tt) grad
    (replicate epochs Float64.zero) 0 0 Float64.zero 0.

(** Libraries for the trajectory optimizer: an optimizer that hands the
    action sequence back unchanged, a sampler that fills with its lower
    bound. *)
Definition libs (start : ndarray) : TrajLibs := {|
  OptimCfg := unit;
  Optim := unit;
  Logger := unit;
  Rng := unit;
  optim_new _ _ _ := tt;
  optim_step _ o := (start, o);
  logger_reset l := l;
  np_random_uniform lo _ rows cols r :=
    (mk_ndarray [rows; cols] (replicate (rows * cols) lo), r)
|}.

Definition small_actions : ndarray :=
  mk_ndarray [2; 1]%nat [Float64.one; Float64.one].

Definition huge_actions : ndarray :=
  mk_ndarray [1; 1]%nat [twenty_billion].

Definition config (start : ndarray) (iters : Z) : @TrajOpt.Config (libs start) :=
  @TrajOpt.mk_Config (libs start) "Adam" tt iters Float64.one 2 Float64.zero
    "uniform".

Definition traj0 (start : ndarray) : @TrajOpt.World sim (libs start) :=
  @TrajOpt.mk_World sim (libs start) ([], Float64.zero) None tt tt 0 0 None []
    None Float64.zero start ∅ None [] [].

(** What the programs give on these systems. *)
Definition out {A W} (p : res A * W) (d : A) : A :=
  match p.1 with Ok a => a | Raise _ => d end.

Definition nothing : ndarray := mk_ndarray [] [].
Definition two : float := Eval vm_compute in Float64.of_Z 2.

Definition nan_decoded : ndarray :=
  Eval vm_compute in
    (out (@Focal.rollout sim oracles nan_solver 0 1 2 world0)
         (nothing, Float64.zero, Float64.zero, nothing)).1.1.1.

Definition nan_gradient : ndarray :=
  Eval vm_compute in
    (out (@Focal.rollout sim oracles nan_solver 0 1 2 world0)
         (nothing, Float64.zero, Float64.zero, nothing)).2.

Definition nan_world : @World sim :=
  Eval vm_compute in (@Focal.rollout sim oracles nan_solver 0 1 2 world0).2.

Definition plain_decoded : ndarray :=
  Eval vm_compute in
    (out (@Focal.rollout sim oracles plain_solver 0 1 2 world0)
         (nothing, Float64.zero, Float64.zero, nothing)).1.1.1.

Definition plain_gradient : ndarray :=
  Eval vm_compute in
    (out (@Focal.rollout sim oracles plain_solver 0 1 2 world0)
         (nothing, Float64.zero, Float64.zero, nothing)).2.

Definition plain_world : @World sim :=
  Eval vm_compute in (@Focal.rollout sim oracles plain_solver 0 1 2 world0).2.

Definition unit_gradient : ndarray :=
  mk_ndarray [2; 1]%nat [Float64.neg_one; Float64.one].

Definition solved_small : @TrajOpt.World sim (libs small_actions) :=
  Eval vm_compute in
    (@TrajOpt.solve sim (libs small_actions) (config small_actions 2)
       (Some small_actions) [] (traj0 small_actions)).2.

Definition solved_huge : @TrajOpt.World sim (libs huge_actions) :=
  Eval vm_compute in
    (@TrajOpt.solve sim (libs huge_actions) (config huge_actions 1)
       (Some huge_actions) [] (traj0 huge_actions)).2.

Definition archived_small : @TrajOpt.World sim (libs small_actions) :=
  Eval vm_compute in
    (@TrajOpt.forward_nograd sim (libs small_actions) (config small_actions 2)
       [] small_actions (traj0 small_actions)).2.

Definition averaged_focal : @Loop (runtime true) :=
  Eval vm_compute in
    (@FocalLoop.run_epoch (runtime true) 0 (loop0 true 1 false 1)).2.

Definition averaged_plain : @Loop (runtime true) :=
  Eval vm_compute in
    (@LearnLatentLoop.run_epoch (runtime true) 0 (loop0 true 2 true 1)).2.

(** A solver configured for one step, and what [exec_multistep] gives
    with it on [world0], where there are two targets. *)
Definition one_step_solver : Solver :=
  mk_Solver (fun x => x) Float64.one Float64.one (Some 1%Z).

Definition stepped_once : (float * float) * @World sim :=
  Eval vm_compute in
    (out (@Focal.exec_multistep sim oracles one_step_solver 0 1 2 world0)
         (Float64.zero, Float64.zero),
     (@Focal.exec_multistep sim oracles one_step_solver 0 1 2 world0).2).

End Example.

(** * The claims that fail on the code, as the specification words them *)

(** C1 as worded: the batches of an epoch [i] with [i mod 5 = 0] are run in
    gradient mode (so no [exec_multistep] call belongs to such an epoch) and
    those of an epoch with [i mod 5 = 4] in evaluation mode (so no
    [solve_multistep] call belongs to such an epoch). *)
Definition schedule_as_worded (e : event) : Prop :=
  match e with
  | EvExec i _ _ => (i mod 5 <> 0)%nat
  | EvSolve i _ _ _ => (i mod 5 <> 4)%nat
  | EvResample _ => True
  end.

(** C4 as worded, for the epoch whose events are [evs]: the accumulator and
    the count are those of the batches that produced a usable pair. *)
Definition average_as_worded `{Runtime} (i : nat) (evs : list event) (w' : Loop)
  : Prop :=
  efficientBatchCnt w' = length (usable_pair_losses evs) /\
  procAvgLoss w' !! i = Some (mean (usable_pair_losses evs)).

(** C5 as worded, for a [solve] that has run at least one iteration: the
    returned action sequence is one of the evaluated ones, and no evaluated
    loss is below its loss. *)
Definition returned_as_worded `{TaichiEnv} `{TrajLibs}
    (r : option ndarray) (w' : TrajOpt.World) : Prop :=
  exists a l,
    r = Some a /\ (a, l) ∈ TrajOpt.evals w' /\
    forall a' l', (a', l') ∈ TrajOpt.evals w' -> Float64.ltb l' l = false.


(** * Runs of a loop over epochs *)

(** The [k] epochs from epoch [a] on have run to their ends, one after the
    other, from the world [w] to the world [w'], and [P i v v'] holds of
    every epoch [i] of them, [v] being the world at its start and [v'] the
    world at its end. *)
Fixpoint epochs_run {W} (run : nat -> Prog W unit) (P : nat -> W -> W -> Prop)
    (a k : nat) (w w' : W) : Prop :=
  match k with
  | O => w' = w
  | S k =>
      exists w1,
        run a w = (Ok tt, w1) /\ P a w w1 /\ epochs_run run P (S a) k w1 w'
  end.

(** The outcome [p] of [for i in range(n): run(i)] started in [w0]: the
    epochs before the first one that raises have run to their ends, with
    [P]; when no epoch raises these are all [n] epochs. *)
Definition loop_outcome {W} (run : nat -> Prog W unit) (P : nat -> W -> W -> Prop)
    (n : nat) (w0 : W) (p : res unit * W) : Prop :=
  exists j wj,
    epochs_run run P 0 j w0 wj /\
    match p.1 with
    | Ok _ => j = n /\ wj = p.2
    | Raise e => (j < n)%nat /\ run j wj = (Raise e, p.2)
    end.

Section EpochVocabulary.
Context `{Runtime}.

(** Epoch [i] of the focal loop, from [w] to [w'], as the schedule has it:
    every batch of the dataloader has been processed, through
    [exec_multistep] when [i mod 5 = 0] and through [solve_multistep]
    otherwise; after the batches of an epoch with [i mod 5 = 0] the
    dataloader is the one [_update_focal_scheme] has built; and the mode
    for the next epoch is set. *)
Definition epoch_on_schedule (i : nat) (w w' : Loop) : Prop :=
  exists evs s0,
    length evs = length (dataloader w) /\
    Forall (epoch_event i (negb (evaluation_epoch i))) evs /\
    use_grad w' = negb (evaluation_epoch (S i)) /\
    if evaluation_epoch i then
      trace w' = trace w ++ evs ++ [EvResample i] /\
      FocalLoop._update_focal_scheme 1000 s0 = (Ok (dataloader w'), sys w')
    else
      trace w' = trace w ++ evs /\ dataloader w' = dataloader w.

(** Epoch [i] of the focal loop, from [w] to [w']: the accumulator holds
    the mean of the counted losses and the counter their number. *)
Definition focal_epoch_average (i : nat) (w w' : Loop) : Prop :=
  exists evs,
    trace w' = trace w ++ evs ++
               (if (i mod 5 =? 0)%nat then [EvResample i] else []) /\
    length evs = length (dataloader w) /\
    Forall (epoch_event i (use_grad w)) evs /\
    (use_grad w = true -> counted_losses evs = usable_pair_losses evs) /\
    counted_losses evs <> [] /\
    efficientBatchCnt w' = length (counted_losses evs) /\
    procAvgLoss w' !! i = Some (mean (counted_losses evs)).

(** The same for an epoch of the [learn_latent] loop. *)
Definition learn_latent_epoch_average (i : nat) (w w' : Loop) : Prop :=
  exists evs,
    trace w' = trace w ++ evs /\
    length evs = length (dataloader w) /\
    Forall (epoch_event i true) evs /\
    usable_pair_losses evs <> [] /\
    efficientBatchCnt w' = length (usable_pair_losses evs) /\
    procAvgLoss w' !! i = Some (mean (usable_pair_losses evs)).

End EpochVocabulary.

(** Reading a rollout off the simulator. *)
Section RolloutVocabulary.
Context `{TaichiEnv} `{Oracles}.

(** The simulator after the rollout steps with the given targets and
    actions, in order: per step [set_target], [step], [compute_loss]. *)
Definition rollout_env (self : Solver) (pairs : list (ndarray * ndarray)) (e : Env)
  : Env :=
  foldl (fun e p =>
           env_compute_loss false (decay_factor self)
             (env_step p.2 (env_set_target p.1 e)))
        e pairs.

(** [pairs] are [targets[i]] and [actions[i]] for [i = 0, 1, ...]. *)
Definition steps_read (targets actions : loc) (pairs : list (ndarray * ndarray))
    (w : World) : Prop :=
  forall i p, pairs !! i = Some p ->
    getitem targets i w = (Ok p.1, w) /\ getitem actions i w = (Ok p.2, w).

(** Between [w] and [w'] the simulator was set to a state and then ran
    exactly [k] rollout steps, on the first [k] targets and actions. *)
Definition executed_steps (self : Solver) (targets actions : loc) (k : nat)
    (w w' : World) : Prop :=
  exists st pairs,
    length pairs = k /\ steps_read targets actions pairs w' /\
    env w' = rollout_env self pairs (env_set_state st (softness self) false (env w)).

(** The same under the gradient tape, followed by [set_grad]. *)
Definition recorded_steps (self : Solver) (targets actions : loc) (k : nat)
    (w w' : World) : Prop :=
  exists st pairs,
    length pairs = k /\ steps_read targets actions pairs w' /\
    env w' =
      tape_exit
        (env_set_grad
           (rollout_env self pairs
              (tape_enter (env_set_state st (softness self) false (env w))))).

End RolloutVocabulary.

(** * More of the three modules *)

(** ** [learn_latent.py]: helpers around the training loop *)

(** Dropping the dimensions of size 1; the elements stay. *)
Definition nd_squeeze (a : ndarray) : ndarray :=
  mk_ndarray (filter (fun d => d <> 1%nat) (shape a)) (data a).

(** A Torch tensor as the dataloader yields it, on the CPU and without
    gradient: [t.numpy()] is its array.  A NumPy array is not a tensor and
    has no [numpy] method. *)
Record Tensor : Type := mk_Tensor { numpy : ndarray }.

(** [t.squeeze()] *)
Definition squeeze (t : Tensor) : Tensor := mk_Tensor (nd_squeeze (numpy t)).

(** [xs[i]] for a Python list given by its elements. *)
Definition item {W A} (xs : list A) (i : nat) : Prog W A :=
  match xs !! i with
  | Some x => mret x
  | None => raise IndexError
  end.

(** [squeeze_batch(state)], lines 188-192: from tensors to arrays. *)
Definition squeeze_batch {W} (state : list Tensor) : Prog W (list ndarray) :=
  s0 ← item state 0;
  s1 ← item state 1;
  s2 ← item state 2;
  s3 ← item state 3;
  s4 ← item state 4;
  mret [numpy (squeeze s0); numpy (squeeze s1); numpy (squeeze s2);
        numpy (squeeze s3); numpy (squeeze s4)].

(** The dataset classes of [plb.neurals.pcdataloader]. *)
Inductive dataset_class : Type :=
| ChopSticksDataset
| RopeDataset
| WriterDataset
| TorusDataset.

Section Loading.
Context `{Runtime}.

(** Building a dataset reads it into memory. *)
Variable new_dataset : dataset_class -> Sys -> Subset * Sys.

(** [_loading_dataset(env_name)] of [learn_latent.py], lines 127-142.  When
    no branch is taken the name [dataset] has no value at line 141. *)
Definition _loading_dataset (env_name : string) : Prog Sys (list Batch) :=
  dataset ←
    (if String.prefix "Chopsticks" env_name then lift (new_dataset ChopSticksDataset)
     else if String.prefix "Rope" env_name then lift (new_dataset RopeDataset)
     else if String.prefix "Writer" env_name then lift (new_dataset WriterDataset)
     else if String.prefix "Torus" env_name then lift (new_dataset TorusDataset)
     else raise UnboundLocalError);
  n ← lift mpi_num_procs;
  mret (make_DataLoader dataset n).

End Loading.

(** ** [solver.py]: the command-line entry point *)

(** [a // b] on integers *)
Definition floordiv {W} (a b : Z) : Prog W Z :=
  if (b =? 0)%Z then raise ZeroDivisionError else mret (a / b)%Z.

Module Driver.
Section SolveAction.
Context `{TaichiEnv} `{TrajLibs}.

(** [env.reset()] as it acts on the simulator, and [cfg.optim] of the
    default configuration with [optim.lr] set. *)
Variable gym_reset : Env -> Env.
Variable optim_with_lr : float -> OptimCfg.

(** The file system, and [os.makedirs(p, exist_ok=True)] on it: [None]
    when the call raises an [OSError] (an empty path, a file in the way,
    no permission). *)
Variable FileSystem : Type.
Variable os_makedirs : string -> FileSystem -> option FileSystem.

(** The fields of [args] that [solve_action] reads. *)
Record Args : Type := mk_Args {
  exp_name : string;
  num_steps : Z;
  softness : float;
  lr : float;
  optim : string
}.

(** The solver's world, the file system and the lines written by
    [solve_action] itself. *)
Record Session : Type := mk_Session {
  solver : TrajOpt.World;
  files : FileSystem;
  stdout : list string
}.

Definition in_solver {A} (m : Prog TrajOpt.World A) : Prog Session A :=
  fun s => let '(r, w) := m (solver s) in (r, mk_Session w (files s) (stdout s)).

(** [os.makedirs(p, exist_ok=True)] *)
Definition makedirs (p : string) : Prog Session unit :=
  fun s =>
    match os_makedirs p (files s) with
    | Some fs => (Ok tt, mk_Session (solver s) fs (stdout s))
    | None => (Raise OSError, s)
    end.

(** [print(line)] *)
Definition write_line (line : string) : Prog Session unit :=
  modify (fun s => mk_Session (solver s) (files s) (stdout s ++ [line])).

(** [_make_necessary_dirs(path, exp_name)] *)
Definition _make_necessary_dirs (path exp_name : string) : Prog Session unit :=
  makedirs path;;
  makedirs "raw_data";;
  makedirs ("raw_data/" +:+ exp_name);;
  makedirs ("raw_data/" +:+ exp_name +:+ "/state").

(** [0.0001] *)
Definition init_range : float :=
  Eval vm_compute in Float64.div (Float64.of_Z 1) (Float64.of_Z 10000).

(** [solve_action(env, path, logger, args)]; [T] is
    [env._max_episode_steps], a number of steps.  The configuration is the
    default one ([init_sampler = 'uniform']) with the keyword arguments of
    lines 120-122 written over it; [solve] is called without initial
    actions and without callbacks. *)
Definition solve_action (path : string) (T : nat) (args : Args)
  : Prog Session unit :=
  _make_necessary_dirs path (exp_name args);;
  in_solver (modify (TrajOpt.set_env gym_reset));;
  n_iters ← floordiv (num_steps args + Z.of_nat T - 1) (Z.of_nat T);
  let cfg :=
    TrajOpt.mk_Config (optim args) (optim_with_lr (lr args)) n_iters
      (softness args) T init_range "uniform" in
  action ← in_solver (TrajOpt.solve cfg None []);
  write_line "Done".

End SolveAction.

Arguments mk_Session {_ _ FileSystem} solver files stdout.
Arguments solver {_ _ FileSystem} s.
Arguments files {_ _ FileSystem} s.
Arguments stdout {_ _ FileSystem} s.
Arguments in_solver {_ _ FileSystem A} m.
Arguments makedirs {_ _ FileSystem} os_makedirs p.
Arguments write_line {_ _ FileSystem} line.
Arguments _make_necessary_dirs {_ _ FileSystem} os_makedirs path exp_name.
Arguments solve_action {_ _} gym_reset optim_with_lr {FileSystem} os_makedirs path T args.

End Driver.

(** * More vocabulary *)

(** The arrays [vs] are the values of the objects [ls] in the heap [h]. *)
Definition arrays_at (h : gmap loc obj) (ls : list loc) (vs : list ndarray) : Prop :=
  Forall2 (fun l a => h !! l = Some (NdArray a)) ls vs.

(** The memo of a deep copy in progress: every array met so far has a copy
    with the same value. *)
Definition memo_ok (memo : gmap loc loc) (h : gmap loc obj) : Prop :=
  forall l l', memo !! l = Some l' ->
    exists a, h !! l = Some (NdArray a) /\ h !! l' = Some (NdArray a).

(** What [exec_multistep] makes of the outcome of its rollout: the loss
    with [loss_first] before it. *)
Definition with_loss_first {A W} (lf : float) (p : res A * W) : res (float * A) * W :=
  match p with
  | (Ok a, w) => (Ok (lf, a), w)
  | (Raise e, w) => (Raise e, w)
  end.

(** What [solve_multistep] makes of the outcome of its gradient rollout,
    before the NaN gate. *)
Definition with_decoded {A W} (f : float -> ndarray -> A)
    (p : res (float * (ndarray * ndarray)) * W) : res A * W :=
  match p with
  | (Ok (loss, (g, _)), w) => (Ok (f loss g), w)
  | (Raise e, w) => (Raise e, w)
  end.

(** The epochs in which a trace has the dataloader rebuilt. *)
Definition resample_epoch (e : event) : option nat :=
  match e with
  | EvResample i => Some i
  | _ => None
  end.

Definition resamples (t : list event) : list nat := omap resample_epoch t.

(** A [solve_multistep] call. *)
Definition solve_call (e : event) : Prop :=
  match e with
  | EvSolve _ _ _ _ => True
  | _ => False
  end.

(** What [_loading_dataset] does once the class [c] is chosen. *)
Definition loaded `{Runtime} (new_dataset : dataset_class -> Sys -> Subset * Sys)
    (c : dataset_class) (s : Sys) : res (list Batch) * Sys :=
  let '(d, s1) := new_dataset c s in
  let '(n, s2) := mpi_num_procs s1 in
  (Ok (make_DataLoader d n), s2).

(** What [solve] reports: the lines it prints and the rollouts it has
    evaluated. *)
Definition report_view `{TaichiEnv} `{TrajLibs} (w : TrajOpt.World) :=
  (TrajOpt.printed w, TrajOpt.evals w).

(** The number of rows of an action array. *)
Definition n_rows (a : ndarray) : nat := default 0%nat (Nd.len a).

(** Every simulator step is counted: the steps of the gradient rollouts
    are the rows of the evaluated action arrays, those of the archiving
    passes the buffered actions without the padding rows. *)
Definition steps_accounted `{TaichiEnv} `{TrajLibs} (w : TrajOpt.World) : Prop :=
  (TrajOpt.total_steps w + length (TrajOpt.evals w) =
   sum_list_with (fun p => n_rows p.1) (TrajOpt.evals w)
   + length (TrajOpt.action_buffer w))%nat.

(** * More small systems *)

Module Cases.
Import Example.

(** A heap whose state list is empty. *)
Definition empty_state_world : @World sim :=
  @mk_World sim (<[0%nat:=PyList []]> ∅) ([], Float64.zero) [].

(** [world0] with one more object: an array [5] of one action. *)
Definition short_world : @World sim :=
  @mk_World sim
    (<[5%nat:=NdArray (mk_ndarray [1; 1]%nat [Float64.one])]> heap0)
    ([], Float64.zero) [].

Definition still : ndarray := mk_ndarray [2; 1]%nat [Float64.zero; Float64.zero].

Definition executed_world : @World sim :=
  Eval vm_compute in (@Focal.exec_multistep sim oracles plain_solver 0 1 2 world0).2.

(** [solve] without initial actions and without iterations. *)
Definition idle_world : @TrajOpt.World sim (libs small_actions) :=
  Eval vm_compute in
    (@TrajOpt.solve sim (libs small_actions) (config small_actions 0) None []
       (traj0 small_actions)).2.

(** A configuration with an unknown sampler and an unknown optimizer. *)
Definition bad_config : @TrajOpt.Config (libs small_actions) :=
  @TrajOpt.mk_Config (libs small_actions) "SGD" tt 2 Float64.one 2 Float64.zero
    "normal".

Definition trained_focal : @Loop (runtime true) :=
  Eval vm_compute in
    (@FocalLoop.training_loop (runtime true) 5 (set_trace [] (loop0 true 1 false 0))).2.

Definition finished_focal : @Loop (runtime true) :=
  Eval vm_compute in
    (@FocalLoop.learn_latent_focal (runtime true) (set_trace [] (loop0 true 1 false 0))).2.

Definition trained_plain : @Loop (runtime true) :=
  Eval vm_compute in
    (@LearnLatentLoop.training_loop (runtime true) 5 (loop0 true 2 true 0)).2.

(** Six frames, some with dimensions of size 1. *)
Definition frame (sh : list nat) : ndarray := mk_ndarray sh [five; minus_seven].

Definition six_frames : list Tensor :=
  map mk_Tensor
    [frame [1; 2]; frame [2; 1]; frame [2]; frame [1; 2; 1]; frame [2; 1; 1];
     frame [2]]%nat.

Definition args : Driver.Args := Driver.mk_Args "demo" 3 Float64.one Float64.one "Adam".

(** A file system that is the list of its directories, where every
    directory but the one with the empty name can be made. *)
Definition mkdir (p : string) (fs : list string) : option (list string) :=
  if String.eqb p "" then None else Some (fs ++ [p]).

Definition session0 : @Driver.Session sim (libs small_actions) (list string) :=
  @Driver.mk_Session sim (libs small_actions) (list string) (traj0 small_actions) [] [].

Definition session1 : @Driver.Session sim (libs small_actions) (list string) :=
  Eval vm_compute in
    (@Driver.solve_action sim (libs small_actions) (fun e => e) (fun _ => tt)
       (list string) mkdir "out" 2 args session0).2.


End Cases.

(** * Properties *)

(** ** Reasoning about programs *)

Lemma bind_unfold {W A B} (m : Prog W A) (k : A -> Prog W B) (w : W) :
  (m ≫= k) w =
  match m w with
  | (Ok a, w') => k a w'
  | (Raise e, w') => (Raise e, w')
  end.
Proof. reflexivity. Qed.

Lemma bind_ok_inv {W A B} (m : Prog W A) (k : A -> Prog W B) w b w' :
  (m ≫= k) w = (Ok b, w') ->
  exists a w1, m w = (Ok a, w1) /\ k a w1 = (Ok b, w').
Proof.
  rewrite bind_unfold. destruct (m w) as [[a|e] w1]; intros Hk.
  - exists a, w1. split; [reflexivity | exact Hk].
  - discriminate Hk.
Qed.

Lemma bind_ok {W A B} (m : Prog W A) (k : A -> Prog W B) w a w1 :
  m w = (Ok a, w1) -> (m ≫= k) w = k a w1.
Proof. intros Hm. rewrite bind_unfold, Hm. reflexivity. Qed.

Lemma bind_raise {W A B} (m : Prog W A) (k : A -> Prog W B) w e w1 :
  m w = (Raise e, w1) -> (m ≫= k) w = (Raise e, w1).
Proof. intros Hm. rewrite bind_unfold, Hm. reflexivity. Qed.

Lemma post_bind {W A B} (P : W -> Prop) (m : Prog W A) (k : A -> Prog W B)
    (Q : A -> W -> Prop) (R : B -> W -> Prop) (E : W -> Prop) :
  post P m Q E -> (forall a, post (Q a) (k a) R E) -> post P (m ≫= k) R E.
Proof.
  intros Hm Hk w Hw. rewrite bind_unfold. specialize (Hm w Hw).
  destruct (m w) as [[a|e] w1]; [apply (Hk a w1 Hm) | exact Hm].
Qed.

Lemma post_ret {W A} (P : W -> Prop) (a : A) (Q : A -> W -> Prop) (E : W -> Prop) :
  (forall w, P w -> Q a w) -> post P (mret a : Prog W A) Q E.
Proof. intros HQ w Hw. apply HQ, Hw. Qed.

Lemma post_raise {W A} (P : W -> Prop) e (Q : A -> W -> Prop) (E : W -> Prop) :
  (forall w, P w -> E w) -> post P (raise e : Prog W A) Q E.
Proof. intros HE w Hw. apply HE, Hw. Qed.

Lemma post_gets {W A} (P : W -> Prop) (f : W -> A) (Q : A -> W -> Prop) (E : W -> Prop) :
  (forall w, P w -> Q (f w) w) -> post P (gets f) Q E.
Proof. intros HQ w Hw. apply HQ, Hw. Qed.

Lemma post_modify {W} (P : W -> Prop) (f : W -> W) (Q : unit -> W -> Prop) (E : W -> Prop) :
  (forall w, P w -> Q tt (f w)) -> post P (modify f) Q E.
Proof. intros HQ w Hw. apply HQ, Hw. Qed.

Lemma post_weaken {W A} (P P' : W -> Prop) (m : Prog W A)
    (Q Q' : A -> W -> Prop) (E E' : W -> Prop) :
  post P' m Q' E' ->
  (forall w, P w -> P' w) -> (forall a w, Q' a w -> Q a w) -> (forall w, E' w -> E w) ->
  post P m Q E.
Proof.
  intros Hm HP HQ HE w Hw. specialize (Hm w (HP w Hw)).
  destruct (m w) as [[a|e] w1]; auto.
Qed.

(** A loop keeps what every pass keeps. *)
Lemma post_for_each {W A} (I : W -> Prop) (l : list A) (body : A -> Prog W unit) :
  (forall x, x ∈ l -> post I (body x) (fun _ => I) I) ->
  post I (for_each l body) (fun _ => I) I.
Proof.
  induction l as [|x l IH]; intros Hbody.
  - intros w Hw. exact Hw.
  - cbn [for_each]. eapply post_bind.
    + apply Hbody. left.
    + intros u. apply IH. intros y Hy. apply Hbody. right. exact Hy.
Qed.

Lemma for_each_app {W A} (l1 l2 : list A) (body : A -> Prog W unit) (w : W) :
  for_each (l1 ++ l2) body w = (for_each l1 body;; for_each l2 body) w.
Proof.
  revert w. induction l1 as [|x l1 IH]; intros w.
  - reflexivity.
  - cbn [for_each app]. rewrite !bind_unfold.
    destruct (body x w) as [[[]|e] w1]; [|reflexivity].
    rewrite IH. reflexivity.
Qed.

(** A loop over epochs, one epoch after the other: the epochs before the
    first one that raises keep [Inv] and have [P]. *)
Lemma epochs_run_outcome {W} (run : nat -> Prog W unit)
    (Inv : nat -> W -> Prop) (P : nat -> W -> W -> Prop) (n : nat) :
  (forall a w w1, (a < n)%nat -> Inv a w -> run a w = (Ok tt, w1) ->
                  P a w w1 /\ Inv (S a) w1) ->
  forall k a w, (a + k <= n)%nat -> Inv a w ->
    exists j wj,
      epochs_run run P a j w wj /\
      match (for_each (seq a k) run w).1 with
      | Ok _ => j = k /\ wj = (for_each (seq a k) run w).2
      | Raise e =>
          (j < k)%nat /\ run (a + j) wj = (Raise e, (for_each (seq a k) run w).2)
      end.
Proof.
  intros Hstep. induction k as [|k IH]; intros a w Hk Hinv; cbn [seq for_each].
  - exists 0%nat, w. cbn. auto.
  - rewrite bind_unfold. destruct (run a w) as [[[]|e] w1] eqn:Hrun.
    + destruct (Hstep a w w1 ltac:(lia) Hinv Hrun) as [HP Hinv1].
      destruct (IH (S a) w1 ltac:(lia) Hinv1) as (j & wj & Hruns & Hout).
      exists (S j), wj. split; [cbn; eauto|].
      destruct (for_each (seq (S a) k) run w1) as [[[]|e] w2]; cbn [fst snd] in *.
      * destruct Hout as [-> ->]. auto.
      * destruct Hout as [Hj Hraise]. split; [lia|].
        rewrite Nat.add_succ_r. exact Hraise.
    + exists 0%nat, w. cbn. split; [reflexivity|]. split; [lia|].
      rewrite Nat.add_0_r. exact Hrun.
Qed.

Lemma loop_outcome_for_range {W} (run : nat -> Prog W unit)
    (Inv : nat -> W -> Prop) (P : nat -> W -> W -> Prop) (n : nat) (w : W) :
  (forall a w w1, (a < n)%nat -> Inv a w -> run a w = (Ok tt, w1) ->
                  P a w w1 /\ Inv (S a) w1) ->
  Inv 0%nat w ->
  loop_outcome run P n w (for_range n run w).
Proof.
  intros Hstep Hinv. unfold loop_outcome, for_range.
  destruct (epochs_run_outcome run Inv P n Hstep n 0%nat w ltac:(lia) Hinv)
    as (j & wj & Hruns & Hout).
  exists j, wj. split; [exact Hruns | exact Hout].
Qed.


Ltac inv_bind H :=
  repeat match type of H with
         | (_ ≫= _) _ = (Ok _, _) =>
             let a := fresh "a" in
             let w := fresh "w" in
             let Ha := fresh "Hrun" in
             apply bind_ok_inv in H; destruct H as (a & w & Ha & H)
         end.

(** ** The order of binary64 numbers *)

Ltac sf_destruct :=
  repeat match goal with
         | x : spec_float |- _ => destruct x as [[]|[]| |[] ? ?]
         end.

Ltac sf_compare :=
  unfold Float64.ltb, Float64.leb, Float64.is_nan, SFltb, SFleb, SFcompare in *;
  repeat match goal with
         | |- context [Z.compare ?a ?b] => destruct (Z.compare_spec a b)
         | H : context [Z.compare ?a ?b] |- _ => destruct (Z.compare_spec a b)
         | |- context [Pos.compare_cont Eq ?a ?b] =>
             change (Pos.compare_cont Eq a b) with (Pos.compare a b);
             destruct (Pos.compare_spec a b)
         | H : context [Pos.compare_cont Eq ?a ?b] |- _ =>
             change (Pos.compare_cont Eq a b) with (Pos.compare a b) in H;
             destruct (Pos.compare_spec a b)
         end;
  cbn in *; try congruence; try lia.

Lemma ltb_trans x y z :
  Float64.ltb x y = true -> Float64.ltb y z = true -> Float64.ltb x z = true.
Proof. sf_destruct; sf_compare. Qed.

Lemma ltb_leb_trans x y z :
  Float64.ltb x y = true -> Float64.leb y z = true -> Float64.ltb x z = true.
Proof. sf_destruct; sf_compare. Qed.

Lemma leb_ltb_trans x y z :
  Float64.leb x y = true -> Float64.ltb y z = true -> Float64.ltb x z = true.
Proof. sf_destruct; sf_compare. Qed.

Lemma ltb_irrefl x : Float64.ltb x x = false.
Proof. sf_destruct; sf_compare. Qed.

Lemma ltb_leb x y : Float64.ltb x y = true -> Float64.leb x y = true.
Proof. sf_destruct; sf_compare. Qed.

Lemma leb_refl x : Float64.is_nan x = false -> Float64.leb x x = true.
Proof. sf_destruct; sf_compare. Qed.

Lemma ltb_not_nan_l x y : Float64.ltb x y = true -> Float64.is_nan x = false.
Proof. sf_destruct; sf_compare. Qed.

Lemma ltb_false_leb x y :
  Float64.is_nan x = false -> Float64.is_nan y = false ->
  Float64.ltb x y = false -> Float64.leb y x = true.
Proof. sf_destruct; sf_compare. Qed.

(** Clamping keeps NaN and nothing else as NaN. *)
Lemma clamp_is_nan lo hi x :
  Float64.is_nan lo = false -> Float64.is_nan hi = false ->
  Float64.is_nan (Float64.clamp lo hi x) = Float64.is_nan x.
Proof.
  intros Hlo Hhi. unfold Float64.clamp.
  destruct (Float64.is_nan x) eqn:Hx; [exact Hx|].
  destruct (Float64.ltb x lo), (Float64.ltb hi _); assumption.
Qed.

(** A clamped number that is not NaN lies between the bounds. *)
Lemma clamp_between x :
  Float64.is_nan (Float64.clamp Float64.neg_one Float64.one x) = false ->
  Float64.leb Float64.neg_one (Float64.clamp Float64.neg_one Float64.one x) = true /\
  Float64.leb (Float64.clamp Float64.neg_one Float64.one x) Float64.one = true.
Proof.
  intros Hc.
  assert (Hx : Float64.is_nan x = false).
  { rewrite clamp_is_nan in Hc; [exact Hc | reflexivity | reflexivity]. }
  unfold Float64.clamp in *. rewrite Hx in *.
  destruct (Float64.ltb x Float64.neg_one) eqn:Hlo.
  - split; reflexivity.
  - destruct (Float64.ltb Float64.one x) eqn:Hhi.
    + split; reflexivity.
    + split; apply ltb_false_leb; first [exact Hx | reflexivity | assumption].
Qed.

Lemma any_nan_false (a : ndarray) :
  Nd.any_nan a = false <-> forall x, x ∈ data a -> Float64.is_nan x = false.
Proof.
  unfold Nd.any_nan. split.
  - intros Hn x Hx. apply list_elem_of_In in Hx.
    destruct (Float64.is_nan x) eqn:E; [|reflexivity].
    rewrite <- Hn. symmetry. apply existsb_exists. exists x. split; assumption.
  - intros Hall. destruct (existsb Float64.is_nan (data a)) eqn:E; [|reflexivity].
    apply existsb_exists in E. destruct E as (x & Hin & Hx).
    rewrite (Hall x) in Hx; [discriminate | apply list_elem_of_In; exact Hin].
Qed.

Lemma any_nan_true (a : ndarray) :
  Nd.any_nan a = true <-> exists x, x ∈ data a /\ Float64.is_nan x = true.
Proof.
  unfold Nd.any_nan. rewrite existsb_exists. split; intros (x & Hin & Hx);
    exists x; (split; [apply list_elem_of_In; exact Hin | exact Hx]).
Qed.

(** ** The NaN gate of [solve_multistep] (C2, C8, C9) *)

Section GateFacts.
Context `{TaichiEnv} `{Oracles}.

(** What a returning [Focal.solve_multistep] has done. *)
Lemma focal_solve_inv self state actions targets w r w' :
  Focal.solve_multistep self state actions targets w = (Ok r, w') ->
  exists x_hat lf loss g w1,
    Focal.rollout self state actions targets w = (Ok (x_hat, lf, loss, g), w1) /\
    let gc := Nd.clamp Float64.neg_one Float64.one g in
    (Nd.any_nan gc = false /\ r = (Some x_hat, Some gc, lf, loss) /\ w' = w1) \/
    (Nd.any_nan gc = true /\ r = (None, None, lf, loss) /\ w' = say "NAN Detected" w1).
Proof.
  unfold Focal.solve_multistep. intros Hs.
  apply bind_ok_inv in Hs. destruct Hs as ([[[x_hat lf] loss] g] & w1 & Hr & Hs).
  exists x_hat, lf, loss, g, w1. split; [exact Hr|]. cbn zeta.
  destruct (Nd.any_nan (Nd.clamp Float64.neg_one Float64.one g)) eqn:Hn;
    cbn [negb] in Hs.
  - right. inversion Hs. auto.
  - left. inversion Hs. auto.
Qed.

Lemma learn_latent_solve_inv self state actions targets w r w' :
  LearnLatent.solve_multistep self state actions targets w = (Ok r, w') ->
  exists x_hat loss g w1,
    LearnLatent.rollout self state actions targets w = (Ok (x_hat, loss, g), w1) /\
    let gc := Nd.clamp Float64.neg_one Float64.one g in
    (Nd.any_nan gc = false /\ r = (Some x_hat, Some gc, 0%Z, loss) /\ w' = w1) \/
    (Nd.any_nan gc = true /\ r = (None, None, 0%Z, loss) /\ w' = say "NAN Detected" w1).
Proof.
  unfold LearnLatent.solve_multistep. intros Hs.
  apply bind_ok_inv in Hs. destruct Hs as ([[x_hat loss] g] & w1 & Hr & Hs).
  exists x_hat, loss, g, w1. split; [exact Hr|]. cbn zeta.
  destruct (Nd.any_nan (Nd.clamp Float64.neg_one Float64.one g)) eqn:Hn;
    cbn [negb] in Hs.
  - right. inversion Hs. auto.
  - left. inversion Hs. auto.
Qed.

(** C2.  Once lines 99-106 have produced the decoded cloud, the losses and
    the state gradient: if an element of the clamped gradient is NaN,
    [solve_multistep] returns [(None, None, loss_first, loss)] after the
    message "NAN Detected" and raises nothing; if no element is NaN it
    returns the decoded cloud and the clamped gradient, both not [None],
    with [loss_first] and [loss].  Both variants. *)
Theorem solve_multistep_nan_gate self state actions targets w :
  (forall x_hat lf loss g w1,
      Focal.rollout self state actions targets w = (Ok (x_hat, lf, loss, g), w1) ->
      let gc := Nd.clamp Float64.neg_one Float64.one g in
      ((exists x, x ∈ data gc /\ Float64.is_nan x = true) ->
       Focal.solve_multistep self state actions targets w =
         (Ok (None, None, lf, loss), say "NAN Detected" w1)) /\
      ((forall x, x ∈ data gc -> Float64.is_nan x = false) ->
       Focal.solve_multistep self state actions targets w =
         (Ok (Some x_hat, Some gc, lf, loss), w1))) /\
  (forall x_hat loss g w1,
      LearnLatent.rollout self state actions targets w = (Ok (x_hat, loss, g), w1) ->
      let gc := Nd.clamp Float64.neg_one Float64.one g in
      ((exists x, x ∈ data gc /\ Float64.is_nan x = true) ->
       LearnLatent.solve_multistep self state actions targets w =
         (Ok (None, None, 0%Z, loss), say "NAN Detected" w1)) /\
      ((forall x, x ∈ data gc -> Float64.is_nan x = false) ->
       LearnLatent.solve_multistep self state actions targets w =
         (Ok (Some x_hat, Some gc, 0%Z, loss), w1))).
Proof.
  split.
  - intros x_hat lf loss g w1 Hr gc. split; intros Hg.
    + apply any_nan_true in Hg. unfold Focal.solve_multistep.
      rewrite (bind_ok _ _ _ _ _ Hr). cbn zeta. fold gc. rewrite Hg. reflexivity.
    + apply any_nan_false in Hg. unfold Focal.solve_multistep.
      rewrite (bind_ok _ _ _ _ _ Hr). cbn zeta. fold gc. rewrite Hg. reflexivity.
  - intros x_hat loss g w1 Hr gc. split; intros Hg.
    + apply any_nan_true in Hg. unfold LearnLatent.solve_multistep.
      rewrite (bind_ok _ _ _ _ _ Hr). cbn zeta. fold gc. rewrite Hg. reflexivity.
    + apply any_nan_false in Hg. unfold LearnLatent.solve_multistep.
      rewrite (bind_ok _ _ _ _ _ Hr). cbn zeta. fold gc. rewrite Hg. reflexivity.
Qed.

(** C8.  A gradient that [solve_multistep] returns (not [None]) has all
    its elements in the closed interval from -1 to 1.  Both variants. *)
Theorem returned_gradient_in_unit_interval self state actions targets w :
  (forall st g lf loss w',
      Focal.solve_multistep self state actions targets w
        = (Ok (st, Some g, lf, loss), w') ->
      forall x, x ∈ data g ->
        Float64.leb Float64.neg_one x = true /\ Float64.leb x Float64.one = true) /\
  (forall st g lf loss w',
      LearnLatent.solve_multistep self state actions targets w
        = (Ok (st, Some g, lf, loss), w') ->
      forall x, x ∈ data g ->
        Float64.leb Float64.neg_one x = true /\ Float64.leb x Float64.one = true).
Proof.
  assert (Hclamped : forall raw x,
             Nd.any_nan (Nd.clamp Float64.neg_one Float64.one raw) = false ->
             x ∈ data (Nd.clamp Float64.neg_one Float64.one raw) ->
             Float64.leb Float64.neg_one x = true /\ Float64.leb x Float64.one = true).
  { intros raw x Hn Hx. pose proof (proj1 (any_nan_false _) Hn x Hx) as Hnx.
    cbn [Nd.clamp Nd.map_elems data] in Hx.
    apply list_elem_of_In, in_map_iff in Hx. destruct Hx as (y & <- & _).
    apply clamp_between. exact Hnx. }
  split; intros st g lf loss w' Hs x Hx.
  - apply focal_solve_inv in Hs.
    destruct Hs as (x_hat & lf' & loss' & raw & w1 & _ & [(Hn & Hr & _)|(_ & Hr & _)]);
      inversion Hr; subst. eapply Hclamped; eassumption.
  - apply learn_latent_solve_inv in Hs.
    destruct Hs as (x_hat & loss' & raw & w1 & _ & [(Hn & Hr & _)|(_ & Hr & _)]);
      inversion Hr; subst. eapply Hclamped; eassumption.
Qed.

End GateFacts.

(** ** The first-frame distance (C9) *)

Section LossFirstFacts.
Context `{TaichiEnv} `{Oracles}.

Lemma load_inv l w o w1 :
  load l w = (Ok o, w1) -> w1 = w /\ heap w !! l = Some o.
Proof.
  unfold load. destruct (heap w !! l) as [o'|]; intros Hl; inversion Hl; auto.
Qed.

Lemma array_of_inv l w a w1 :
  array_of l w = (Ok a, w1) -> w1 = w /\ heap w !! l = Some (NdArray a).
Proof.
  unfold array_of. intros Ha. inv_bind Ha.
  apply load_inv in Hrun. destruct Hrun as [-> Hl].
  destruct a0 as [items|a']; inversion Ha; subst. auto.
Qed.

Lemma list_getitem_inv l i w x w1 :
  list_getitem l i w = (Ok x, w1) ->
  w1 = w /\ exists items, heap w !! l = Some (PyList items) /\ items !! i = Some x.
Proof.
  unfold list_getitem. intros Hg. inv_bind Hg.
  apply load_inv in Hrun. destruct Hrun as [-> Hl].
  destruct a as [items|a']; [|inversion Hg].
  destruct (items !! i) as [y|] eqn:Hi; inversion Hg; subst. eauto.
Qed.

(** C9.  The third component of what [solve_multistep] returns is, in the
    focal variant, the distance that [compute_emd] gives for the true
    first frame and its decoding; in the [learn_latent] variant it is the
    constant 0 for every input. *)
Theorem loss_first_of_the_two_variants self state actions targets w :
  (forall r w',
      Focal.solve_multistep self state actions targets w = (Ok r, w') ->
      exists s0 items x,
        heap w !! state = Some (PyList (s0 :: items)) /\
        heap w !! s0 = Some (NdArray x) /\
        r.1.2 = (compute_emd x (model self (Nd.to_float32 x)) 3000).1) /\
  (forall r w',
      LearnLatent.solve_multistep self state actions targets w = (Ok r, w') ->
      r.1.2 = 0%Z).
Proof.
  split; intros r w' Hs.
  - apply focal_solve_inv in Hs.
    destruct Hs as (x_hat & lf & loss & g & w1 & Hr & Hcase).
    assert (Hlf : r.1.2 = lf).
    { destruct Hcase as [(_ & -> & _)|(_ & -> & _)]; reflexivity. }
    rewrite Hlf. clear Hcase Hlf. unfold Focal.rollout in Hr.
    apply bind_ok_inv in Hr. destruct Hr as (s0 & w2 & Hget & Hr).
    apply list_getitem_inv in Hget. destruct Hget as (-> & items & Hstate & Hi).
    apply bind_ok_inv in Hr. destruct Hr as (x & w2 & Hx & Hr).
    apply array_of_inv in Hx. destruct Hx as (-> & Hs0).
    destruct items as [|s0' items]; [discriminate Hi|].
    cbn in Hi. inversion Hi; subst s0'.
    exists s0, items, x. split; [exact Hstate|]. split; [exact Hs0|].
    cbn zeta in Hr.
    destruct (compute_emd x (model self (Nd.to_float32 x)) 3000) as [d asg].
    inv_bind Hr. destruct a3 as [loss' [g' rest]]. inversion Hr. reflexivity.
  - apply learn_latent_solve_inv in Hs.
    destruct Hs as (x_hat & loss & g & w1 & _ & [(_ & -> & _)|(_ & -> & _)]);
      reflexivity.
Qed.

End LossFirstFacts.

(** ** [exec_multistep] leaves the caller's objects alone (C6) *)

Section FrameFacts.
Context `{TaichiEnv} `{Oracles}.

Lemma silent_keeps {A} h0 (m : Prog World A) :
  heap_silent m -> post (keeps h0) m (fun _ => keeps h0) (keeps h0).
Proof.
  intros Hm w Hw. specialize (Hm w). unfold keeps in *.
  destruct (m w) as [[a|e] w1]; cbn in Hm; rewrite Hm; exact Hw.
Qed.

Lemma silent_bind {A B} (m : Prog World A) (k : A -> Prog World B) :
  heap_silent m -> (forall a, heap_silent (k a)) -> heap_silent (m ≫= k).
Proof.
  intros Hm Hk w. rewrite bind_unfold. specialize (Hm w).
  destruct (m w) as [[a|e] w1]; cbn in *; [rewrite Hk|]; exact Hm.
Qed.

Lemma silent_ret {A} (a : A) : heap_silent (mret a).
Proof. intros w. reflexivity. Qed.

Lemma silent_raise {A} e : heap_silent (raise e : Prog World A).
Proof. intros w. reflexivity. Qed.

Lemma silent_load l : heap_silent (load l).
Proof. intros w. unfold load. destruct (heap w !! l); reflexivity. Qed.

Lemma silent_set_env f : heap_silent (modify (set_env f)).
Proof. intros w. reflexivity. Qed.

Lemma silent_array_of l : heap_silent (array_of l).
Proof.
  apply silent_bind; [apply silent_load|].
  intros [items|a]; [apply silent_raise | apply silent_ret].
Qed.

Lemma silent_getitem l i : heap_silent (getitem l i).
Proof.
  apply silent_bind; [apply silent_load|]. intros [items|a].
  - destruct (items !! i); [apply silent_array_of | apply silent_raise].
  - destruct (Nd.row a i); [apply silent_ret | apply silent_raise].
Qed.

Lemma silent_py_len l : heap_silent (py_len l).
Proof.
  apply silent_bind; [apply silent_load|]. intros [items|a].
  - apply silent_ret.
  - destruct (Nd.len a); [apply silent_ret | apply silent_raise].
Qed.

Lemma silent_mapM {A B} (f : A -> Prog World B) (l : list A) :
  (forall x, heap_silent (f x)) -> heap_silent (mapM f l).
Proof.
  intros Hf. induction l as [|x l IH]; [apply silent_ret|].
  cbn [mapM]. apply silent_bind; [apply Hf|]. intros y.
  apply silent_bind; [exact IH|]. intros k. apply silent_ret.
Qed.

Lemma silent_read_state l : heap_silent (read_state l).
Proof.
  apply silent_bind; [apply silent_load|]. intros [items|a].
  - apply silent_mapM, silent_array_of.
  - apply silent_raise.
Qed.

Lemma silent_for_each {A} (l : list A) (body : A -> Prog World unit) :
  (forall x, heap_silent (body x)) -> heap_silent (for_each l body).
Proof.
  intros Hb. induction l as [|x l IH]; [apply silent_ret|].
  cbn [for_each]. apply silent_bind; [apply Hb | intros _; exact IH].
Qed.

Lemma silent_rollout_step self targets actions i :
  heap_silent (rollout_step self targets actions i).
Proof.
  unfold rollout_step.
  repeat first [ apply silent_getitem | apply silent_set_env
               | apply silent_bind; [|intros ?] ].
Qed.

Lemma silent_forward_nograd self state targets actions :
  heap_silent (forward_nograd self state targets actions).
Proof.
  unfold forward_nograd.
  apply silent_bind; [apply silent_read_state | intros st].
  apply silent_bind; [apply silent_set_env | intros _].
  apply silent_bind; [apply silent_py_len | intros n].
  apply silent_bind; [|intros _].
  - apply silent_for_each. intros i. apply silent_rollout_step.
  - apply silent_bind; [|intros e; apply silent_ret]. intros w. reflexivity.
Qed.

(** A new object does not disturb the old ones, and its name is new. *)
Lemma alloc_keeps h0 o :
  post (keeps h0) (alloc o) (fun l w => keeps h0 w /\ h0 !! l = None) (keeps h0).
Proof.
  intros w Hw. unfold alloc. cbn.
  assert (Hfresh : heap w !! fresh (dom (heap w)) = None).
  { apply not_elem_of_dom, is_fresh. }
  assert (Hnew : h0 !! fresh (dom (heap w)) = None).
  { eapply lookup_weaken_None; eassumption. }
  split; [|exact Hnew]. unfold keeps in *. cbn.
  apply insert_subseteq_r; assumption.
Qed.

(** A store into an object that is not one of the old ones. *)
Lemma list_setitem_keeps h0 l i x :
  h0 !! l = None ->
  post (keeps h0) (list_setitem l i x) (fun _ => keeps h0) (keeps h0).
Proof.
  intros Hl. unfold list_setitem.
  eapply post_bind; [apply silent_keeps, silent_load|].
  intros [items|a]; [|apply post_raise; auto].
  destruct (i <? length items)%nat; [|apply post_raise; auto].
  apply post_modify. intros w Hw. unfold keeps in *. cbn.
  apply insert_subseteq_r; assumption.
Qed.

Lemma deepcopy_items_keeps h0 items : forall memo,
  post (keeps h0) (deepcopy_items memo items) (fun _ => keeps h0) (keeps h0).
Proof.
  induction items as [|l rest IH]; intros memo; cbn [deepcopy_items].
  - apply post_ret. auto.
  - destruct (memo !! l) as [l'|].
    + eapply post_bind; [apply IH|]. intros ls. apply post_ret. auto.
    + eapply post_bind; [apply silent_keeps, silent_array_of|]. intros a.
      eapply post_bind; [apply alloc_keeps|]. intros l'.
      eapply post_bind.
      * eapply post_weaken; [apply (IH (<[l:=l']> memo))| | |]; cbn.
        -- intros w [Hk _]. exact Hk.
        -- intros ls w Hk. exact Hk.
        -- auto.
      * intros ls. apply post_ret. auto.
Qed.

Lemma deepcopy_keeps h0 l :
  post (keeps h0) (deepcopy l) (fun l' w => keeps h0 w /\ h0 !! l' = None) (keeps h0).
Proof.
  unfold deepcopy.
  eapply post_bind; [apply silent_keeps, silent_load|]. intros [items|a].
  - eapply post_bind; [apply deepcopy_items_keeps|]. intros items'.
    apply alloc_keeps.
  - apply alloc_keeps.
Qed.

(** C6.  For every solver, every three arguments and every heap,
    [exec_multistep] leaves every object of the caller's heap as it was:
    the final heap extends the initial one, whether the call returns or
    raises.  In particular the [state] list, its arrays, [actions] and
    [targets] hold the values they held before the call. *)
Theorem exec_multistep_keeps_the_heap self state actions targets (w : World) :
  heap w ⊆ heap (Focal.exec_multistep self state actions targets w).2.
Proof.
  assert (Hpost : post (keeps (heap w))
                    (Focal.exec_multistep self state actions targets)
                    (fun _ => keeps (heap w)) (keeps (heap w))).
  { unfold Focal.exec_multistep.
    eapply post_bind.
    { apply silent_keeps. apply silent_bind; [apply silent_load|].
      intros [items|a]; [|apply silent_raise].
      destruct (items !! 0%nat); [apply silent_ret | apply silent_raise]. }
    intros s0. eapply post_bind; [apply silent_keeps, silent_array_of|].
    intros x. cbn zeta.
    destruct (compute_emd x (model self (Nd.to_float32 x)) 3000) as [lf asg].
    eapply post_bind.
    { apply silent_keeps. unfold reorder.
      destruct (Nd.index_select _ _); [apply silent_ret | apply silent_raise]. }
    intros x_hat. eapply post_bind; [apply deepcopy_keeps|].
    intros state_hat.
    apply post_bind with (Q := fun _ w1 =>
      keeps (heap w) w1 /\ heap w !! state_hat = None).
    { intros w1 [Hk Hs].
      pose proof (alloc_keeps (heap w) (NdArray (Nd.to_float64 x_hat)) w1 Hk) as Ha.
      destruct (alloc (NdArray (Nd.to_float64 x_hat)) w1) as [[l|e] w2]; [|exact Ha].
      split; [apply Ha | exact Hs]. }
    intros arr. apply post_bind with (Q := fun _ w1 => keeps (heap w) w1).
    { intros w1 [Hk Hs].
      exact (list_setitem_keeps (heap w) state_hat 0 arr Hs w1 Hk). }
    intros _. eapply post_bind; [apply silent_keeps, silent_forward_nograd|].
    intros loss. apply post_ret. auto. }
  specialize (Hpost w (reflexivity _)).
  destruct (Focal.exec_multistep self state actions targets w) as [[r|e] w'];
    exact Hpost.
Qed.

End FrameFacts.

(** ** Running a training loop step by step *)

Lemma run_bind_gets {W A B} (f : W -> A) (k : A -> Prog W B) w :
  (gets f ≫= k) w = k (f w) w.
Proof. reflexivity. Qed.

Lemma run_bind_modify {W B} (f : W -> W) (k : unit -> Prog W B) w :
  (modify f ≫= k) w = k tt (f w).
Proof. reflexivity. Qed.

Lemma run_bind_ret {W A B} (a : A) (k : A -> Prog W B) w :
  (mret a ≫= k) w = k a w.
Proof. reflexivity. Qed.

Lemma run_bind_ret' {W A B} (a : A) (k : A -> Prog W B) w :
  (ret a ≫= k) w = k a w.
Proof. reflexivity. Qed.

Lemma run_bind_raise {W A B} e (k : A -> Prog W B) w :
  (raise e ≫= k) w = (Raise e, w).
Proof. reflexivity. Qed.

Lemma run_bind_assoc {W A B C} (m : Prog W A) (f : A -> Prog W B)
    (g : B -> Prog W C) w :
  ((m ≫= f) ≫= g) w = (m ≫= (fun a => f a ≫= g)) w.
Proof. rewrite !bind_unfold. destruct (m w) as [[a|e] w1]; reflexivity. Qed.

Section LoopSteps.
Context `{Runtime}.

Lemma run_bind_ext {A B} (f : Sys -> A * Sys) (k : A -> Prog Loop B) w a s :
  f (sys w) = (a, s) -> (ext f ≫= k) w = k a (set_sys s w).
Proof.
  intros E. rewrite bind_unfold. unfold ext, call, lift. rewrite E. reflexivity.
Qed.

Lemma run_bind_ext_ {B} (f : Sys -> Sys) (k : unit -> Prog Loop B) w :
  (ext_ f ≫= k) w = k tt (set_sys (f (sys w)) w).
Proof. reflexivity. Qed.

Lemma run_bind_call {A B} (m : Prog Sys A) (k : A -> Prog Loop B) w r s :
  m (sys w) = (r, s) ->
  (call m ≫= k) w =
  match r with
  | Ok a => k a (set_sys s w)
  | Raise e => (Raise e, set_sys s w)
  end.
Proof.
  intros E. rewrite bind_unfold. unfold call. rewrite E. destruct r; reflexivity.
Qed.

Lemma focal_update_network_returns st gr (lf : LossFirst) ul s :
  (FocalLoop._update_network_mpi st gr lf ul s).1 = Ok tt.
Proof. unfold FocalLoop._update_network_mpi. destruct st, gr, ul; reflexivity. Qed.

Lemma focal_update_loss_returns ix l s :
  (FocalLoop._update_loss ix l s).1 = Ok tt.
Proof.
  unfold FocalLoop._update_loss. rewrite bind_unfold. unfold lift.
  destruct (mpi_gather_loss_id ix l s) as [[[idxs losses]|] s']; reflexivity.
Qed.

Lemma focal_update_scheme_returns n s :
  exists dl, (FocalLoop._update_focal_scheme n s).1 = Ok dl.
Proof.
  unfold FocalLoop._update_focal_scheme.
  rewrite run_bind_modify, bind_unfold. unfold lift.
  destruct (dataset_getSubset n (mpi_sync_loss s)) as [sub s1].
  rewrite bind_unfold. destruct (mpi_num_procs s1) as [k s2]. eexists. reflexivity.
Qed.

Lemma learn_latent_update_network_returns st gr (lf : LossFirst) ul s :
  (LearnLatentLoop._update_network_mpi st gr lf ul s).1 = Ok tt.
Proof.
  unfold LearnLatentLoop._update_network_mpi.
  unfold mbind, prog_bind, bind, mret, prog_ret, ret, modify, lift, when.
  destruct st, gr, ul; cbn;
    match goal with
    | |- context [mpi_num_procs ?x] => destruct (mpi_num_procs x) as [k s1]
    end; destruct k as [|[|k]]; reflexivity.
Qed.

End LoopSteps.

Ltac norm :=
  cbn [sys msgs trace dataloader use_grad procAvgLoss batchCnt efficientBatchCnt
       batchLoss total_batch set_sys set_msgs set_trace set_dataloader set_use_grad
       set_procAvgLoss set_batchCnt set_efficientBatchCnt set_batchLoss
       set_total_batch] in *.

Ltac run_ext :=
  match goal with
  | |- context [(ext ?f ≫= ?k) ?w] =>
      let sw := eval cbn [sys set_sys set_msgs set_trace set_dataloader set_use_grad
                          set_procAvgLoss set_batchCnt set_efficientBatchCnt
                          set_batchLoss set_total_batch] in (sys w) in
      let a := fresh "a" in
      let s := fresh "s" in
      let E := fresh "E" in
      destruct (f sw) as [a s] eqn:E;
      rewrite (run_bind_ext f k w a s E)
  | |- context [(call ?m ≫= ?k) ?w] =>
      let sw := eval cbn [sys set_sys set_msgs set_trace set_dataloader set_use_grad
                          set_procAvgLoss set_batchCnt set_efficientBatchCnt
                          set_batchLoss set_total_batch] in (sys w) in
      let r := fresh "r" in
      let s := fresh "s" in
      let E := fresh "E" in
      destruct (m sw) as [r s] eqn:E;
      rewrite (run_bind_call m k w r s E)
  end.

Ltac run :=
  repeat first
    [ rewrite run_bind_assoc
    | rewrite run_bind_gets
    | rewrite run_bind_modify
    | rewrite run_bind_ret
    | rewrite run_bind_ret'
    | rewrite run_bind_raise
    | rewrite run_bind_ext_
    | run_ext
    | progress norm ].

Ltac case_if :=
  match goal with
  | |- context [if ?c then _ else _] => destruct c
  end.

Ltac returns lem :=
  match goal with
  | E : _ ?s = (?r, _) |- _ =>
      let X := fresh in
      pose proof (lem s) as X; rewrite E in X; cbn in X; subst r
  end.

Ltac batch_done :=
  cbn; split; [first [reflexivity | assumption]|];
  split; [reflexivity|]; split; [reflexivity|];
  eexists; split; [reflexivity|]; split; [cbn; auto|];
  unfold accounted; cbn; eauto.

Section BatchFacts.
Context `{Runtime}.

(** One batch of the focal loop: the flag and the dataloader stay, the
    batch counter advances, exactly one call is added to the trace and the
    accumulators follow it.  When the batch raises, at most that call has
    been added. *)
Lemma focal_process_batch_spec i b w :
  match FocalLoop.process_batch i b w with
  | (Ok _, w') =>
      use_grad w' = use_grad w /\ dataloader w' = dataloader w /\
      batchCnt w' = (batchCnt w + 1)%nat /\
      exists e, trace w' = trace w ++ [e] /\
                batch_event i (batchCnt w) (use_grad w) e /\ accounted i e w w'
  | (Raise _, w') =>
      use_grad w' = use_grad w /\
      (trace w' = trace w \/
       procAvgLoss w !! i = None /\
       exists e, trace w' = trace w ++ [e] /\ batch_event i (batchCnt w) (use_grad w) e)
  end.
Proof.
  unfold FocalLoop.process_batch.
  run. destruct a as [[[sp tp] ap] ip]. run.
  destruct (use_grad w) eqn:Hg.
  - run. destruct r as [[[[st gr] lf] l]|e]; [|norm; auto].
    unfold record, emit, add_loss.
    destruct (bool_decide (is_Some st) && bool_decide (is_Some gr)) eqn:Hu.
    + run.
      destruct (procAvgLoss w !! i) as [v|] eqn:Hv.
      * run. returns (focal_update_network_returns st gr lf false).
        unfold when. case_if; run; case_if; run; batch_done.
      * run. cbn. split; [assumption|]. right. split; [first [exact Hv | reflexivity]|]. eexists.
        split; [reflexivity|].
        cbn. auto.
    + run. returns (focal_update_network_returns st gr lf false).
      unfold when. case_if; run; case_if; run; batch_done.
  - run. destruct r as [[lf l]|e]; [|norm; auto].
    unfold record, emit, add_loss. run.
    returns (focal_update_loss_returns ip l). run.
    destruct (procAvgLoss w !! i) as [v|] eqn:Hv.
    + run. unfold when. case_if; run; batch_done.
    + run. cbn. split; [assumption|]. right. split; [first [exact Hv | reflexivity]|]. eexists.
        split; [reflexivity|].
      cbn. auto.
Qed.

End BatchFacts.

Section EpochFacts.
Context `{Runtime}.

Lemma batch_event_epoch i k g e : batch_event i k g e -> epoch_event i g e.
Proof. destruct e; cbn; tauto. Qed.

Lemma focal_batch_spec i : batch_spec use_grad i (FocalLoop.process_batch i).
Proof.
  intros b w. pose proof (focal_process_batch_spec i b w) as Hb.
  destruct (FocalLoop.process_batch i b w) as [[u|x] w'].
  - destruct Hb as (Hg & Hd & _ & e & Ht & He & Ha).
    repeat split; try assumption. exists e. eauto using batch_event_epoch.
  - destruct Hb as (Hg & [Ht|(Hv & e & Ht & He)]); repeat split; try assumption; auto.
    right. split; [exact Hv|]. exists e. eauto using batch_event_epoch.
Qed.

(** One batch of the [learn_latent] loop. *)
Lemma learn_latent_batch_spec i :
  batch_spec (fun _ => true) i (LearnLatentLoop.process_batch i).
Proof.
  intros b w. unfold LearnLatentLoop.process_batch.
  run. destruct a as [[[sp tp] ap] ip]. run.
  destruct r as [[[[st gr] lf] l]|e]; [|norm; auto].
  unfold record, emit, add_loss.
  destruct (bool_decide (is_Some st) && bool_decide (is_Some gr)) eqn:Hu.
  - run. destruct (procAvgLoss w !! i) as [v|] eqn:Hv.
    + run. returns (learn_latent_update_network_returns st gr lf false).
      unfold when. case_if; run; case_if; run; try (case_if; run);
        (cbn; repeat (split; [reflexivity|]);
         eexists; split; [reflexivity|]; split; [cbn; auto|];
         unfold accounted; cbn; eauto).
    + run. cbn. repeat (split; [reflexivity|]). right. split; [first [exact Hv | reflexivity]|]. eexists.
      split; [reflexivity|]. cbn. auto.
  - run. returns (learn_latent_update_network_returns st gr lf false).
    unfold when. case_if; run; case_if; run; try (case_if; run);
      (cbn; repeat (split; [reflexivity|]);
       eexists; split; [reflexivity|]; split; [cbn; auto|];
       unfold accounted; cbn; eauto).
Qed.

(** The batch loop of an epoch, whatever its outcome: the mode stays and
    the trace grows by calls of this epoch made in that mode. *)
Lemma batch_loop_trace mode i body dl :
  batch_spec mode i body ->
  forall w,
    let w' := (for_each dl body w).2 in
    mode w' = mode w /\ use_grad w' = use_grad w /\
    exists evs, trace w' = trace w ++ evs /\ Forall (epoch_event i (mode w)) evs.
Proof.
  intros Hbody. induction dl as [|b dl IH]; intros w; cbn [for_each].
  - cbn. repeat split. exists []. rewrite app_nil_r. auto.
  - rewrite bind_unfold. specialize (Hbody b w).
    destruct (body b w) as [[u|x] w1]; cbn zeta.
    + destruct Hbody as (Hm & Hg & _ & e & Ht & He & _).
      destruct (IH w1) as (Hm' & Hg' & evs & Ht' & Hevs).
      cbn zeta in *. rewrite Hm', Hg', Hm, Hg. repeat split.
      exists (e :: evs). rewrite Ht', Ht, <- app_assoc. split; [reflexivity|].
      constructor; [exact He|]. rewrite <- Hm. exact Hevs.
    + cbn. destruct Hbody as (Hm & Hg & [Ht|(_ & e & Ht & He)]); repeat split; auto.
      * exists []. rewrite app_nil_r. auto.
      * exists [e]. auto.
Qed.

(** The batch loop of an epoch when it runs to its end: one call per
    batch, and the accumulators hold the count and the running sum of the
    counted losses. *)
Lemma batch_loop_accounting mode i body dl :
  batch_spec mode i body ->
  forall w w' v,
    procAvgLoss w !! i = Some v ->
    for_each dl body w = (Ok tt, w') ->
    dataloader w' = dataloader w /\
    exists evs,
      trace w' = trace w ++ evs /\ length evs = length dl /\
      Forall (epoch_event i (mode w)) evs /\
      efficientBatchCnt w' =
        (efficientBatchCnt w + length (counted_losses evs))%nat /\
      procAvgLoss w' =
        <[i:=fold_left Float64.add (counted_losses evs) v]> (procAvgLoss w).
Proof.
  intros Hbody. induction dl as [|b dl IH]; intros w w' v Hv Hrun;
    cbn [for_each] in Hrun.
  - inversion Hrun; subst w'. split; [reflexivity|]. exists []. cbn.
    rewrite app_nil_r, Nat.add_0_r, list_insert_id by exact Hv. auto.
  - apply bind_ok_inv in Hrun. destruct Hrun as ([] & w1 & Hb & Hrest).
    specialize (Hbody b w). rewrite Hb in Hbody.
    destruct Hbody as (Hm & _ & Hd & e & Ht & He & Ha).
    unfold accounted in Ha. unfold counted_losses in *.
    destruct (counted_loss e) as [l|] eqn:Hc.
    + destruct Ha as (Heff & v0 & Hv0 & Hpal).
      rewrite Hv in Hv0. inversion Hv0; subst v0.
      assert (Hv1 : procAvgLoss w1 !! i = Some (Float64.add v l)).
      { rewrite Hpal. apply list_lookup_insert_eq. eapply lookup_lt_Some, Hv. }
      destruct (IH w1 w' _ Hv1 Hrest)
        as (Hd' & evs & Ht' & Hlen & Hevs & Heff' & Hpal').
      split; [congruence|]. exists (e :: evs).
      rewrite Ht', Ht, <- app_assoc. split; [reflexivity|].
      cbn -[Float64.add]. rewrite Hc. cbn -[Float64.add].
      split; [lia|]. split; [constructor; [exact He | rewrite <- Hm; exact Hevs]|].
      split; [lia|].
      rewrite Hpal', Hpal. apply list_insert_insert_eq.
    + destruct Ha as (Heff & Hpal).
      assert (Hv1 : procAvgLoss w1 !! i = Some v) by (rewrite Hpal; exact Hv).
      destruct (IH w1 w' _ Hv1 Hrest)
        as (Hd' & evs & Ht' & Hlen & Hevs & Heff' & Hpal').
      split; [congruence|]. exists (e :: evs).
      rewrite Ht', Ht, <- app_assoc. split; [reflexivity|].
      cbn -[Float64.add]. rewrite Hc.
      split; [lia|]. split; [constructor; [exact He | rewrite <- Hm; exact Hevs]|].
      split; [lia|]. rewrite Hpal', Hpal. reflexivity.
Qed.

(** The batch loop of an epoch when a batch raises: the batches before it
    have made one call each and the raising batch none. *)
Lemma batch_loop_raise mode i body dl :
  batch_spec mode i body ->
  forall w w' v x,
    procAvgLoss w !! i = Some v ->
    for_each dl body w = (Raise x, w') ->
    exists evs, trace w' = trace w ++ evs /\ (length evs < length dl)%nat.
Proof.
  intros Hbody. induction dl as [|b dl IH]; intros w w' v x Hv Hrun;
    cbn [for_each] in Hrun.
  - discriminate Hrun.
  - rewrite bind_unfold in Hrun. pose proof (Hbody b w) as Hb.
    destruct (body b w) as [[u|y] w1].
    + destruct Hb as (_ & _ & _ & e & Ht & _ & Ha).
      assert (Hv1 : exists v1, procAvgLoss w1 !! i = Some v1).
      { unfold accounted in Ha. destruct (counted_loss e) as [l|].
        - destruct Ha as (_ & v0 & _ & ->). eexists.
          apply list_lookup_insert_eq. eapply lookup_lt_Some, Hv.
        - destruct Ha as (_ & ->). eauto. }
      destruct Hv1 as (v1 & Hv1).
      destruct (IH w1 w' v1 x Hv1 Hrun) as (evs & Ht' & Hlen).
      exists (e :: evs). rewrite Ht', Ht, <- app_assoc. split; [reflexivity|].
      cbn. lia.
    + inversion Hrun; subst. destruct Hb as (_ & _ & [Ht|(Hnone & _)]).
      * exists []. rewrite app_nil_r. split; [exact Ht|]. cbn. lia.
      * congruence.
Qed.

End EpochFacts.

(** ** The end-of-epoch division (C10) *)

Section DivisionFacts.
Context `{Runtime}.

Lemma sentinel_not_counted i evs :
  Forall (nan_sentinel_call i) evs -> counted_losses evs = [].
Proof.
  induction 1 as [|e evs (k & l & ->) _ IH]; [reflexivity|].
  unfold counted_losses in *. cbn. exact IH.
Qed.

Lemma counted_losses_app evs1 evs2 :
  counted_losses (evs1 ++ evs2) = counted_losses evs1 ++ counted_losses evs2.
Proof. apply omap_app. Qed.

(** [procAvgLoss[i] /= efficientBatchCnt] on a zero count. *)
Lemma div_loss_zero i w v :
  procAvgLoss w !! i = Some v -> efficientBatchCnt w = 0%nat ->
  div_loss i w = (Raise ZeroDivisionError, w).
Proof.
  intros Hv Hn. unfold div_loss. rewrite run_bind_gets, Hv, run_bind_gets, Hn.
  reflexivity.
Qed.

(** [procAvgLoss[i] /= efficientBatchCnt] on a count that is not zero. *)
Lemma div_loss_pos i w v :
  procAvgLoss w !! i = Some v -> efficientBatchCnt w <> 0%nat ->
  div_loss i w =
    (Ok tt,
     set_procAvgLoss
       (<[i:=Float64.div v (Float64.of_Z (Z.of_nat (efficientBatchCnt w)))]>
          (procAvgLoss w)) w).
Proof.
  intros Hv Hn. unfold div_loss. rewrite run_bind_gets, Hv, run_bind_gets.
  unfold truediv. destruct (Nat.eqb_spec (efficientBatchCnt w) 0); [contradiction|].
  reflexivity.
Qed.

(** An epoch whose calls all returned the NaN sentinel, stated for any
    batch loop that meets [batch_spec] and any code after the division. *)
Lemma sentinel_epoch mode i body (rest : Prog Loop unit) w r w' evs :
  batch_spec mode i body ->
  (forall w1, exists evs1, trace (rest w1).2 = trace w1 ++ evs1) ->
  (i < length (procAvgLoss w))%nat ->
  (modify (set_batchCnt 0);;
   modify (set_efficientBatchCnt 0);;
   dl ← gets dataloader;
   for_each dl body;;
   div_loss i;;
   rest) w = (r, w') ->
  trace w' = trace w ++ evs ->
  length evs = length (dataloader w) ->
  Forall (nan_sentinel_call i) evs ->
  r = Raise ZeroDivisionError /\ efficientBatchCnt w' = 0%nat.
Proof.
  intros Hbody Hrest Hi Hrun Htrace Hlen Hnan.
  rewrite !run_bind_modify, run_bind_gets in Hrun. norm.
  destruct (lookup_lt_is_Some_2 _ _ Hi) as (v & Hv).
  rewrite bind_unfold in Hrun.
  destruct (for_each (dataloader w) body _) as [[[]|x] w1] eqn:Hloop.
  - eapply batch_loop_accounting in Hloop; [|exact Hbody|exact Hv].
    destruct Hloop as (_ & evs1 & Ht1 & Hlen1 & _ & Heff & Hpal). norm.
    assert (Hv1 : procAvgLoss w1 !! i = Some
                    (fold_left Float64.add (counted_losses evs1) v)).
    { rewrite Hpal. apply list_lookup_insert_eq. exact Hi. }
    destruct (Nat.eq_dec (efficientBatchCnt w1) 0) as [Hz|Hnz].
    + rewrite bind_unfold, (div_loss_zero _ _ _ Hv1 Hz) in Hrun.
      inversion Hrun; subst. auto.
    + exfalso. apply Hnz. rewrite Heff.
      rewrite bind_unfold, (div_loss_pos _ _ _ Hv1 Hnz) in Hrun.
      match type of Hrun with rest ?w2 = _ =>
        destruct (Hrest w2) as (evs2 & Ht2); rewrite Hrun in Ht2
      end.
      cbn in Ht2. norm. rewrite Ht1, <- app_assoc in Ht2.
      rewrite Ht2 in Htrace. apply app_inv_head in Htrace. subst evs.
      apply Forall_app in Hnan. destruct Hnan as [Hnan _].
      rewrite (sentinel_not_counted _ _ Hnan). reflexivity.
  - inversion Hrun; subst.
    eapply batch_loop_raise in Hloop; [|exact Hbody|exact Hv].
    destruct Hloop as (evs1 & Ht1 & Hlt). norm.
    rewrite Ht1 in Htrace. apply app_inv_head in Htrace. subst evs1. lia.
Qed.

(** What follows the division in an epoch only appends to the trace. *)
Lemma focal_epoch_end_appends i w1 :
  exists evs1,
    trace ((avg ← read_loss i;
            emit (MsgEpoch i avg);;
            if (i mod 5 =? 0)%nat then
              dl' ← call (FocalLoop._update_focal_scheme 1000);
              record (EvResample i);;
              modify (set_dataloader dl');;
              modify (set_use_grad true)
            else if (i mod 5 =? 4)%nat then
              modify (set_use_grad false)
            else mret tt) w1).2 = trace w1 ++ evs1.
Proof.
  unfold read_loss, emit, record. run.
  destruct (procAvgLoss w1 !! i) as [v|].
  - run. destruct (i mod 5 =? 0)%nat.
    + run. destruct r as [dl'|x].
      * run. exists [EvResample i]. reflexivity.
      * exists []. cbn. rewrite app_nil_r. reflexivity.
    + destruct (i mod 5 =? 4)%nat; exists []; cbn; rewrite app_nil_r; reflexivity.
  - run. exists []. cbn. rewrite app_nil_r. reflexivity.
Qed.

Lemma learn_latent_epoch_end_appends i w1 :
  exists evs1,
    trace ((avg ← read_loss i; emit (MsgEpoch i avg)) w1).2 = trace w1 ++ evs1.
Proof.
  unfold read_loss, emit. run. exists [].
  destruct (procAvgLoss w1 !! i) as [v|]; cbn; rewrite app_nil_r; reflexivity.
Qed.

(** C10.  In an epoch in which every batch's [solve_multistep] call has
    returned the NaN sentinel (the trace of the epoch consists of one such
    call per batch of the dataloader), [efficientBatchCnt] is 0 when the
    batches are done and [procAvgLoss[i] /= efficientBatchCnt] raises
    [ZeroDivisionError].  Both loops. *)
Theorem all_nan_epoch_divides_by_zero i w :
  (i < length (procAvgLoss w))%nat ->
  (forall r w' evs,
      FocalLoop.run_epoch i w = (r, w') ->
      trace w' = trace w ++ evs ->
      length evs = length (dataloader w) ->
      Forall (nan_sentinel_call i) evs ->
      r = Raise ZeroDivisionError /\ efficientBatchCnt w' = 0%nat) /\
  (forall r w' evs,
      LearnLatentLoop.run_epoch i w = (r, w') ->
      trace w' = trace w ++ evs ->
      length evs = length (dataloader w) ->
      Forall (nan_sentinel_call i) evs ->
      r = Raise ZeroDivisionError /\ efficientBatchCnt w' = 0%nat).
Proof.
  intros Hi. split; intros r w' evs Hrun Ht Hlen Hnan.
  - unfold FocalLoop.run_epoch in Hrun.
    eapply (sentinel_epoch use_grad i (FocalLoop.process_batch i));
      [apply focal_batch_spec | | exact Hi | exact Hrun | exact Ht | exact Hlen
      | exact Hnan].
    intros w1. apply focal_epoch_end_appends.
  - unfold LearnLatentLoop.run_epoch in Hrun.
    eapply (sentinel_epoch (fun _ => true) i (LearnLatentLoop.process_batch i));
      [apply learn_latent_batch_spec | | exact Hi | exact Hrun | exact Ht
      | exact Hlen | exact Hnan].
    intros w1. apply learn_latent_epoch_end_appends.
Qed.

End DivisionFacts.

(** ** The epoch average (C4) *)

Section AverageFacts.
Context `{Runtime}.

(** In gradient mode the counted batches are those with a usable pair. *)
Lemma gradient_mode_counted i evs :
  Forall (epoch_event i true) evs ->
  counted_losses evs = usable_pair_losses evs.
Proof.
  unfold counted_losses, usable_pair_losses.
  induction 1 as [|e evs He _ IH]; [reflexivity|].
  destruct e as [j k [|] l|j k l|j]; cbn in He |- *.
  - rewrite IH. reflexivity.
  - exact IH.
  - destruct He as [He _]. discriminate He.
  - contradiction.
Qed.

(** An epoch that reaches the code after the division, for any batch loop
    that meets [batch_spec]: the world [w1] after the division. *)
Lemma epoch_division mode i body (rest : Prog Loop unit) w w' :
  batch_spec mode i body ->
  procAvgLoss w !! i = Some Float64.zero ->
  (modify (set_batchCnt 0);;
   modify (set_efficientBatchCnt 0);;
   dl ← gets dataloader;
   for_each dl body;;
   div_loss i;;
   rest) w = (Ok tt, w') ->
  exists evs w1,
    rest w1 = (Ok tt, w') /\
    trace w1 = trace w ++ evs /\ length evs = length (dataloader w) /\
    Forall (epoch_event i (mode (set_efficientBatchCnt 0 (set_batchCnt 0 w)))) evs /\
    counted_losses evs <> [] /\
    efficientBatchCnt w1 = length (counted_losses evs) /\
    procAvgLoss w1 !! i = Some (mean (counted_losses evs)) /\
    (forall j, j <> i -> procAvgLoss w1 !! j = procAvgLoss w !! j).
Proof.
  intros Hbody Hv Hrun.
  rewrite !run_bind_modify, run_bind_gets in Hrun. norm.
  apply bind_ok_inv in Hrun. destruct Hrun as ([] & w0 & Hloop & Hrun).
  eapply batch_loop_accounting in Hloop; [|exact Hbody|exact Hv].
  destruct Hloop as (_ & evs & Ht & Hlen & Hevs & Heff & Hpal). norm.
  assert (Hi : (i < length (procAvgLoss w))%nat) by (eapply lookup_lt_Some, Hv).
  assert (Hv0 : procAvgLoss w0 !! i =
                Some (fold_left Float64.add (counted_losses evs) Float64.zero)).
  { rewrite Hpal. apply list_lookup_insert_eq. exact Hi. }
  apply bind_ok_inv in Hrun. destruct Hrun as ([] & w1 & Hdiv & Hrest).
  destruct (Nat.eq_dec (efficientBatchCnt w0) 0) as [Hz|Hnz].
  { rewrite (div_loss_zero _ _ _ Hv0 Hz) in Hdiv. discriminate Hdiv. }
  rewrite (div_loss_pos _ _ _ Hv0 Hnz) in Hdiv. inversion Hdiv; subst w1.
  exists evs. eexists. split; [exact Hrest|]. norm.
  split; [exact Ht|]. split; [exact Hlen|]. split; [exact Hevs|].
  cbn in Heff. split.
  { intros Hnil. apply Hnz. rewrite Heff, Hnil. reflexivity. }
  split; [exact Heff|]. split.
  - rewrite list_lookup_insert_eq by (rewrite Hpal, length_insert; exact Hi).
    unfold mean. rewrite Heff. reflexivity.
  - intros j Hj. rewrite list_lookup_insert_ne by congruence.
    rewrite Hpal. apply list_lookup_insert_ne. congruence.
Qed.

(** The code after the division in the focal loop, when it returns. *)
Lemma focal_epoch_end_returns i w1 w' :
  (avg ← read_loss i;
   emit (MsgEpoch i avg);;
   if (i mod 5 =? 0)%nat then
     dl' ← call (FocalLoop._update_focal_scheme 1000);
     record (EvResample i);;
     modify (set_dataloader dl');;
     modify (set_use_grad true)
   else if (i mod 5 =? 4)%nat then
     modify (set_use_grad false)
   else mret tt) w1 = (Ok tt, w') ->
  procAvgLoss w' = procAvgLoss w1 /\
  efficientBatchCnt w' = efficientBatchCnt w1 /\
  trace w' = trace w1 ++ (if (i mod 5 =? 0)%nat then [EvResample i] else []) /\
  use_grad w' =
    (if (i mod 5 =? 0)%nat then true
     else if (i mod 5 =? 4)%nat then false else use_grad w1).
Proof.
  unfold read_loss, emit, record. run.
  destruct (procAvgLoss w1 !! i) as [v|]; run; [|discriminate].
  destruct (i mod 5 =? 0)%nat.
  - run. destruct r as [dl'|x]; [|discriminate]. run.
    intros Hr. inversion Hr; subst. cbn. auto.
  - destruct (i mod 5 =? 4)%nat; intros Hr; inversion Hr; subst; cbn;
      rewrite app_nil_r; auto.
Qed.

(** An epoch of the focal loop that starts with [procAvgLoss[i]] at
    [0.0] and completes; the other entries of [procAvgLoss] stay. *)
Lemma focal_epoch_averages i w w' :
  procAvgLoss w !! i = Some Float64.zero ->
  FocalLoop.run_epoch i w = (Ok tt, w') ->
  focal_epoch_average i w w' /\
  (forall j, j <> i -> procAvgLoss w' !! j = procAvgLoss w !! j).
Proof.
  intros Hv Hrun. unfold FocalLoop.run_epoch in Hrun.
  eapply (epoch_division use_grad i (FocalLoop.process_batch i)) in Hrun;
    [|apply focal_batch_spec|exact Hv].
  destruct Hrun
    as (evs & w1 & Hrest & Ht & Hlen & Hevs & Hne & Heff & Hmean & Hother).
  cbn in Hevs.
  apply focal_epoch_end_returns in Hrest.
  destruct Hrest as (Hpal & Heff' & Ht' & _).
  split; [|rewrite Hpal; exact Hother].
  exists evs. rewrite Ht', Ht, <- app_assoc, Hpal, Heff'.
  repeat split; try assumption.
  intros Hg. rewrite Hg in Hevs. eapply gradient_mode_counted, Hevs.
Qed.

Lemma learn_latent_epoch_averages i w w' :
  procAvgLoss w !! i = Some Float64.zero ->
  LearnLatentLoop.run_epoch i w = (Ok tt, w') ->
  learn_latent_epoch_average i w w' /\
  (forall j, j <> i -> procAvgLoss w' !! j = procAvgLoss w !! j).
Proof.
  intros Hv Hrun. unfold LearnLatentLoop.run_epoch in Hrun.
  eapply (epoch_division (fun _ => true) i (LearnLatentLoop.process_batch i))
    in Hrun; [|apply learn_latent_batch_spec|exact Hv].
  destruct Hrun
    as (evs & w1 & Hrest & Ht & Hlen & Hevs & Hne & Heff & Hmean & Hother).
  assert (Hw : procAvgLoss w' = procAvgLoss w1 /\
               efficientBatchCnt w' = efficientBatchCnt w1 /\
               trace w' = trace w1).
  { revert Hrest. unfold read_loss, emit. run.
    destruct (procAvgLoss w1 !! i) as [v|]; run; [|discriminate].
    intros Hr. inversion Hr; subst. cbn. auto. }
  destruct Hw as (Hpal & Heff' & Ht').
  rewrite (gradient_mode_counted i evs Hevs) in *.
  split; [|rewrite Hpal; exact Hother].
  exists evs. rewrite Ht', Ht, Hpal, Heff'. repeat split; assumption.
Qed.

(** The epochs that have not run yet have their accumulator at [0.0]. *)
Lemma zeroed_from_next n a (w w' : Loop) :
  (forall i, (a <= i)%nat -> (i < n)%nat -> procAvgLoss w !! i = Some Float64.zero) ->
  (forall j, j <> a -> procAvgLoss w' !! j = procAvgLoss w !! j) ->
  forall i, (S a <= i)%nat -> (i < n)%nat -> procAvgLoss w' !! i = Some Float64.zero.
Proof.
  intros Hzero Hother i Hai Hin. rewrite Hother by lia. apply Hzero; lia.
Qed.

(** C4, as the code has it.  In a run of either training loop over [n]
    epochs, at the end of every epoch that completes (every epoch before
    the first one that raises; all [n] when the loop returns),
    [procAvgLoss[i]] is the arithmetic mean of the losses of exactly the
    counted batches of that epoch and [efficientBatchCnt] is their number,
    which is not zero.  In [learn_latent], and in the focal loop in
    gradient mode, the counted batches are those whose [solve_multistep]
    call gave a state and a gradient that are not [None]; in the focal
    loop in evaluation mode every batch is counted. *)
Theorem epoch_average_of_counted_batches n w :
  loop_outcome FocalLoop.run_epoch focal_epoch_average n
    (set_procAvgLoss (replicate n Float64.zero) (set_use_grad false w))
    (FocalLoop.training_loop n w) /\
  loop_outcome LearnLatentLoop.run_epoch learn_latent_epoch_average n
    (set_total_batch 0 (set_procAvgLoss (replicate n Float64.zero) w))
    (LearnLatentLoop.training_loop n w).
Proof.
  split.
  - unfold FocalLoop.training_loop. rewrite !run_bind_modify.
    apply (loop_outcome_for_range _
             (fun a v => forall i, (a <= i)%nat -> (i < n)%nat ->
                                   procAvgLoss v !! i = Some Float64.zero)).
    + intros a v v1 Ha Hzero Hrun.
      destruct (focal_epoch_averages a v v1 (Hzero a (Nat.le_refl a) Ha) Hrun)
        as [Havg Hother].
      split; [exact Havg|]. eapply zeroed_from_next; eassumption.
    + intros i _ Hi. cbn. apply lookup_replicate_2. exact Hi.
  - unfold LearnLatentLoop.training_loop. rewrite !run_bind_modify.
    apply (loop_outcome_for_range _
             (fun a v => forall i, (a <= i)%nat -> (i < n)%nat ->
                                   procAvgLoss v !! i = Some Float64.zero)).
    + intros a v v1 Ha Hzero Hrun.
      destruct (learn_latent_epoch_averages a v v1 (Hzero a (Nat.le_refl a) Ha) Hrun)
        as [Havg Hother].
      split; [exact Havg|]. eapply zeroed_from_next; eassumption.
    + intros i _ Hi. cbn. apply lookup_replicate_2. exact Hi.
Qed.

End AverageFacts.

(** ** The schedule of the focal loop (C1) *)

Section ScheduleFacts.
Context `{Runtime}.

Lemma scheduled_extend B B' t evs :
  scheduled B t ->
  Forall on_schedule evs -> Forall (fun e => event_time e = B') evs ->
  (B <= B')%nat ->
  scheduled (S B') (t ++ evs).
Proof.
  intros (Hok & Hsorted & Hbound) Hok' Htime Hle. repeat split.
  - apply Forall_app. auto.
  - apply StronglySorted_app_2; [|exact Hsorted|].
    + intros x1 x2 H1 H2. rewrite Forall_forall in Hbound, Htime.
      specialize (Hbound x1 H1). specialize (Htime x2 H2). lia.
    + induction Htime as [|e evs He Hevs IH]; [constructor|].
      inversion Hok'; subst. constructor; [apply IH; assumption|].
      eapply Forall_impl; [exact Hevs|]. intros e' He'. cbn in *. lia.
  - apply Forall_app. split.
    + eapply Forall_impl; [exact Hbound|]. intros e He. cbn in *. lia.
    + eapply Forall_impl; [exact Htime|]. intros e He. cbn in *. lia.
Qed.

Lemma scheduled_weaken B B' t : scheduled B t -> (B <= B')%nat -> scheduled B' t.
Proof.
  intros (Hok & Hsorted & Hbound) Hle. repeat split; try assumption.
  eapply Forall_impl; [exact Hbound|]. intros e He. cbn in *. lia.
Qed.

(** The calls of an epoch run in the mode of the schedule are on schedule
    and at the time of that epoch. *)
Lemma epoch_events_on_schedule i evs :
  Forall (epoch_event i (negb (evaluation_epoch i))) evs ->
  Forall on_schedule evs /\ Forall (fun e => event_time e = 2 * i)%nat evs.
Proof.
  induction 1 as [|e evs He _ [IH1 IH2]]; [split; constructor|].
  split; constructor; try assumption.
  - destruct e as [j k u l|j k l|j]; cbn [epoch_event on_schedule] in *.
    + destruct He as [He ->]. destruct (evaluation_epoch i);
        [discriminate He | reflexivity].
    + destruct He as [He ->]. destruct (evaluation_epoch i);
        [reflexivity | discriminate He].
    + contradiction.
  - destruct e as [j k u l|j k l|j]; cbn [epoch_event event_time] in *.
    + destruct He as [_ ->]. reflexivity.
    + destruct He as [_ ->]. reflexivity.
    + contradiction.
Qed.

Lemma div_loss_frame i w :
  trace (div_loss i w).2 = trace w /\ use_grad (div_loss i w).2 = use_grad w.
Proof.
  unfold div_loss, truediv. run. destruct (procAvgLoss w !! i) as [v|]; run;
    [|split; reflexivity].
  destruct (efficientBatchCnt w =? 0)%nat; run; split; reflexivity.
Qed.

(** The code after the division in the focal loop, whatever its outcome. *)
Lemma focal_epoch_end_trace i w1 :
  let w' := ((avg ← read_loss i;
              emit (MsgEpoch i avg);;
              if (i mod 5 =? 0)%nat then
                dl' ← call (FocalLoop._update_focal_scheme 1000);
                record (EvResample i);;
                modify (set_dataloader dl');;
                modify (set_use_grad true)
              else if (i mod 5 =? 4)%nat then
                modify (set_use_grad false)
              else mret tt) w1).2 in
  trace w' = trace w1 \/
  (evaluation_epoch i = true /\ trace w' = trace w1 ++ [EvResample i]).
Proof.
  unfold read_loss, emit, record, evaluation_epoch. run.
  destruct (procAvgLoss w1 !! i) as [v|]; run; [|left; reflexivity].
  destruct (i mod 5 =? 0)%nat.
  - run. destruct r as [dl'|x]; run; [right|left]; auto.
  - destruct (i mod 5 =? 4)%nat; left; reflexivity.
Qed.

Lemma next_epoch_mode a :
  negb (evaluation_epoch (S a)) =
    (if (a mod 5 =? 0)%nat then true
     else if (a mod 5 =? 4)%nat then false else negb (evaluation_epoch a)).
Proof.
  unfold evaluation_epoch.
  pose proof (Nat.div_mod_eq a 5) as Ha.
  pose proof (Nat.div_mod_eq (S a) 5) as Hs.
  pose proof (Nat.mod_upper_bound a 5) as Hua.
  pose proof (Nat.mod_upper_bound (S a) 5) as Hus.
  destruct (Nat.eqb_spec (a mod 5) 0), (Nat.eqb_spec (a mod 5) 4),
    (Nat.eqb_spec (S a mod 5) 0); cbn [negb]; try reflexivity; lia.
Qed.

(** One epoch of the focal loop started in the mode of the schedule. *)
Lemma focal_epoch_schedule a w :
  use_grad w = negb (evaluation_epoch a) ->
  scheduled (2 * a) (trace w) ->
  match FocalLoop.run_epoch a w with
  | (Ok _, w') =>
      use_grad w' = negb (evaluation_epoch (S a)) /\
      scheduled (2 * S a) (trace w')
  | (Raise _, w') => exists B, scheduled B (trace w')
  end.
Proof.
  intros Hmode Hsched. unfold FocalLoop.run_epoch.
  rewrite !run_bind_modify, run_bind_gets. norm. rewrite bind_unfold.
  pose proof (batch_loop_trace use_grad a _ (dataloader w) (focal_batch_spec a)
                (set_efficientBatchCnt 0 (set_batchCnt 0 w))) as Hloop.
  cbn zeta in Hloop. norm.
  destruct (for_each (dataloader w) (FocalLoop.process_batch a) _)
    as [[[]|x] w1]; cbn [snd] in Hloop;
    destruct Hloop as (_ & Hg1 & evs & Ht1 & Hevs);
    rewrite Hmode in Hevs; apply epoch_events_on_schedule in Hevs;
    destruct Hevs as [Hok Htime];
    assert (Hs1 : scheduled (S (2 * a)) (trace w1))
      by (rewrite Ht1; eapply scheduled_extend; eauto).
  2: { eauto. }
  rewrite bind_unfold. pose proof (div_loss_frame a w1) as [Ht2 Hg2].
  destruct (div_loss a w1) as [[[]|x] w2]; cbn [snd] in Ht2, Hg2.
  2: { exists (S (2 * a)). rewrite Ht2. exact Hs1. }
  rewrite <- Ht2 in Hs1.
  match goal with |- match ?tail w2 with _ => _ end =>
    pose proof (focal_epoch_end_trace a w2) as Hend;
    pose proof (focal_epoch_end_returns a w2) as Hret;
    cbv zeta in Hend;
    destruct (tail w2) as [[[]|x] w3] eqn:Htail
  end; try rewrite Htail in Hend; cbn [snd] in Hend.
  - destruct (Hret w3 eq_refl) as (_ & _ & Ht3 & Hg3).
    split.
    + rewrite Hg3, next_epoch_mode, Hg2, Hg1, Hmode. reflexivity.
    + rewrite Ht3. fold (evaluation_epoch a).
      destruct (evaluation_epoch a) eqn:Hev.
      * apply scheduled_weaken with (B := S (2 * a + 1)); [|lia].
        eapply scheduled_extend; [exact Hs1| | |lia].
        -- constructor; [exact Hev|constructor].
        -- constructor; [reflexivity|constructor].
      * rewrite app_nil_r. eapply scheduled_weaken; [exact Hs1|lia].
  - destruct Hend as [Ht3|[Hev Ht3]]; rewrite Ht3.
    + eauto.
    + exists (S (2 * a + 1)). eapply scheduled_extend; [exact Hs1| | |lia].
      * constructor; [exact Hev|constructor].
      * constructor; [reflexivity|constructor].
Qed.

Lemma focal_loop_schedule k : forall a w,
  use_grad w = negb (evaluation_epoch a) ->
  scheduled (2 * a) (trace w) ->
  exists B, scheduled B (trace (for_each (seq a k) FocalLoop.run_epoch w).2).
Proof.
  induction k as [|k IH]; intros a w Hmode Hsched; cbn [seq for_each].
  - eauto.
  - rewrite bind_unfold. pose proof (focal_epoch_schedule a w Hmode Hsched) as He.
    destruct (FocalLoop.run_epoch a w) as [[[]|x] w1].
    + destruct He as [Hmode1 Hsched1]. apply (IH (S a) w1 Hmode1 Hsched1).
    + exact He.
Qed.

(** The batch loop of an epoch when it runs to its end: one call per
    batch, in the mode of the epoch; mode and dataloader stay. *)
Lemma batch_loop_calls mode i body dl :
  batch_spec mode i body ->
  forall w w',
    for_each dl body w = (Ok tt, w') ->
    mode w' = mode w /\ use_grad w' = use_grad w /\ dataloader w' = dataloader w /\
    exists evs,
      trace w' = trace w ++ evs /\ length evs = length dl /\
      Forall (epoch_event i (mode w)) evs.
Proof.
  intros Hbody. induction dl as [|b dl IH]; intros w w' Hrun; cbn [for_each] in Hrun.
  - injection Hrun as <-. repeat split. exists []. rewrite app_nil_r. auto.
  - apply bind_ok_inv in Hrun. destruct Hrun as ([] & w1 & Hb & Hrun).
    specialize (Hbody b w). rewrite Hb in Hbody.
    destruct Hbody as (Hm & Hg & Hd & e & Ht & He & _).
    destruct (IH w1 w' Hrun) as (Hm' & Hg' & Hd' & evs & Ht' & Hlen & Hevs).
    rewrite Hm', Hg', Hd', Hm, Hg, Hd. repeat split.
    exists (e :: evs). rewrite Ht', Ht, <- app_assoc. split; [reflexivity|].
    split; [cbn; lia|]. constructor; [exact He|]. rewrite <- Hm. exact Hevs.
Qed.

(** The division touches the accumulator only. *)
Lemma div_loss_keeps i w :
  trace (div_loss i w).2 = trace w /\ use_grad (div_loss i w).2 = use_grad w /\
  dataloader (div_loss i w).2 = dataloader w /\ sys (div_loss i w).2 = sys w.
Proof.
  unfold div_loss. rewrite run_bind_gets.
  destruct (procAvgLoss w !! i) as [v|]; [|cbn; auto].
  rewrite run_bind_gets. unfold truediv.
  destruct (efficientBatchCnt w =? 0)%nat; cbn; auto.
Qed.

(** The code after the division in the focal loop, when it returns: what
    it does to the dataloader. *)
Lemma focal_epoch_end_rebuilds i w1 w' :
  (avg ← read_loss i;
   emit (MsgEpoch i avg);;
   if (i mod 5 =? 0)%nat then
     dl' ← call (FocalLoop._update_focal_scheme 1000);
     record (EvResample i);;
     modify (set_dataloader dl');;
     modify (set_use_grad true)
   else if (i mod 5 =? 4)%nat then
     modify (set_use_grad false)
   else mret tt) w1 = (Ok tt, w') ->
  if (i mod 5 =? 0)%nat then
    FocalLoop._update_focal_scheme 1000 (sys w1) = (Ok (dataloader w'), sys w')
  else dataloader w' = dataloader w1.
Proof.
  unfold read_loss, emit, record. run.
  destruct (procAvgLoss w1 !! i) as [v|]; run; [|discriminate].
  destruct (i mod 5 =? 0)%nat.
  - run. destruct r as [dl'|x]; [|discriminate]. run.
    intros Hr. inversion Hr; subst. cbn. reflexivity.
  - destruct (i mod 5 =? 4)%nat; intros Hr; inversion Hr; subst; reflexivity.
Qed.

(** An epoch of the focal loop that is started in the mode of the
    schedule and completes. *)
Lemma focal_epoch_on_schedule a w w' :
  use_grad w = negb (evaluation_epoch a) ->
  FocalLoop.run_epoch a w = (Ok tt, w') ->
  epoch_on_schedule a w w'.
Proof.
  intros Hmode Hrun. unfold FocalLoop.run_epoch in Hrun.
  rewrite !run_bind_modify, run_bind_gets in Hrun. norm.
  apply bind_ok_inv in Hrun. destruct Hrun as ([] & w1 & Hloop & Hrun).
  apply (batch_loop_calls use_grad a _ _ (focal_batch_spec a)) in Hloop.
  destruct Hloop as (_ & Hg1 & Hd1 & evs & Ht1 & Hlen & Hevs). norm.
  apply bind_ok_inv in Hrun. destruct Hrun as ([] & w2 & Hdiv & Hrun).
  pose proof (div_loss_keeps a w1) as (Ht2 & Hg2 & Hd2 & Hs2).
  rewrite Hdiv in Ht2, Hg2, Hd2, Hs2. cbn [snd] in Ht2, Hg2, Hd2, Hs2.
  pose proof (focal_epoch_end_rebuilds a w2 w' Hrun) as Hdl.
  apply focal_epoch_end_returns in Hrun. destruct Hrun as (_ & _ & Ht' & Hg').
  exists evs, (sys w2). split; [exact Hlen|].
  split; [rewrite <- Hmode; exact Hevs|].
  split.
  { rewrite next_epoch_mode, Hg', Hg2, Hg1, Hmode. reflexivity. }
  unfold evaluation_epoch. destruct (a mod 5 =? 0)%nat.
  - split; [rewrite Ht', Ht2, Ht1, <- app_assoc; reflexivity | exact Hdl].
  - split; [rewrite Ht', Ht2, Ht1, app_nil_r; reflexivity | congruence].
Qed.

(** C1, as the code has it.  The mode is switched at the end of an epoch
    and holds from the next one on.  In a run of the focal loop for any
    number of epochs, started with an empty trace and ended in any way:
    every [exec_multistep] call belongs to an epoch [i] with
    [i mod 5 = 0] and every [solve_multistep] call to an epoch with
    [i mod 5 <> 0]; the dataloader is rebuilt only in epochs with
    [i mod 5 = 0]; and the rebuilding of epoch [i] comes after all the
    calls of epoch [i] and before those of epoch [i + 1].  Every epoch
    that completes (every epoch before the first one that raises; all of
    them when the loop returns) has processed each batch of its
    dataloader, through [exec_multistep] when [i mod 5 = 0] and through
    [solve_multistep] otherwise; after the batches of an epoch with
    [i mod 5 = 0] the dataloader is the one that [_update_focal_scheme]
    has built, and gradient mode is set; after an epoch with
    [i mod 5 = 4] evaluation mode is set. *)
Theorem focal_loop_follows_the_schedule n w :
  let p := FocalLoop.training_loop n (set_trace [] w) in
  (Forall on_schedule (trace p.2) /\ in_time_order (trace p.2)) /\
  loop_outcome FocalLoop.run_epoch epoch_on_schedule n
    (set_procAvgLoss (replicate n Float64.zero)
       (set_use_grad false (set_trace [] w))) p.
Proof.
  unfold FocalLoop.training_loop. rewrite !run_bind_modify. cbn zeta. split.
  - unfold for_range.
    match goal with |- context [for_each _ _ ?w0] =>
      destruct (focal_loop_schedule n 0 w0) as (B & Hok & Hsorted & _)
    end.
    + reflexivity.
    + repeat split; constructor.
    + split; assumption.
  - apply (loop_outcome_for_range _
             (fun a v => use_grad v = negb (evaluation_epoch a))).
    + intros a v v1 _ Hmode Hrun.
      pose proof (focal_epoch_on_schedule a v v1 Hmode Hrun) as Hep.
      split; [exact Hep|]. destruct Hep as (_ & _ & _ & _ & Hnext & _).
      exact Hnext.
    + reflexivity.
Qed.

End ScheduleFacts.

(** ** The trajectory archive (C7) *)

Lemma post_for_each_ok {W A} (I : W -> Prop) (l : list A) (body : A -> Prog W unit) :
  (forall x, post I (body x) (fun _ => I) (fun _ => True)) ->
  post I (for_each l body) (fun _ => I) (fun _ => True).
Proof.
  intros Hbody. induction l as [|x l IH].
  - intros w Hw. exact Hw.
  - cbn [for_each]. eapply post_bind; [apply Hbody | intros u; exact IH].
Qed.

Lemma unchanged_bind {W V A B} (view : W -> V) (m : Prog W A) (k : A -> Prog W B) :
  unchanged view m -> (forall a, unchanged view (k a)) -> unchanged view (m ≫= k).
Proof.
  intros Hm Hk w. rewrite bind_unfold. specialize (Hm w).
  destruct (m w) as [[a|e] w1]; cbn [snd] in *; [rewrite Hk|]; exact Hm.
Qed.

Lemma unchanged_ret {W V A} (view : W -> V) (a : A) : unchanged view (mret a).
Proof. intros w. reflexivity. Qed.

Lemma unchanged_raise {W V A} (view : W -> V) e :
  unchanged view (raise e : Prog W A).
Proof. intros w. reflexivity. Qed.

Lemma unchanged_gets {W V A} (view : W -> V) (f : W -> A) : unchanged view (gets f).
Proof. intros w. reflexivity. Qed.

Lemma unchanged_modify {W V} (view : W -> V) (f : W -> W) :
  (forall w, view (f w) = view w) -> unchanged view (modify f).
Proof. intros Hf w. apply Hf. Qed.

Lemma unchanged_when {W V} (view : W -> V) c (m : Prog W unit) :
  unchanged view m -> unchanged view (when c m).
Proof. intros Hm. destruct c; [exact Hm | intros w; reflexivity]. Qed.

Lemma unchanged_for_each {W V A} (view : W -> V) (l : list A)
    (body : A -> Prog W unit) :
  (forall x, unchanged view (body x)) -> unchanged view (for_each l body).
Proof.
  intros Hb. induction l as [|x l IH]; [intros w; reflexivity|].
  cbn [for_each]. apply unchanged_bind; [apply Hb | intros _; exact IH].
Qed.

Lemma unchanged_post {W V A} (view : W -> V) (P : W -> Prop) (m : Prog W A) :
  (forall w w', view w' = view w -> P w -> P w') ->
  unchanged view m -> post P m (fun _ => P) (fun _ => True).
Proof.
  intros HP Hm w Hw. specialize (Hm w).
  destruct (m w) as [[a|e] w1]; cbn [snd] in Hm; [|exact I].
  eapply HP; eassumption.
Qed.

Section ArchiveFacts.
Import TrajOpt.
Context `{TaichiEnv} `{TrajLibs}.

Lemma unchanged_with_tape {V A} (view : World -> V) (body : Prog World A) :
  (forall f w, view (set_env f w) = view w) ->
  unchanged view body -> unchanged view (with_tape body).
Proof.
  intros Henv Hbody w. unfold with_tape.
  specialize (Hbody (set_env tape_enter w)).
  destruct (body (set_env tape_enter w)) as [r w1]. cbn [snd] in *.
  rewrite Henv, Hbody, Henv. reflexivity.
Qed.

Lemma unchanged_nd_len {V} (view : World -> V) a : unchanged view (nd_len a).
Proof. intros w. unfold nd_len. destruct (Nd.len a); reflexivity. Qed.

Lemma unchanged_nd_getitem {V} (view : World -> V) a i :
  unchanged view (nd_getitem a i).
Proof. intros w. unfold nd_getitem. destruct (Nd.row a i); reflexivity. Qed.

(** The gradient rollout touches neither. *)
Lemma forward_unchanged cfg st a :
  unchanged (fun w => (archive_view w, best_view w)) (forward cfg st a).
Proof.
  unfold forward, reset_logger.
  apply unchanged_bind; [apply unchanged_modify; reflexivity | intros _].
  apply unchanged_bind; [apply unchanged_modify; reflexivity | intros _].
  apply unchanged_bind; [apply unchanged_nd_len | intros n].
  apply unchanged_bind; [|intros _].
  - apply unchanged_with_tape; [reflexivity|].
    apply unchanged_for_each. intros i.
    apply unchanged_bind; [apply unchanged_nd_getitem | intros x].
    repeat (apply unchanged_bind; [apply unchanged_modify; reflexivity | intros _]).
    apply unchanged_modify. reflexivity.
  - apply unchanged_bind; [apply unchanged_gets | intros e]. apply unchanged_ret.
Qed.

Lemma run_callback_unchanged loss grads cb :
  unchanged (fun w => (archive_view w, best_view w)) (run_callback loss grads cb).
Proof.
  apply unchanged_modify. intros w.
  destruct (cb loss grads (optim w, env w)) as [o e]. reflexivity.
Qed.

Lemma optim_step_unchanged grads :
  unchanged (fun w => (archive_view w, best_view w))
    (modify (fun w => let '(a', o) := optim_step grads (optim w) in
                      set_actions a' (set_optim o w))).
Proof.
  apply unchanged_modify. intros w.
  destruct (optim_step grads (optim w)) as [a' o]. reflexivity.
Qed.

(** The archiving pass does not touch the best-so-far variables. *)
Lemma forward_nograd_unchanged cfg st a :
  unchanged best_view (forward_nograd cfg st a).
Proof.
  unfold forward_nograd, reset_logger, save_current_state.
  apply unchanged_bind; [apply unchanged_modify; reflexivity | intros _].
  apply unchanged_bind; [apply unchanged_modify; reflexivity | intros _].
  apply unchanged_bind; [apply unchanged_nd_len | intros n].
  apply unchanged_bind; [|intros _].
  - apply unchanged_for_each. intros i.
    apply unchanged_bind; [apply unchanged_modify; reflexivity | intros _].
    apply unchanged_bind; [apply unchanged_nd_getitem | intros x].
    repeat (apply unchanged_bind; [apply unchanged_modify; reflexivity | intros _]).
    apply unchanged_modify. reflexivity.
  - apply unchanged_bind.
    + destruct n; [apply unchanged_raise | apply unchanged_nd_getitem].
    + intros last.
      repeat (apply unchanged_bind; [apply unchanged_modify; reflexivity | intros _]).
      apply unchanged_modify. reflexivity.
Qed.

(** The loop of an archiving pass over the indices [l]. *)
Lemma archive_loop action l : forall w w',
  for_each l (archive_step action) w = (Ok tt, w') ->
  exists rows,
    action_buffer w' = action_buffer w ++ rows /\
    length rows = length l /\
    pc_cnt w' = (pc_cnt w + length l)%nat /\
    dom (state_files w') = dom (state_files w) ∪ set_seq (pc_cnt w) (length l).
Proof.
  induction l as [|i l IH]; intros w w' Hrun; cbn [for_each] in Hrun.
  - inversion Hrun; subst. exists []. cbn. rewrite app_nil_r, Nat.add_0_r.
    repeat split. set_solver.
  - apply bind_ok_inv in Hrun. destruct Hrun as ([] & w1 & Hstep & Hrest).
    unfold archive_step, save_current_state, nd_getitem in Hstep.
    rewrite run_bind_modify in Hstep.
    destruct (Nd.row action i) as [a|]; [|discriminate Hstep].
    rewrite run_bind_ret, !run_bind_modify in Hstep.
    inversion Hstep; subst w1. clear Hstep.
    destruct (IH _ _ Hrest) as (rows & Hbuf & Hlen & Hpc & Hdom).
    cbn in Hbuf, Hpc, Hdom. exists (a :: rows).
    rewrite Hbuf, <- app_assoc, Hpc, Hdom, dom_insert_L. cbn [length].
    repeat split; try lia. set_solver by lia.
Qed.

(** One archiving pass that returns. *)
Lemma archive_pass cfg st action w w' :
  forward_nograd cfg st action w = (Ok tt, w') ->
  exists n rows last,
    Nd.len action = Some n /\ length rows = n /\
    action_buffer w' = action_buffer w ++ rows ++ [Nd.zeros_like last] /\
    pc_cnt w' = (pc_cnt w + n + 1)%nat /\
    dom (state_files w') = dom (state_files w) ∪ set_seq (pc_cnt w) (n + 1).
Proof.
  unfold forward_nograd, reset_logger, nd_len. intros Hrun.
  rewrite !run_bind_modify in Hrun.
  destruct (Nd.len action) as [n|]; [|discriminate Hrun].
  rewrite run_bind_ret in Hrun.
  apply bind_ok_inv in Hrun. destruct Hrun as ([] & w1 & Hloop & Hrun).
  apply (archive_loop action) in Hloop.
  destruct Hloop as (rows & Hbuf & Hlen & Hpc & Hdom).
  rewrite length_seq in Hlen, Hpc, Hdom. cbn in Hbuf, Hpc, Hdom.
  destruct n as [|m]; [discriminate Hrun|].
  unfold nd_getitem, save_current_state in Hrun.
  destruct (Nd.row action m) as [last|]; [|discriminate Hrun].
  rewrite run_bind_ret, !run_bind_modify in Hrun.
  inversion Hrun; subst w'. clear Hrun.
  exists (S m), rows, last. cbn.
  rewrite Hbuf, Hpc, dom_insert_L, Hdom, <- app_assoc.
  repeat split; try lia. set_solver by lia.
Qed.

Lemma unchanged_fst {V1 V2 A} (v1 : World -> V1) (v2 : World -> V2)
    (m : Prog World A) :
  unchanged (fun w => (v1 w, v2 w)) m -> unchanged v1 m.
Proof. intros Hm w. specialize (Hm w). inversion Hm. reflexivity. Qed.

Lemma unchanged_snd {V1 V2 A} (v1 : World -> V1) (v2 : World -> V2)
    (m : Prog World A) :
  unchanged (fun w => (v1 w, v2 w)) m -> unchanged v2 m.
Proof. intros Hm w. specialize (Hm w). inversion Hm. reflexivity. Qed.

Lemma aligned_view F0 w w' :
  archive_view w' = archive_view w -> aligned F0 w -> aligned F0 w'.
Proof.
  unfold archive_view, aligned. intros Hv. inversion Hv as [[Hb Hp Hf]].
  rewrite Hb, Hp, Hf. auto.
Qed.

Lemma archive_pass_aligned F0 cfg st a :
  post (aligned F0) (forward_nograd cfg st a) (fun _ => aligned F0) (fun _ => True).
Proof.
  intros w [Hlen Hdom].
  destruct (forward_nograd cfg st a w) as [[[]|x] w'] eqn:Hrun; [|exact I].
  apply archive_pass in Hrun.
  destruct Hrun as (n & rows & last & _ & Hrows & Hbuf & Hpc & Hfiles).
  split.
  - rewrite Hbuf, Hpc, !length_app, Hlen, Hrows. cbn. lia.
  - rewrite Hfiles, Hdom, Hpc. set_solver by lia.
Qed.

(** An iteration of [solve] keeps snapshots and buffered actions aligned. *)
Lemma iteration_aligned F0 cfg st cbs iter :
  post (aligned F0) (iteration cfg st cbs iter) (fun _ => aligned F0)
    (fun _ => True).
Proof.
  assert (Hkeep : forall A (m : Prog World A),
             unchanged archive_view m ->
             post (aligned F0) m (fun _ => aligned F0) (fun _ => True)).
  { intros A m Hm. apply (unchanged_post archive_view); [apply aligned_view|exact Hm]. }
  unfold iteration.
  apply post_bind with (Q := fun _ => aligned F0);
    [apply Hkeep, unchanged_gets | intros a].
  apply post_bind with (Q := fun _ => aligned F0);
    [apply Hkeep, unchanged_modify; reflexivity | intros _].
  apply post_bind with (Q := fun _ => aligned F0);
    [apply Hkeep; eapply unchanged_fst, forward_unchanged | intros [loss grads]].
  apply post_bind with (Q := fun _ => aligned F0);
    [apply Hkeep, unchanged_modify; reflexivity | intros _].
  apply post_bind with (Q := fun _ => aligned F0);
    [apply Hkeep, unchanged_gets | intros bl].
  apply post_bind with (Q := fun _ => aligned F0).
  { apply Hkeep, unchanged_when.
    apply unchanged_bind; [|intros _]; apply unchanged_modify; reflexivity. }
  intros _. apply post_bind with (Q := fun _ => aligned F0);
    [apply Hkeep; eapply unchanged_fst, optim_step_unchanged | intros _].
  apply post_bind with (Q := fun _ => aligned F0).
  { apply Hkeep, unchanged_for_each. intros cb.
    eapply unchanged_fst, run_callback_unchanged. }
  intros _. apply post_bind with (Q := fun _ => aligned F0);
    [apply Hkeep, unchanged_gets | intros a'].
  apply post_bind with (Q := fun _ => aligned F0);
    [apply archive_pass_aligned | intros _].
  apply Hkeep, unchanged_modify. reflexivity.
Qed.

Lemma init_actions_files cfg w :
  state_files (init_actions cfg w).2 = state_files w.
Proof.
  unfold init_actions. rewrite run_bind_gets.
  destruct (String.eqb _ _); [|reflexivity].
  unfold lift. destruct (np_random_uniform _ _ _ _ _). reflexivity.
Qed.

(** C7.  When [solve] has completed, the array saved to [action.npy] has
    as many rows as state snapshots have been written: the snapshots are
    the files [0 .. len - 1], so that in an archive that was empty there
    are exactly [len] of them.  Each archiving pass that returns has
    appended the [n = len(action)] real actions and one trailing zero
    vector and written [n + 1] snapshots. *)
Theorem archive_counts_agree cfg init cbs w r w' :
  solve cfg init cbs w = (Ok r, w') ->
  (exists saved,
      action_file w' = Some saved /\
      dom (state_files w') = dom (state_files w) ∪ set_seq 0 (length saved) /\
      (state_files w = ∅ -> size (state_files w') = length saved)) /\
  (forall st a w1 w2,
      forward_nograd cfg st a w1 = (Ok tt, w2) ->
      exists n rows last,
        Nd.len a = Some n /\ length rows = n /\
        action_buffer w2 = action_buffer w1 ++ rows ++ [Nd.zeros_like last] /\
        pc_cnt w2 = (pc_cnt w1 + n + 1)%nat /\
        dom (state_files w2) =
          dom (state_files w1) ∪ set_seq (pc_cnt w1) (n + 1)).
Proof.
  intros Hrun. split; [|intros st a w1 w2; apply archive_pass].
  unfold solve in Hrun.
  apply bind_ok_inv in Hrun. destruct Hrun as (a0 & w0 & Hinit & Hrun).
  assert (Hf0 : state_files w0 = state_files w).
  { destruct init as [a|].
    - inversion Hinit; subst. reflexivity.
    - pose proof (init_actions_files cfg w) as Hf. rewrite Hinit in Hf. exact Hf. }
  apply bind_ok_inv in Hrun. destruct Hrun as (cls & w0' & Hcls & Hrun).
  assert (w0' = w0) as ->.
  { destruct (OPTIMS !! optim_type cfg); inversion Hcls; reflexivity. }
  rewrite run_bind_modify, run_bind_gets, !run_bind_modify in Hrun.
  apply bind_ok_inv in Hrun. destruct Hrun as ([] & w1 & Hloop & Hrun).
  rewrite run_bind_modify, run_bind_gets, run_bind_modify in Hrun.
  inversion Hrun; subst r w'. clear Hrun. cbn.
  unfold for_range in Hloop.
  match type of Hloop with for_each ?l (iteration _ ?st _) ?ws = _ =>
    pose proof (post_for_each_ok (aligned (dom (state_files w))) l _
                  (iteration_aligned _ cfg st cbs) ws) as Hpost
  end.
  rewrite Hloop in Hpost.
  destruct Hpost as [Hlen Hdom].
  { split; cbn; [reflexivity|]. rewrite Hf0. set_solver. }
  exists (action_buffer w1). split; [reflexivity|]. rewrite Hlen.
  split; [exact Hdom|]. intros Hempty.
  rewrite <- size_dom, Hdom, Hempty, dom_empty_L, (left_id_L ∅ (∪)).
  apply size_set_seq.
Qed.

End ArchiveFacts.

(** ** The best action sequence (C5) *)

Section BestFacts.
Import TrajOpt.
Context `{TaichiEnv} `{TrajLibs}.

(** What follows the comparison in an iteration does not touch the
    best-so-far variables. *)
Lemma iteration_tail_unchanged cfg st cbs iter loss grads :
  unchanged best_view
    (modify (fun w => let '(a', o) := optim_step grads (optim w) in
                      set_actions a' (set_optim o w));;
     for_each cbs (run_callback loss grads);;
     a' ← gets actions;
     forward_nograd cfg st a';;
     modify (set_printed (fun l => l ++ [(iter, loss)]))).
Proof.
  apply unchanged_bind; [eapply unchanged_snd, optim_step_unchanged | intros _].
  apply unchanged_bind; [|intros _].
  { apply unchanged_for_each. intros cb.
    eapply unchanged_snd, run_callback_unchanged. }
  apply unchanged_bind; [apply unchanged_gets | intros a'].
  apply unchanged_bind; [apply forward_nograd_unchanged | intros _].
  apply unchanged_modify. reflexivity.
Qed.

(** An iteration either leaves the best-so-far variables alone (the
    gradient rollout raised) or records one loss and compares it. *)
Lemma iteration_best cfg st cbs iter w :
  let w' := (iteration cfg st cbs iter w).2 in
  best_view w' = best_view w \/
  exists loss,
    evals w' = evals w ++ [(actions w, loss)] /\
    if Float64.ltb loss (best_loss w)
    then best_loss w' = loss /\ best_action w' = Some (actions w)
    else best_loss w' = best_loss w /\ best_action w' = best_action w.
Proof.
  unfold iteration. rewrite run_bind_gets, run_bind_modify, bind_unfold.
  pose proof (unchanged_snd _ _ _ (forward_unchanged cfg st (actions w))
                (set_params (Some (actions w)) w)) as Hfw.
  destruct (forward cfg st (actions w) _) as [[[loss grads]|x] w2];
    cbn [snd] in Hfw |- *; [|left; exact Hfw].
  right. exists loss. unfold best_view in Hfw. cbn in Hfw.
  injection Hfw as Hbl Hba Hev.
  rewrite run_bind_modify, run_bind_gets. cbn [best_loss set_evals].
  rewrite Hbl. unfold when.
  destruct (Float64.ltb loss (best_loss w)).
  - rewrite run_bind_assoc. do 2 rewrite run_bind_modify.
    match goal with |- context [(?tail ?w3).2] =>
      pose proof (iteration_tail_unchanged cfg st cbs iter loss grads w3) as Ht
    end.
    unfold best_view in Ht. cbn in Ht. injection Ht as Hbl' Hba' Hev'.
    rewrite Hbl', Hba', Hev', Hev. auto.
  - rewrite run_bind_ret'.
    match goal with |- context [(?tail ?w3).2] =>
      pose proof (iteration_tail_unchanged cfg st cbs iter loss grads w3) as Ht
    end.
    unfold best_view in Ht. cbn in Ht. injection Ht as Hbl' Hba' Hev'.
    rewrite Hbl', Hba', Hev', Hev, Hbl, Hba. auto.
Qed.

Lemma iteration_keeps_best cfg st cbs iter w :
  best_so_far w ->
  best_so_far (iteration cfg st cbs iter w).2 /\
  Float64.leb (best_loss (iteration cfg st cbs iter w).2) (best_loss w) = true.
Proof.
  intros (Hnan & Hle & Hmin & Hact).
  destruct (iteration_best cfg st cbs iter w) as [Hsame|(loss & Hev & Hcmp)].
  - unfold best_view in Hsame. injection Hsame as Hbl Hba Hev.
    unfold best_so_far. rewrite Hbl, Hba, Hev.
    split; [auto|]. apply leb_refl, Hnan.
  - destruct (Float64.ltb loss (best_loss w)) eqn:Hlt.
    + destruct Hcmp as [Hbl Hba]. unfold best_so_far. rewrite Hbl, Hba, Hev.
      assert (Hlt10 : Float64.ltb loss Float64.ten_billion = true)
        by (eapply ltb_leb_trans; eassumption).
      split; [|apply ltb_leb, Hlt]. split; [eapply ltb_not_nan_l, Hlt|].
      split; [apply ltb_leb, Hlt10|]. split.
      * intros a l Hin. apply elem_of_app in Hin. destruct Hin as [Hin|Hin].
        -- destruct (Float64.ltb l loss) eqn:Hl; [|reflexivity].
           rewrite <- (Hmin a l Hin). symmetry. eapply ltb_trans; eassumption.
        -- apply list_elem_of_singleton in Hin. injection Hin as -> ->.
           apply ltb_irrefl.
      * exists (length (evals w)), loss.
        split; [apply list_lookup_middle; reflexivity|].
        split; [reflexivity|]. split; [exact Hlt10|].
        intros k' a' l' Hk Hl'. rewrite lookup_app_l in Hl' by exact Hk.
        destruct (Float64.leb l' loss) eqn:Hle'; [|reflexivity].
        rewrite <- (Hmin a' l' (list_elem_of_lookup_2 _ _ _ Hl')).
        symmetry. eapply leb_ltb_trans; eassumption.
    + destruct Hcmp as [Hbl Hba]. unfold best_so_far. rewrite Hbl, Hba, Hev.
      split; [|apply leb_refl, Hnan]. split; [exact Hnan|]. split; [exact Hle|].
      split.
      * intros a l Hin. apply elem_of_app in Hin. destruct Hin as [Hin|Hin].
        -- apply (Hmin a l Hin).
        -- apply list_elem_of_singleton in Hin. injection Hin as -> ->. exact Hlt.
      * destruct (best_action w) as [a|]; [|exact Hact].
        destruct Hact as (k & l & Hk & Hl & Hl10 & Hfirst). exists k, l.
        assert (Hlen : (k < length (evals w))%nat) by (eapply lookup_lt_Some, Hk).
        split; [rewrite lookup_app_l by exact Hlen; exact Hk|].
        split; [exact Hl|]. split; [exact Hl10|].
        intros k' a' l' Hk' Hl'. rewrite lookup_app_l in Hl' by lia.
        eapply Hfirst; eassumption.
Qed.

Lemma loop_keeps_best cfg st cbs l : forall w,
  best_so_far w -> best_so_far (for_each l (iteration cfg st cbs) w).2.
Proof.
  induction l as [|i l IH]; intros w Hw; cbn [for_each]; [exact Hw|].
  rewrite bind_unfold.
  pose proof (proj1 (iteration_keeps_best cfg st cbs i w Hw)) as Hi.
  destruct (iteration cfg st cbs i w) as [[[]|x] w1]; cbn [snd] in *;
    [apply IH, Hi | exact Hi].
Qed.

Lemma start_best_so_far a w :
  best_so_far
    (set_evals (fun _ => [])
       (set_actions a
          (set_best_loss Float64.ten_billion (set_best_action None w)))).
Proof.
  unfold best_so_far. cbn. repeat split.
  intros a' l Hin. apply elem_of_nil in Hin. contradiction.
Qed.

(** C5, as the code has it.  [best_loss] never increases from one
    iteration to the next.  When [solve] returns an action sequence, it is
    the one that some iteration [k] has evaluated, its loss is below the
    initial [1e10], no iteration has evaluated a loss below it, and every
    earlier iteration has evaluated a loss that is not less than or equal
    to it (so that among iterations of equal loss the earliest is kept);
    when no evaluated loss is below [1e10] (there were no iterations, or
    every loss was larger or NaN), [solve] returns [None]. *)
Theorem best_action_is_kept cfg init cbs w :
  (forall st a k,
      let start :=
        set_evals (fun _ => [])
          (set_actions a
             (set_best_loss Float64.ten_billion (set_best_action None w))) in
      Float64.leb
        (best_loss (for_range (S k) (iteration cfg st cbs) start).2)
        (best_loss (for_range k (iteration cfg st cbs) start).2) = true) /\
  (forall r w',
      solve cfg init cbs w = (Ok r, w') ->
      match r with
      | Some a =>
          exists k l,
            evals w' !! k = Some (a, l) /\
            Float64.ltb l Float64.ten_billion = true /\
            (forall a' l', (a', l') ∈ evals w' -> Float64.ltb l' l = false) /\
            (forall k' a' l', (k' < k)%nat -> evals w' !! k' = Some (a', l') ->
                              Float64.leb l' l = false)
      | None =>
          forall a' l', (a', l') ∈ evals w' ->
                        Float64.ltb l' Float64.ten_billion = false
      end).
Proof.
  split.
  - intros st a k start. unfold for_range.
    rewrite seq_S, for_each_app, bind_unfold.
    pose proof (loop_keeps_best cfg st cbs (seq 0 k) start
                  (start_best_so_far a w)) as Hk.
    destruct (for_each (seq 0 k) (iteration cfg st cbs) start) as [[[]|x] wk];
      cbn [snd] in *.
    + cbn [for_each]. rewrite bind_unfold.
      pose proof (proj2 (iteration_keeps_best cfg st cbs (0 + k) wk Hk)) as Hstep.
      destruct (iteration cfg st cbs (0 + k) wk) as [[[]|y] w1]; exact Hstep.
    + apply leb_refl. apply Hk.
  - intros r w' Hrun. unfold solve in Hrun.
    apply bind_ok_inv in Hrun. destruct Hrun as (a0 & w0 & Hinit & Hrun).
    apply bind_ok_inv in Hrun. destruct Hrun as (cls & w0' & Hcls & Hrun).
    rewrite run_bind_modify, run_bind_gets, !run_bind_modify in Hrun.
    apply bind_ok_inv in Hrun. destruct Hrun as ([] & w1 & Hloop & Hrun).
    rewrite run_bind_modify, run_bind_gets, run_bind_modify in Hrun.
    inversion Hrun; subst r w'. clear Hrun. cbn.
    unfold for_range in Hloop.
    match type of Hloop with for_each ?l (iteration _ ?st _) ?ws = _ =>
      pose proof (loop_keeps_best cfg st cbs l ws) as Hbest
    end.
    rewrite Hloop in Hbest. cbn [snd] in Hbest.
    destruct Hbest as (Hnan & Hle & Hmin & Hact).
    { match goal with |- best_so_far (set_evals _ (set_actions ?a
          (set_best_loss _ (set_best_action None ?w2)))) =>
        apply (start_best_so_far a w2)
      end. }
    destruct (best_action w1) as [a|].
    + destruct Hact as (k & l & Hk & Hl & Hlt & Hfirst). exists k, l.
      split; [exact Hk|]. split; [exact Hlt|].
      split; [rewrite <- Hl; exact Hmin | exact Hfirst].
    + rewrite <- Hact. exact Hmin.
Qed.

End BestFacts.

(** ** The rollout length (C3) *)

Section RolloutFacts.
Context `{TaichiEnv} `{Oracles}.

Lemma getitem_heap l i (w : World) a w1 :
  getitem l i w = (Ok a, w1) ->
  w1 = w /\ forall v : World, heap v = heap w -> getitem l i v = (Ok a, v).
Proof.
  unfold getitem. intros Hg. apply bind_ok_inv in Hg.
  destruct Hg as (o & w2 & Hl & Hg). apply load_inv in Hl. destruct Hl as (-> & Hl).
  destruct o as [items|arr].
  - destruct (items !! i) as [x|] eqn:Hx; [|discriminate Hg].
    apply array_of_inv in Hg. destruct Hg as (-> & Hx').
    split; [reflexivity|]. intros v Hv.
    rewrite bind_unfold. unfold load at 1. rewrite Hv, Hl, Hx.
    unfold array_of. rewrite bind_unfold. unfold load. rewrite Hv, Hx'. reflexivity.
  - destruct (Nd.row arr i) as [r|] eqn:Hr; [|discriminate Hg].
    inversion Hg; subst. split; [reflexivity|]. intros v Hv.
    rewrite bind_unfold. unfold load. rewrite Hv, Hl, Hr. reflexivity.
Qed.

Lemma py_len_weaken l (w v : World) n :
  py_len l w = (Ok n, w) -> heap w ⊆ heap v -> py_len l v = (Ok n, v).
Proof.
  unfold py_len. intros Hn Hsub. apply bind_ok_inv in Hn.
  destruct Hn as (o & w2 & Hl & Hn). apply load_inv in Hl. destruct Hl as (-> & Hl).
  rewrite bind_unfold. unfold load.
  rewrite (lookup_weaken _ _ _ _ Hl Hsub).
  destruct o as [items|arr].
  - inversion Hn; subst. reflexivity.
  - destruct (Nd.len arr); [|discriminate Hn]. inversion Hn; subst. reflexivity.
Qed.

Lemma rollout_step_inv self targets actions i (w w' : World) :
  rollout_step self targets actions i w = (Ok tt, w') ->
  exists t a,
    getitem targets i w = (Ok t, w) /\ getitem actions i w = (Ok a, w) /\
    heap w' = heap w /\
    env w' = env_compute_loss false (decay_factor self)
               (env_step a (env_set_target t (env w))).
Proof.
  unfold rollout_step. intros Hs.
  apply bind_ok_inv in Hs. destruct Hs as (t & w1 & Ht & Hs).
  pose proof (getitem_heap _ _ _ _ _ Ht) as (-> & _).
  apply bind_ok_inv in Hs. destruct Hs as ([] & w1 & Hm & Hs).
  inversion Hm; subst w1; clear Hm.
  apply bind_ok_inv in Hs. destruct Hs as (a & w1 & Ha & Hs).
  pose proof (getitem_heap _ _ _ _ _ Ha) as (-> & Ha').
  apply bind_ok_inv in Hs. destruct Hs as ([] & w1 & Hm & Hs).
  inversion Hm; subst w1; clear Hm.
  inversion Hs; subst w'; clear Hs.
  exists t, a. split; [exact Ht|]. split; [apply Ha'; reflexivity|].
  split; reflexivity.
Qed.

Lemma rollout_loop_inv self targets actions k : forall a (w w' : World),
  for_each (seq a k) (rollout_step self targets actions) w = (Ok tt, w') ->
  heap w' = heap w /\
  exists pairs,
    length pairs = k /\
    (forall i p, pairs !! i = Some p ->
       getitem targets (a + i) w = (Ok p.1, w) /\
       getitem actions (a + i) w = (Ok p.2, w)) /\
    env w' = rollout_env self pairs (env w).
Proof.
  induction k as [|k IH]; intros a w w' Hl; cbn [seq for_each] in Hl.
  - inversion Hl; subst. split; [reflexivity|]. exists []. split; [reflexivity|].
    split; [|reflexivity]. intros i p Hp. rewrite lookup_nil in Hp. discriminate Hp.
  - apply bind_ok_inv in Hl. destruct Hl as ([] & w1 & Hs & Hl).
    apply rollout_step_inv in Hs. destruct Hs as (t & ac & Ht & Ha & Hh & He).
    apply IH in Hl. destruct Hl as (Hh' & pairs & Hlen & Hread & Henv).
    split; [congruence|]. exists ((t, ac) :: pairs).
    split; [cbn; congruence|]. split.
    + intros [|i] p Hp; cbn in Hp.
      * inversion Hp; subst p. rewrite Nat.add_0_r. auto.
      * destruct (Hread i p Hp) as (Hti & Hai).
        replace (a + S i)%nat with (S a + i)%nat by lia.
        apply getitem_heap in Hti, Hai.
        split; [apply (proj2 Hti) | apply (proj2 Hai)]; congruence.
    + cbn [rollout_env foldl]. rewrite Henv, He. reflexivity.
Qed.


Lemma env_load l : unchanged env (load l).
Proof. intros w. unfold load. destruct (heap w !! l); reflexivity. Qed.

Lemma env_array_of l : unchanged env (array_of l).
Proof.
  apply unchanged_bind; [apply env_load|].
  intros [items|a]; [apply unchanged_raise | apply unchanged_ret].
Qed.

Lemma env_alloc o : unchanged env (alloc o).
Proof. intros w. reflexivity. Qed.

Lemma env_deepcopy_items items : forall memo,
  unchanged env (deepcopy_items memo items).
Proof.
  induction items as [|l rest IH]; intros memo; cbn [deepcopy_items].
  - apply unchanged_ret.
  - destruct (memo !! l) as [l'|].
    + apply unchanged_bind; [apply IH|]. intros ls. apply unchanged_ret.
    + apply unchanged_bind; [apply env_array_of|]. intros a.
      apply unchanged_bind; [apply env_alloc|]. intros l'.
      apply unchanged_bind; [apply IH|]. intros ls. apply unchanged_ret.
Qed.

Lemma env_deepcopy l : unchanged env (deepcopy l).
Proof.
  apply unchanged_bind; [apply env_load|]. intros [items|a].
  - apply unchanged_bind; [apply env_deepcopy_items|]. intros items'.
    apply env_alloc.
  - apply env_alloc.
Qed.

Lemma env_list_setitem l i x : unchanged env (list_setitem l i x).
Proof.
  apply unchanged_bind; [apply env_load|]. intros [items|a].
  - destruct (i <? length items)%nat; [|apply unchanged_raise].
    intros w. reflexivity.
  - apply unchanged_raise.
Qed.

Lemma env_read_state l : unchanged env (read_state l).
Proof.
  apply unchanged_bind; [apply env_load|]. intros [items|a]; [|apply unchanged_raise].
  induction items as [|x items IH]; [apply unchanged_ret|].
  cbn [mapM]. apply unchanged_bind; [apply env_array_of|]. intros y.
  apply unchanged_bind; [exact IH|]. intros k. apply unchanged_ret.
Qed.

(** The substituted copy that the three rollouts make before [forward]:
    the caller's objects are kept and the simulator is not touched. *)
Lemma substituted_copy_inv state (x_hat : ndarray) (w : World) sh arr w1 w2 w3 :
  deepcopy state w = (Ok sh, w1) ->
  alloc (NdArray x_hat) w1 = (Ok arr, w2) ->
  list_setitem sh 0 arr w2 = (Ok tt, w3) ->
  heap w ⊆ heap w3 /\ env w3 = env w.
Proof.
  intros Hd Ha Hs.
  pose proof (deepcopy_keeps (heap w) state w (reflexivity _)) as Hk.
  rewrite Hd in Hk. destruct Hk as (Hk1 & Hnew).
  pose proof (alloc_keeps (heap w) (NdArray x_hat) w1 Hk1) as Hk2.
  rewrite Ha in Hk2. destruct Hk2 as (Hk2 & _).
  pose proof (list_setitem_keeps (heap w) sh 0 arr Hnew w2 Hk2) as Hk3.
  rewrite Hs in Hk3. split; [exact Hk3|].
  pose proof (env_deepcopy state w) as E1. rewrite Hd in E1.
  pose proof (env_alloc (NdArray x_hat) w1) as E2. rewrite Ha in E2.
  pose proof (env_list_setitem sh 0 arr w2) as E3. rewrite Hs in E3.
  cbn in E1, E2, E3. congruence.
Qed.

Lemma steps_read_from targets actions pairs (w v : World) :
  (forall i p, pairs !! i = Some p ->
     getitem targets (0 + i) w = (Ok p.1, w) /\
     getitem actions (0 + i) w = (Ok p.2, w)) ->
  heap v = heap w -> steps_read targets actions pairs v.
Proof.
  intros Hr Hv i p Hp. destruct (Hr i p Hp) as (Ht & Ha). cbn in Ht, Ha.
  apply getitem_heap in Ht, Ha. split; [apply (proj2 Ht) | apply (proj2 Ha)]; exact Hv.
Qed.

(** What a returning [forward] of [exec_multistep] has done. *)
Lemma forward_nograd_inv self state targets actions L (w0 w w' : World) r :
  py_len targets w0 = (Ok L, w0) -> heap w0 ⊆ heap w ->
  forward_nograd self state targets actions w = (Ok r, w') ->
  heap w' = heap w /\
  executed_steps self targets actions
    (Z.to_nat (effective_steps (steps self) (Z.of_nat L))) w w'.
Proof.
  intros HL Hsub Hf. unfold forward_nograd in Hf.
  apply bind_ok_inv in Hf. destruct Hf as (st & w1 & Hst & Hf).
  pose proof (silent_read_state state w) as Hh1. rewrite Hst in Hh1. cbn in Hh1.
  pose proof (env_read_state state w) as He1. rewrite Hst in He1. cbn in He1.
  apply bind_ok_inv in Hf. destruct Hf as ([] & w2 & Hm & Hf).
  inversion Hm; subst w2; clear Hm.
  apply bind_ok_inv in Hf. destruct Hf as (n & w2 & Hn & Hf).
  assert (Hn' : py_len targets (set_env (env_set_state st (softness self) false) w1)
                = (Ok L, set_env (env_set_state st (softness self) false) w1)).
  { apply (py_len_weaken _ _ _ _ HL). cbn. rewrite Hh1. exact Hsub. }
  rewrite Hn' in Hn. inversion Hn; subst n w2; clear Hn.
  cbn zeta in Hf.
  apply bind_ok_inv in Hf. destruct Hf as ([] & w2 & Hl & Hf).
  apply rollout_loop_inv in Hl. destruct Hl as (Hh2 & pairs & Hlen & Hread & Henv).
  inversion Hf; subst w'; clear Hf.
  split; [cbn in Hh2; congruence|].
  exists st, pairs. split; [exact Hlen|]. split.
  - eapply steps_read_from; [exact Hread | exact Hh2].
  - rewrite Henv. cbn. rewrite He1. reflexivity.
Qed.

Lemma with_tape_inv {A} (body : Prog World A) (w w' : World) r :
  with_tape body w = (Ok r, w') ->
  exists w1, body (set_env tape_enter w) = (Ok r, w1) /\ w' = set_env tape_exit w1.
Proof.
  unfold with_tape. destruct (body (set_env tape_enter w)) as [r1 w1].
  intros Hw. inversion Hw; subst. exists w1. auto.
Qed.

(** What a returning [forward] of [solve_multistep] has done. *)
Lemma forward_grad_inv self state targets actions L (w0 w w' : World) r :
  py_len targets w0 = (Ok L, w0) -> heap w0 ⊆ heap w ->
  forward_grad self state targets actions w = (Ok r, w') ->
  heap w' = heap w /\
  recorded_steps self targets actions
    (Z.to_nat (effective_steps (steps self) (Z.of_nat L))) w w'.
Proof.
  intros HL Hsub Hf. unfold forward_grad in Hf.
  apply bind_ok_inv in Hf. destruct Hf as (st & w1 & Hst & Hf).
  pose proof (silent_read_state state w) as Hh1. rewrite Hst in Hh1. cbn in Hh1.
  pose proof (env_read_state state w) as He1. rewrite Hst in He1. cbn in He1.
  apply bind_ok_inv in Hf. destruct Hf as ([] & w2 & Hm & Hf).
  inversion Hm; subst w2; clear Hm.
  apply bind_ok_inv in Hf. destruct Hf as (n & w2 & Hn & Hf).
  assert (Hn' : py_len targets (set_env (env_set_state st (softness self) false) w1)
                = (Ok L, set_env (env_set_state st (softness self) false) w1)).
  { apply (py_len_weaken _ _ _ _ HL). cbn. rewrite Hh1. exact Hsub. }
  rewrite Hn' in Hn. inversion Hn; subst n w2; clear Hn.
  cbn zeta in Hf.
  apply bind_ok_inv in Hf. destruct Hf as ([] & w2 & Ht & Hf).
  apply with_tape_inv in Ht. destruct Ht as (w3 & Ht & ->).
  apply bind_ok_inv in Ht. destruct Ht as ([] & w4 & Hl & Ht).
  apply rollout_loop_inv in Hl. destruct Hl as (Hh2 & pairs & Hlen & Hread & Henv).
  inversion Ht; subst w3; clear Ht.
  inversion Hf; subst w'; clear Hf.
  split; [cbn in *; congruence|].
  exists st, pairs. split; [exact Hlen|]. split.
  - eapply steps_read_from; [exact Hread | exact Hh2].
  - cbn. rewrite Henv. cbn. rewrite He1. reflexivity.
Qed.

Lemma steps_read_heap targets actions pairs (w v : World) :
  steps_read targets actions pairs w -> heap v = heap w ->
  steps_read targets actions pairs v.
Proof.
  intros Hr Hv. eapply steps_read_from; [|exact Hv]. exact Hr.
Qed.

Lemma focal_rollout_steps self state actions targets L (w w' : World) r :
  py_len targets w = (Ok L, w) ->
  Focal.rollout self state actions targets w = (Ok r, w') ->
  recorded_steps self targets actions
    (Z.to_nat (effective_steps (steps self) (Z.of_nat L))) w w'.
Proof.
  intros HL Hr. unfold Focal.rollout in Hr.
  apply bind_ok_inv in Hr. destruct Hr as (s0 & w1 & Hg & Hr).
  apply list_getitem_inv in Hg. destruct Hg as (-> & _).
  apply bind_ok_inv in Hr. destruct Hr as (x & w1 & Hx & Hr).
  apply array_of_inv in Hx. destruct Hx as (-> & _).
  cbn zeta in Hr.
  destruct (compute_emd x (model self (Nd.to_float32 x)) 3000) as [lf asg].
  apply bind_ok_inv in Hr. destruct Hr as (x_hat & w1 & Hro & Hr).
  unfold reorder in Hro. destruct (Nd.index_select _ _); [|discriminate Hro].
  inversion Hro; subst w1; clear Hro.
  apply bind_ok_inv in Hr. destruct Hr as (sh & w1 & Hd & Hr).
  apply bind_ok_inv in Hr. destruct Hr as (arr & w2 & Ha & Hr).
  apply bind_ok_inv in Hr. destruct Hr as ([] & w3 & Hs & Hr).
  destruct (substituted_copy_inv _ _ _ _ _ _ _ _ Hd Ha Hs) as (Hsub & Henv).
  apply bind_ok_inv in Hr. destruct Hr as ([loss [g g2]] & w4 & Hf & Hr).
  inversion Hr; subst w'; clear Hr.
  destruct (forward_grad_inv _ _ _ _ _ _ _ _ _ HL Hsub Hf) as (_ & st & pairs & Hlen & Hread & He).
  exists st, pairs. rewrite <- Henv. auto.
Qed.

Lemma learn_latent_rollout_steps self state actions targets L (w w' : World) r :
  py_len targets w = (Ok L, w) ->
  LearnLatent.rollout self state actions targets w = (Ok r, w') ->
  recorded_steps self targets actions
    (Z.to_nat (effective_steps (steps self) (Z.of_nat L))) w w'.
Proof.
  intros HL Hr. unfold LearnLatent.rollout in Hr.
  apply bind_ok_inv in Hr. destruct Hr as (s0 & w1 & Hg & Hr).
  apply list_getitem_inv in Hg. destruct Hg as (-> & _).
  apply bind_ok_inv in Hr. destruct Hr as (x & w1 & Hx & Hr).
  apply array_of_inv in Hx. destruct Hx as (-> & _).
  cbn zeta in Hr.
  apply bind_ok_inv in Hr. destruct Hr as (x_hat & w1 & Hro & Hr).
  unfold reorder in Hro. destruct (Nd.index_select _ _); [|discriminate Hro].
  inversion Hro; subst w1; clear Hro.
  apply bind_ok_inv in Hr. destruct Hr as (sh & w1 & Hd & Hr).
  apply bind_ok_inv in Hr. destruct Hr as (arr & w2 & Ha & Hr).
  apply bind_ok_inv in Hr. destruct Hr as ([] & w3 & Hs & Hr).
  destruct (substituted_copy_inv _ _ _ _ _ _ _ _ Hd Ha Hs) as (Hsub & Henv).
  apply bind_ok_inv in Hr. destruct Hr as ([loss [g g2]] & w4 & Hf & Hr).
  inversion Hr; subst w'; clear Hr.
  destruct (forward_grad_inv _ _ _ _ _ _ _ _ _ HL Hsub Hf) as (_ & st & pairs & Hlen & Hread & He).
  exists st, pairs. rewrite <- Henv. auto.
Qed.

Lemma focal_exec_steps self state actions targets L (w w' : World) r :
  py_len targets w = (Ok L, w) ->
  Focal.exec_multistep self state actions targets w = (Ok r, w') ->
  executed_steps self targets actions
    (Z.to_nat (effective_steps (steps self) (Z.of_nat L))) w w'.
Proof.
  intros HL Hr. unfold Focal.exec_multistep in Hr.
  apply bind_ok_inv in Hr. destruct Hr as (s0 & w1 & Hg & Hr).
  apply list_getitem_inv in Hg. destruct Hg as (-> & _).
  apply bind_ok_inv in Hr. destruct Hr as (x & w1 & Hx & Hr).
  apply array_of_inv in Hx. destruct Hx as (-> & _).
  cbn zeta in Hr.
  destruct (compute_emd x (model self (Nd.to_float32 x)) 3000) as [lf asg].
  apply bind_ok_inv in Hr. destruct Hr as (x_hat & w1 & Hro & Hr).
  unfold reorder in Hro. destruct (Nd.index_select _ _); [|discriminate Hro].
  inversion Hro; subst w1; clear Hro.
  apply bind_ok_inv in Hr. destruct Hr as (sh & w1 & Hd & Hr).
  apply bind_ok_inv in Hr. destruct Hr as (arr & w2 & Ha & Hr).
  apply bind_ok_inv in Hr. destruct Hr as ([] & w3 & Hs & Hr).
  destruct (substituted_copy_inv _ _ _ _ _ _ _ _ Hd Ha Hs) as (Hsub & Henv).
  apply bind_ok_inv in Hr. destruct Hr as (loss & w4 & Hf & Hr).
  inversion Hr; subst w'; clear Hr.
  destruct (forward_nograd_inv _ _ _ _ _ _ _ _ _ HL Hsub Hf) as (_ & st & pairs & Hlen & Hread & He).
  exists st, pairs. rewrite <- Henv. auto.
Qed.

Lemma recorded_steps_say self targets actions k (w w1 : World) s :
  recorded_steps self targets actions k w w1 ->
  recorded_steps self targets actions k w (say s w1).
Proof.
  intros (st & pairs & Hlen & Hread & He). exists st, pairs.
  split; [exact Hlen|]. split; [|exact He].
  eapply steps_read_heap; [exact Hread | reflexivity].
Qed.

(** C3.  For a solver with configured step count [s] and targets of
    length [L], the rollout length [effective_steps s L] is [L] when [s] is
    [None] or [s <= 0] and [min s L] when [s > 0], and is never above [L];
    and this is the number of steps the rollouts take: when
    [exec_multistep] returns, the simulator has been set to a state and has
    then run exactly that many steps, on the first targets and actions in
    order; when [solve_multistep] of either variant returns, the same has
    happened under the gradient tape, followed by [set_grad]. *)
Theorem effective_steps_spec self state actions targets (L : nat) (w : World) :
  py_len targets w = (Ok L, w) ->
  let k :=
    match steps self with
    | None => Z.of_nat L
    | Some s => if (s <=? 0)%Z then Z.of_nat L else Z.min s (Z.of_nat L)
    end in
  effective_steps (steps self) (Z.of_nat L) = k /\
  (k <= Z.of_nat L)%Z /\
  (forall r w',
      Focal.exec_multistep self state actions targets w = (Ok r, w') ->
      executed_steps self targets actions (Z.to_nat k) w w') /\
  (forall r w',
      Focal.solve_multistep self state actions targets w = (Ok r, w') ->
      recorded_steps self targets actions (Z.to_nat k) w w') /\
  (forall r w',
      LearnLatent.solve_multistep self state actions targets w = (Ok r, w') ->
      recorded_steps self targets actions (Z.to_nat k) w w').
Proof.
  intros HL k.
  assert (Hk : effective_steps (steps self) (Z.of_nat L) = k /\ (k <= Z.of_nat L)%Z).
  { unfold effective_steps, k. destruct (steps self) as [z|]; [|split; [reflexivity|lia]].
    destruct (Z.ltb_spec z (Z.of_nat L)), (Z.gtb_spec z 0), (Z.leb_spec z 0);
      cbn [andb]; split; lia. }
  destruct Hk as (Hk & Hle). split; [exact Hk|]. split; [exact Hle|].
  rewrite <- Hk. split; [|split].
  - intros r w' Hr. eapply focal_exec_steps; eassumption.
  - intros r w' Hs. apply focal_solve_inv in Hs.
    destruct Hs as (x_hat & lf & loss & g & w1 & Hr & [(_ & _ & ->)|(_ & _ & ->)]).
    + eapply focal_rollout_steps; eassumption.
    + apply recorded_steps_say. eapply focal_rollout_steps; eassumption.
  - intros r w' Hs. apply learn_latent_solve_inv in Hs.
    destruct Hs as (x_hat & loss & g & w1 & Hr & [(_ & _ & ->)|(_ & _ & ->)]).
    + eapply learn_latent_rollout_steps; eassumption.
    + apply recorded_steps_say. eapply learn_latent_rollout_steps; eassumption.
Qed.

End RolloutFacts.

(** ** The properties on concrete systems *)

Section Examples.
Import Example.

Lemma effective_steps_witness :
  @py_len sim 2 world0 = (Ok 2%nat, world0) /\
  effective_steps (steps one_step_solver) 2 = 1%Z /\
  @executed_steps sim one_step_solver 2 1 1 world0 stepped_once.2.
Proof.
  split; [reflexivity|]. split.
  - exact (proj1 (@effective_steps_spec sim oracles one_step_solver 0 1 2 2%nat world0
                    eq_refl)).
  - exact (proj1 (proj2 (proj2
             (@effective_steps_spec sim oracles one_step_solver 0 1 2 2%nat world0
                eq_refl))) stepped_once.1 stepped_once.2 eq_refl).
Defined.

Lemma nan_gate_witness :
(@Focal.solve_multistep sim oracles nan_solver 0 1 2 world0 =
   (Ok (None, None, Float64.one, two), say "NAN Detected" nan_world) /\
 @Focal.solve_multistep sim oracles plain_solver 0 1 2 world0 =
   (Ok (Some plain_decoded, Some unit_gradient, Float64.one, two), plain_world)) /\
(@LearnLatent.solve_multistep sim oracles nan_solver 0 1 2 world0 =
   (Ok (None, None, 0%Z, two), say "NAN Detected" nan_world) /\
 @LearnLatent.solve_multistep sim oracles plain_solver 0 1 2 world0 =
   (Ok (Some plain_decoded, Some unit_gradient, 0%Z, two), plain_world)).
Proof.
assert (Hnan : exists x, x ∈ data (Nd.clamp Float64.neg_one Float64.one nan_gradient)
                         /\ Float64.is_nan x = true).
{ exists S754_nan. split; [|reflexivity]. right. left. }
assert (Hplain : forall x, x ∈ data (Nd.clamp Float64.neg_one Float64.one plain_gradient)
                           -> Float64.is_nan x = false).
{ intros x Hx. apply list_elem_of_In in Hx. destruct Hx as [<-|[<-|[]]]; reflexivity. }
split; split.
- apply (proj1 (proj1 (@solve_multistep_nan_gate sim oracles nan_solver 0 1 2 world0)
                  nan_decoded Float64.one two nan_gradient nan_world eq_refl) Hnan).
- apply (proj2 (proj1 (@solve_multistep_nan_gate sim oracles plain_solver 0 1 2 world0)
                  plain_decoded Float64.one two plain_gradient plain_world eq_refl) Hplain).
- apply (proj1 (proj2 (@solve_multistep_nan_gate sim oracles nan_solver 0 1 2 world0)
                  nan_decoded two nan_gradient nan_world eq_refl) Hnan).
- apply (proj2 (proj2 (@solve_multistep_nan_gate sim oracles plain_solver 0 1 2 world0)
                  plain_decoded two plain_gradient plain_world eq_refl) Hplain).
Defined.

Lemma returned_gradient_witness :
  (forall x, x ∈ data unit_gradient ->
     Float64.leb Float64.neg_one x = true /\ Float64.leb x Float64.one = true) /\
  (forall x, x ∈ data unit_gradient ->
     Float64.leb Float64.neg_one x = true /\ Float64.leb x Float64.one = true).
Proof.
  split.
  - exact (proj1 (@returned_gradient_in_unit_interval sim oracles plain_solver 0 1 2
                    world0)
             (Some plain_decoded) unit_gradient Float64.one two plain_world eq_refl).
  - exact (proj2 (@returned_gradient_in_unit_interval sim oracles plain_solver 0 1 2
                    world0)
             (Some plain_decoded) unit_gradient 0%Z two plain_world eq_refl).
Defined.

Lemma loss_first_witness :
  (exists s0 items x,
      heap world0 !! 0 = Some (PyList (s0 :: items)) /\
      heap world0 !! s0 = Some (NdArray x) /\
      Float64.one = (@compute_emd oracles x (model plain_solver (Nd.to_float32 x)) 3000).1) /\
  0%Z = 0%Z.
Proof.
  split.
  - exact (proj1 (@loss_first_of_the_two_variants sim oracles plain_solver 0 1 2 world0)
             (Some plain_decoded, Some unit_gradient, Float64.one, two) plain_world
             eq_refl).
  - exact (proj2 (@loss_first_of_the_two_variants sim oracles plain_solver 0 1 2 world0)
             (Some plain_decoded, Some unit_gradient, 0%Z, two) plain_world eq_refl).
Defined.

Lemma all_nan_epoch_witness :
  ((@FocalLoop.run_epoch (runtime false) 0 (loop0 false 2 true 1)).1
     = Raise ZeroDivisionError /\
   efficientBatchCnt (@FocalLoop.run_epoch (runtime false) 0 (loop0 false 2 true 1)).2
     = 0) /\
  ((@LearnLatentLoop.run_epoch (runtime false) 0 (loop0 false 2 true 1)).1
     = Raise ZeroDivisionError /\
   efficientBatchCnt
     (@LearnLatentLoop.run_epoch (runtime false) 0 (loop0 false 2 true 1)).2 = 0).
Proof.
  assert (Hi : 0 < length (procAvgLoss (loop0 false 2 true 1))) by (cbn; lia).
  assert (Hnan : Forall (nan_sentinel_call 0)
                   [EvSolve 0 0 false Float64.one; EvSolve 0 1 false Float64.one]).
  { repeat constructor; eexists _, _; reflexivity. }
  split.
  - exact (proj1 (@all_nan_epoch_divides_by_zero (runtime false) 0
                    (loop0 false 2 true 1) Hi)
             _ _ [EvSolve 0 0 false Float64.one; EvSolve 0 1 false Float64.one]
             (surjective_pairing _) eq_refl eq_refl Hnan).
  - exact (proj2 (@all_nan_epoch_divides_by_zero (runtime false) 0
                    (loop0 false 2 true 1) Hi)
             _ _ [EvSolve 0 0 false Float64.one; EvSolve 0 1 false Float64.one]
             (surjective_pairing _) eq_refl eq_refl Hnan).
Defined.




Lemma epoch_average_as_worded_fails :
  @FocalLoop.run_epoch (runtime true) 0 (loop0 true 1 false 1) =
    (Ok tt, averaged_focal) /\
  trace averaged_focal =
    trace (loop0 true 1 false 1) ++ [EvExec 0 0 Float64.one; EvResample 0] /\
  procAvgLoss averaged_focal
    = [Float64.one] /\
  efficientBatchCnt averaged_focal
    = 1 /\
  usable_pair_losses [EvExec 0 0 Float64.one; EvResample 0] = [] /\
  ~ @average_as_worded (runtime true) 0 [EvExec 0 0 Float64.one; EvResample 0]
      averaged_focal.
Proof.
  repeat (split; [reflexivity|]).
  intros [Hcnt _]. discriminate Hcnt.
Qed.

Lemma focal_schedule_as_worded_fails :
  trace (@FocalLoop.training_loop (runtime true) 5
           (set_trace [] (loop0 true 1 false 0))).2 =
    [EvExec 0 0 Float64.one; EvResample 0; EvSolve 1 0 true Float64.one;
     EvSolve 2 0 true Float64.one; EvSolve 3 0 true Float64.one;
     EvSolve 4 0 true Float64.one] /\
  ~ schedule_as_worded (EvExec 0 0 Float64.one) /\
  ~ schedule_as_worded (EvSolve 4 0 true Float64.one).
Proof.
  split; [reflexivity|]. split; intros Hc; apply Hc; reflexivity.
Qed.

Lemma archive_counts_witness :
  (exists saved,
      TrajOpt.action_file solved_small = Some saved /\
      dom (TrajOpt.state_files solved_small) =
        dom (TrajOpt.state_files (traj0 small_actions)) ∪ set_seq 0 (length saved) /\
      (TrajOpt.state_files (traj0 small_actions) = ∅ ->
       size (TrajOpt.state_files solved_small) = length saved)) /\
  (exists n rows last,
      Nd.len small_actions = Some n /\ length rows = n /\
      TrajOpt.action_buffer archived_small =
        TrajOpt.action_buffer (traj0 small_actions) ++ rows ++ [Nd.zeros_like last] /\
      TrajOpt.pc_cnt archived_small = (TrajOpt.pc_cnt (traj0 small_actions) + n + 1)%nat /\
      dom (TrajOpt.state_files archived_small) =
        dom (TrajOpt.state_files (traj0 small_actions))
        ∪ set_seq (TrajOpt.pc_cnt (traj0 small_actions)) (n + 1)).
Proof.
  pose proof (@archive_counts_agree sim (libs small_actions) (config small_actions 2)
                (Some small_actions) [] (traj0 small_actions) (Some small_actions)
                solved_small eq_refl) as [Hsaved Hpass].
  split; [exact Hsaved|].
  exact (Hpass [] small_actions (traj0 small_actions) archived_small eq_refl).
Defined.

Lemma best_action_witness :
  exists k l,
    TrajOpt.evals solved_small !! k = Some (small_actions, l) /\
    Float64.ltb l Float64.ten_billion = true /\
    (forall a' l', (a', l') ∈ TrajOpt.evals solved_small -> Float64.ltb l' l = false) /\
    (forall k' a' l', (k' < k)%nat ->
       TrajOpt.evals solved_small !! k' = Some (a', l') -> Float64.leb l' l = false).
Proof.
  exact (proj2 (@best_action_is_kept sim (libs small_actions) (config small_actions 2)
                  (Some small_actions) [] (traj0 small_actions))
           (Some small_actions) solved_small eq_refl).
Defined.

Lemma returned_as_worded_fails :
  @TrajOpt.solve sim (libs huge_actions) (config huge_actions 1) (Some huge_actions)
    [] (traj0 huge_actions) = (Ok None, solved_huge) /\
  TrajOpt.evals solved_huge = [(huge_actions, twenty_billion)] /\
  ~ @returned_as_worded sim (libs huge_actions) None solved_huge.
Proof.
  split; [reflexivity|]. split; [reflexivity|].
  intros (a & l & Hr & _). discriminate Hr.
Qed.

End Examples.

(** * More properties *)

(** ** More on the rollout coordinator *)

Section CoordinatorFacts.
Context `{TaichiEnv} `{Oracles}.

Lemma silent_with_tape {A} (body : Prog World A) :
  heap_silent body -> heap_silent (with_tape body).
Proof.
  intros Hb w. unfold with_tape.
  specialize (Hb (set_env tape_enter w)).
  destruct (body (set_env tape_enter w)) as [r w']. cbn in *. exact Hb.
Qed.

Lemma silent_forward_grad self state targets actions :
  heap_silent (forward_grad self state targets actions).
Proof.
  unfold forward_grad.
  apply silent_bind; [apply silent_read_state | intros st].
  apply silent_bind; [apply silent_set_env | intros _].
  apply silent_bind; [apply silent_py_len | intros n].
  apply silent_bind; [|intros _].
  - apply silent_with_tape. apply silent_bind; [|intros _; apply silent_set_env].
    apply silent_for_each. intros i. apply silent_rollout_step.
  - apply silent_bind; [|intros e; apply silent_ret]. intros w. reflexivity.
Qed.

(** Decoding, reordering and substituting into a deep copy, as all three
    operations start: the caller's objects stay as they were, and what is
    run on the copy afterwards cannot reach them. *)
Lemma substituted_copy_keeps {A} h0 state (x_hat : ndarray)
    (rest : loc -> Prog World A) :
  (forall l, heap_silent (rest l)) ->
  post (keeps h0)
    (state_hat ← deepcopy state;
     arr ← alloc (NdArray (Nd.to_float64 x_hat));
     list_setitem state_hat 0 arr;;
     rest state_hat)
    (fun _ => keeps h0) (keeps h0).
Proof.
  intros Hrest.
  eapply post_bind; [apply deepcopy_keeps|]. intros state_hat.
  apply post_bind with (Q := fun _ w1 => keeps h0 w1 /\ h0 !! state_hat = None).
  { intros w1 [Hk Hs].
    pose proof (alloc_keeps h0 (NdArray (Nd.to_float64 x_hat)) w1 Hk) as Ha.
    destruct (alloc (NdArray (Nd.to_float64 x_hat)) w1) as [[l|e] w2]; [|exact Ha].
    split; [apply Ha | exact Hs]. }
  intros arr. apply post_bind with (Q := fun _ w1 => keeps h0 w1).
  { intros w1 [Hk Hs]. exact (list_setitem_keeps h0 state_hat 0 arr Hs w1 Hk). }
  intros _. apply silent_keeps, Hrest.
Qed.

Lemma first_frame_keeps h0 state :
  post (keeps h0) (s0 ← list_getitem state 0; array_of s0)
    (fun _ => keeps h0) (keeps h0).
Proof.
  apply silent_keeps. apply silent_bind; [|intros s0; apply silent_array_of].
  apply silent_bind; [apply silent_load|].
  intros [items|a]; [|apply silent_raise].
  destruct (items !! 0%nat); [apply silent_ret | apply silent_raise].
Qed.

Lemma reorder_keeps h0 x_hat asg :
  post (keeps h0) (reorder x_hat asg) (fun _ => keeps h0) (keeps h0).
Proof.
  apply silent_keeps. unfold reorder.
  destruct (Nd.index_select _ _); [apply silent_ret | apply silent_raise].
Qed.

Lemma focal_rollout_keeps h0 self state actions targets :
  post (keeps h0) (Focal.rollout self state actions targets)
    (fun _ => keeps h0) (keeps h0).
Proof.
  unfold Focal.rollout.
  eapply post_bind.
  { apply silent_keeps. apply silent_bind; [apply silent_load|].
    intros [items|a]; [|apply silent_raise].
    destruct (items !! 0%nat); [apply silent_ret | apply silent_raise]. }
  intros s0. eapply post_bind; [apply silent_keeps, silent_array_of|].
  intros x. cbn zeta.
  destruct (compute_emd x (model self (Nd.to_float32 x)) 3000) as [lf asg].
  eapply post_bind; [apply reorder_keeps|]. intros x_hat.
  apply (substituted_copy_keeps h0 state x_hat
           (fun state_hat =>
              '(loss, (x_hat_grad, _)) ← forward_grad self state_hat targets actions;
              mret (x_hat, lf, loss, x_hat_grad))).
  intros l. apply silent_bind; [apply silent_forward_grad|].
  intros [loss [g g']]. apply silent_ret.
Qed.

Lemma learn_latent_rollout_keeps h0 self state actions targets :
  post (keeps h0) (LearnLatent.rollout self state actions targets)
    (fun _ => keeps h0) (keeps h0).
Proof.
  unfold LearnLatent.rollout.
  eapply post_bind.
  { apply silent_keeps. apply silent_bind; [apply silent_load|].
    intros [items|a]; [|apply silent_raise].
    destruct (items !! 0%nat); [apply silent_ret | apply silent_raise]. }
  intros s0. eapply post_bind; [apply silent_keeps, silent_array_of|].
  intros x. cbn zeta.
  eapply post_bind; [apply reorder_keeps|]. intros x_hat.
  apply (substituted_copy_keeps h0 state x_hat
           (fun state_hat =>
              '(loss, (x_hat_grad, _)) ← forward_grad self state_hat targets actions;
              mret (x_hat, loss, x_hat_grad))).
  intros l. apply silent_bind; [apply silent_forward_grad|].
  intros [loss [g g']]. apply silent_ret.
Qed.

Lemma gate_keeps {A B} h0 (a b : A * B) :
  forall c : bool,
  post (keeps h0)
    (if c then mret a else msg "NAN Detected";; mret b)
    (fun _ => keeps h0) (keeps h0).
Proof.
  intros [|]; apply silent_keeps.
  - apply silent_ret.
  - apply silent_bind; [intros w; reflexivity | intros _; apply silent_ret].
Qed.

(** X1. [solve_multistep], in both variants, leaves every object of the
    caller's heap as it was, whether it returns, returns the NaN sentinel
    or raises: the final heap extends the initial one. *)
(** X1.  [solve_multistep], in both variants, leaves every object of the
    caller's heap as it was, whether it returns, returns the NaN sentinel
    or raises: the final heap extends the initial one. *)
Theorem solve_multistep_keeps_the_heap self state actions targets (w : World) :
  heap w ⊆ heap (Focal.solve_multistep self state actions targets w).2 /\
  heap w ⊆ heap (LearnLatent.solve_multistep self state actions targets w).2.
Proof.
  split.
  - assert (Hpost : post (keeps (heap w))
                      (Focal.solve_multistep self state actions targets)
                      (fun _ => keeps (heap w)) (keeps (heap w))).
    { unfold Focal.solve_multistep.
      eapply post_bind; [apply focal_rollout_keeps|].
      intros [[[x_hat lf] loss] g]. cbn zeta. apply gate_keeps. }
    specialize (Hpost w (reflexivity _)).
    destruct (Focal.solve_multistep self state actions targets w) as [[r|e] w'];
      exact Hpost.
  - assert (Hpost : post (keeps (heap w))
                      (LearnLatent.solve_multistep self state actions targets)
                      (fun _ => keeps (heap w)) (keeps (heap w))).
    { unfold LearnLatent.solve_multistep.
      eapply post_bind; [apply learn_latent_rollout_keeps|].
      intros [[x_hat loss] g]. cbn zeta. apply gate_keeps. }
    specialize (Hpost w (reflexivity _)).
    destruct (LearnLatent.solve_multistep self state actions targets w)
      as [[r|e] w']; exact Hpost.
Qed.

(** X2. With an empty [state] list, [state[0]] raises [IndexError] in
    [solve_multistep] (both variants) and in [exec_multistep]; nothing has
    been copied, decoded or sent to the simulator by then. *)
(** X2.  With an empty [state] list, [state[0]] raises [IndexError] in
    [solve_multistep] (both variants) and in [exec_multistep]; nothing has
    been copied, decoded or sent to the simulator by then: the world is
    the one the call started in. *)
Theorem empty_state_raises_IndexError self state actions targets (w : World) :
  heap w !! state = Some (PyList []) ->
  Focal.solve_multistep self state actions targets w = (Raise IndexError, w) /\
  Focal.exec_multistep self state actions targets w = (Raise IndexError, w) /\
  LearnLatent.solve_multistep self state actions targets w = (Raise IndexError, w).
Proof.
  intros Hs.
  assert (Hget : list_getitem state 0 w = (Raise IndexError, w)).
  { unfold list_getitem, load. rewrite bind_unfold. rewrite Hs. reflexivity. }
  unfold Focal.solve_multistep, Focal.exec_multistep, LearnLatent.solve_multistep,
    Focal.rollout, LearnLatent.rollout.
  repeat split.
  - rewrite bind_unfold. rewrite bind_unfold. rewrite Hget. reflexivity.
  - rewrite bind_unfold. rewrite Hget. reflexivity.
  - rewrite bind_unfold. rewrite bind_unfold. rewrite Hget. reflexivity.
Qed.

(** What a returning [exec_multistep] has read. *)
Lemma focal_exec_inv self state actions targets w r w' :
  Focal.exec_multistep self state actions targets w = (Ok r, w') ->
  exists s0 items x,
    heap w !! state = Some (PyList (s0 :: items)) /\
    heap w !! s0 = Some (NdArray x) /\
    r.1 = (compute_emd x (model self (Nd.to_float32 x)) 3000).1.
Proof.
  unfold Focal.exec_multistep. intros Hr.
  apply bind_ok_inv in Hr. destruct Hr as (s0 & w2 & Hget & Hr).
  apply list_getitem_inv in Hget. destruct Hget as (-> & items & Hstate & Hi).
  apply bind_ok_inv in Hr. destruct Hr as (x & w2 & Hx & Hr).
  apply array_of_inv in Hx. destruct Hx as (-> & Hs0).
  destruct items as [|s0' items]; [discriminate Hi|].
  cbn in Hi. inversion Hi; subst s0'.
  exists s0, items, x. split; [exact Hstate|]. split; [exact Hs0|].
  cbn zeta in Hr.
  destruct (compute_emd x (model self (Nd.to_float32 x)) 3000) as [d asg].
  inv_bind Hr. inversion Hr. reflexivity.
Qed.

Lemma focal_solve_first_frame self state actions targets w r w' :
  Focal.solve_multistep self state actions targets w = (Ok r, w') ->
  exists s0 items x,
    heap w !! state = Some (PyList (s0 :: items)) /\
    heap w !! s0 = Some (NdArray x) /\
    r.1.2 = (compute_emd x (model self (Nd.to_float32 x)) 3000).1.
Proof.
  intros Hs. apply focal_solve_inv in Hs.
  destruct Hs as (x_hat & lf & loss & g & w1 & Hr & Hcase).
  assert (Hlf : r.1.2 = lf).
  { destruct Hcase as [(_ & -> & _)|(_ & -> & _)]; reflexivity. }
  rewrite Hlf. clear Hcase Hlf. unfold Focal.rollout in Hr.
  apply bind_ok_inv in Hr. destruct Hr as (s0 & w2 & Hget & Hr).
  apply list_getitem_inv in Hget. destruct Hget as (-> & items & Hstate & Hi).
  apply bind_ok_inv in Hr. destruct Hr as (x & w2 & Hx & Hr).
  apply array_of_inv in Hx. destruct Hx as (-> & Hs0).
  destruct items as [|s0' items]; [discriminate Hi|].
  cbn in Hi. inversion Hi; subst s0'.
  exists s0, items, x. split; [exact Hstate|]. split; [exact Hs0|].
  cbn zeta in Hr.
  destruct (compute_emd x (model self (Nd.to_float32 x)) 3000) as [d asg].
  inv_bind Hr. destruct a3 as [loss' [g' rest]]. inversion Hr. reflexivity.
Qed.

(** X3. In the focal variant the first-frame distance depends on the
    solver and on [state[0]] only: [solve_multistep] and [exec_multistep]
    called on the same [state], with any actions and targets, return the
    same [loss_first]. *)
(** X3.  In the focal variant the first-frame distance depends on the
    solver and on [state[0]] only: [solve_multistep] and [exec_multistep]
    called on the same [state], with any actions and targets, return the
    same [loss_first]. *)
Theorem loss_first_is_shared self state actions targets actions' targets'
    (w : World) r w1 r' w2 :
  Focal.solve_multistep self state actions targets w = (Ok r, w1) ->
  Focal.exec_multistep self state actions' targets' w = (Ok r', w2) ->
  r.1.2 = r'.1.
Proof.
  intros Hsolve Hexec.
  apply focal_solve_first_frame in Hsolve.
  destruct Hsolve as (s0 & items & x & Hst & Hx & ->).
  apply focal_exec_inv in Hexec.
  destruct Hexec as (s0' & items' & x' & Hst' & Hx' & ->).
  rewrite Hst in Hst'. injection Hst' as <- <-.
  rewrite Hx in Hx'. injection Hx' as <-. reflexivity.
Qed.

End CoordinatorFacts.

Section SubstitutionFacts.
Context `{TaichiEnv} `{Oracles}.

Lemma arrays_at_weaken h h' ls vs :
  h ⊆ h' -> arrays_at h ls vs -> arrays_at h' ls vs.
Proof.
  intros Hsub Hf. eapply Forall2_impl; [exact Hf|]. intros l a Hl.
  cbn beta in *. eapply lookup_weaken; eassumption.
Qed.

Lemma array_of_at l a (w : World) :
  heap w !! l = Some (NdArray a) -> array_of l w = (Ok a, w).
Proof.
  intros Hl. unfold array_of, load. rewrite bind_unfold, Hl. reflexivity.
Qed.

Lemma mapM_array_of ls vs (w : World) :
  arrays_at (heap w) ls vs -> mapM array_of ls w = (Ok vs, w).
Proof.
  induction 1 as [|l a ls vs Hl _ IH]; [reflexivity|].
  cbn [mapM]. rewrite bind_unfold, (array_of_at _ _ _ Hl).
  rewrite bind_unfold, IH. reflexivity.
Qed.

Lemma read_state_at state items vs (w : World) :
  heap w !! state = Some (PyList items) -> arrays_at (heap w) items vs ->
  read_state state w = (Ok vs, w).
Proof.
  intros Hs Hvs. unfold read_state, load. rewrite bind_unfold, Hs.
  apply mapM_array_of, Hvs.
Qed.

Lemma mapM_array_of_inv ls : forall vs (w w' : World),
  mapM array_of ls w = (Ok vs, w') -> w' = w /\ arrays_at (heap w) ls vs.
Proof.
  induction ls as [|l ls IH]; intros vs w w' Hrun; cbn [mapM] in Hrun.
  - injection Hrun as <- <-. split; [reflexivity | constructor].
  - apply bind_ok_inv in Hrun. destruct Hrun as (a & w1 & Ha & Hrun).
    apply array_of_inv in Ha. destruct Ha as (-> & Hl).
    apply bind_ok_inv in Hrun. destruct Hrun as (vs' & w2 & Hrest & Hrun).
    apply IH in Hrest. destruct Hrest as (-> & Hvs).
    injection Hrun as <- <-. split; [reflexivity|]. constructor; assumption.
Qed.

Lemma read_state_inv state vs (w w' : World) :
  read_state state w = (Ok vs, w') ->
  w' = w /\ exists items,
    heap w !! state = Some (PyList items) /\ arrays_at (heap w) items vs.
Proof.
  unfold read_state. intros Hrun.
  apply bind_ok_inv in Hrun. destruct Hrun as (o & w1 & Hload & Hrun).
  apply load_inv in Hload. destruct Hload as (-> & Hs).
  destruct o as [items|a]; [|discriminate Hrun].
  apply mapM_array_of_inv in Hrun. destruct Hrun as (-> & Hvs).
  split; [reflexivity|]. exists items. auto.
Qed.

Lemma alloc_run o (w : World) :
  alloc o w = (Ok (fresh (dom (heap w))), set_heap <[fresh (dom (heap w)):=o]> w) /\
  heap w !! fresh (dom (heap w)) = None /\
  heap w ⊆ <[fresh (dom (heap w)):=o]> (heap w).
Proof.
  assert (Hfresh : heap w !! fresh (dom (heap w)) = None).
  { apply not_elem_of_dom, is_fresh. }
  split; [reflexivity|]. split; [exact Hfresh|].
  apply insert_subseteq. exact Hfresh.
Qed.

(** Copying the elements of a list of arrays succeeds and gives objects
    with the same values, next to the old objects. *)
Lemma deepcopy_items_runs items : forall vs memo (w : World),
  arrays_at (heap w) items vs -> memo_ok memo (heap w) ->
  exists ls w1,
    deepcopy_items memo items w = (Ok ls, w1) /\
    heap w ⊆ heap w1 /\ env w1 = env w /\ log w1 = log w /\
    arrays_at (heap w1) ls vs.
Proof.
  induction items as [|l items IH]; intros vs memo w Hvs Hmemo;
    cbn [deepcopy_items].
  - apply Forall2_nil_inv_l in Hvs. subst vs.
    exists [], w. repeat split; [reflexivity | constructor].
  - apply Forall2_cons_inv_l in Hvs. destruct Hvs as (a & vs' & Hl & Hvs & ->).
    destruct (memo !! l) as [l'|] eqn:Hm.
    + destruct (Hmemo l l' Hm) as (a' & Hl1 & Hl').
      rewrite Hl in Hl1. injection Hl1 as <-.
      destruct (IH vs' memo w Hvs Hmemo) as (ls & w1 & Hrun & Hsub & He & Hg & Hls).
      exists (l' :: ls), w1. rewrite bind_unfold, Hrun.
      repeat split; try assumption. constructor; [|exact Hls].
      eapply lookup_weaken; eassumption.
    + rewrite bind_unfold, (array_of_at _ _ _ Hl). rewrite bind_unfold.
      destruct (alloc_run (NdArray a) w) as (Hal & Hfresh & Hsub0).
      rewrite Hal. set (l' := fresh (dom (heap w))) in *.
      set (w0 := set_heap <[l':=NdArray a]> w) in *.
      assert (Hvs0 : arrays_at (heap w0) items vs').
      { eapply arrays_at_weaken; [exact Hsub0 | exact Hvs]. }
      assert (Hmemo0 : memo_ok (<[l:=l']> memo) (heap w0)).
      { intros k k' Hk. destruct (decide (k = l)) as [->|Hne].
        - rewrite lookup_insert_eq in Hk. injection Hk as <-. exists a. split.
          + eapply lookup_weaken; [exact Hl | exact Hsub0].
          + cbn. apply lookup_insert_eq.
        - rewrite lookup_insert_ne in Hk by congruence.
          destruct (Hmemo k k' Hk) as (b & Hb & Hb'). exists b.
          split; eapply lookup_weaken; try eassumption. }
      destruct (IH vs' _ w0 Hvs0 Hmemo0) as (ls & w1 & Hrun & Hsub & He & Hg & Hls).
      exists (l' :: ls), w1. rewrite bind_unfold, Hrun.
      split; [reflexivity|]. split; [etrans; eassumption|].
      split; [exact He|]. split; [exact Hg|]. constructor; [|exact Hls].
      eapply lookup_weaken; [|exact Hsub]. cbn. apply lookup_insert_eq.
Qed.

(** The deep copy with the new first frame: the copy is a new list whose
    first element is a new array with the value [v] and whose other
    elements have the values of the caller's frames; the caller's objects
    and the simulator are as they were. *)
Lemma substituted_copy_runs {A} state vs v (rest : loc -> Prog World A) (w : World) :
  read_state state w = (Ok vs, w) -> vs <> [] ->
  exists state_hat w1,
    heap w ⊆ heap w1 /\ env w1 = env w /\ log w1 = log w /\
    heap w !! state_hat = None /\
    read_state state_hat w1 = (Ok (v :: tail vs), w1) /\
    (state_hat ← deepcopy state;
     arr ← alloc (NdArray v);
     list_setitem state_hat 0 arr;;
     rest state_hat) w = rest state_hat w1.
Proof.
  intros Hread Hne. apply read_state_inv in Hread.
  destruct Hread as (_ & items & Hs & Hvs).
  destruct (deepcopy_items_runs items vs ∅ w Hvs) as (ls & w1 & Hcopy & Hsub1 & He1 & Hg1 & Hls).
  { intros l l' Hl. rewrite lookup_empty in Hl. discriminate Hl. }
  destruct (alloc_run (PyList ls) w1) as (Hal2 & Hfresh2 & Hsub2).
  set (sh := fresh (dom (heap w1))) in *.
  set (w2 := set_heap <[sh:=PyList ls]> w1) in *.
  destruct (alloc_run (NdArray v) w2) as (Hal3 & Hfresh3 & Hsub3).
  set (arr := fresh (dom (heap w2))) in *.
  set (w3 := set_heap <[arr:=NdArray v]> w2) in *.
  assert (Hsh2 : heap w2 !! sh = Some (PyList ls)) by apply lookup_insert_eq.
  assert (Hne_arr : arr <> sh).
  { intros E. rewrite E in Hfresh3. rewrite Hsh2 in Hfresh3. discriminate. }
  assert (Hsh3 : heap w3 !! sh = Some (PyList ls)).
  { cbn. rewrite lookup_insert_ne by exact Hne_arr. exact Hsh2. }
  destruct ls as [|l0 ls'].
  { apply Forall2_nil_inv_l in Hls. contradiction. }
  apply Forall2_cons_inv_l in Hls. destruct Hls as (v0 & vs' & _ & Hls' & ->).
  set (w4 := set_heap <[sh:=PyList (<[0%nat:=arr]> (l0 :: ls'))]> w3).
  assert (Hset : list_setitem sh 0 arr w3 = (Ok tt, w4)).
  { unfold list_setitem, load. rewrite bind_unfold, Hsh3. reflexivity. }
  assert (Hsub14 : heap w1 ⊆ heap w4).
  { cbn. apply insert_subseteq_r; [exact Hfresh2|].
    apply insert_subseteq_r.
    - eapply lookup_weaken_None; [exact Hfresh3 | exact Hsub2].
    - exact Hsub2. }
  exists sh, w4. split; [etrans; eassumption|].
  split; [exact He1|]. split; [exact Hg1|].
  split; [eapply lookup_weaken_None; [exact Hfresh2 | exact Hsub1]|].
  split.
  - apply (read_state_at sh (arr :: ls')).
    + cbn. apply lookup_insert_eq.
    + constructor.
      * cbn. rewrite lookup_insert_ne by congruence. apply lookup_insert_eq.
      * eapply arrays_at_weaken; [exact Hsub14 | exact Hls'].
  - unfold deepcopy, load. rewrite !run_bind_assoc. rewrite bind_unfold.
    rewrite Hs. rewrite !run_bind_assoc. rewrite bind_unfold, Hcopy.
    rewrite bind_unfold, Hal2. rewrite bind_unfold, Hal3.
    rewrite bind_unfold, Hset. reflexivity.
Qed.

(** X4.  When the [state] list holds the arrays [x :: rest] and the
    oracle's assignment indexes the decoded cloud, giving [x_hat]:
    [exec_multistep] is its rollout closure [forward] run on a new list
    [state_hat] whose arrays are [x_hat] as binary64 followed by the values
    of the caller's other frames, with [loss_first] put before the loss.
    Up to that rollout the caller's objects and the simulator are as they
    were. *)
Theorem exec_multistep_rolls_out_the_copy self state actions targets (w : World)
    x rest x_hat :
  read_state state w = (Ok (x :: rest), w) ->
  Nd.index_select (model self (Nd.to_float32 x))
    (compute_emd x (model self (Nd.to_float32 x)) 3000).2 = Some x_hat ->
  exists state_hat w1,
    heap w ⊆ heap w1 /\ env w1 = env w /\ heap w !! state_hat = None /\
    read_state state_hat w1 = (Ok (Nd.to_float64 x_hat :: rest), w1) /\
    Focal.exec_multistep self state actions targets w =
      with_loss_first (compute_emd x (model self (Nd.to_float32 x)) 3000).1
        (forward_nograd self state_hat targets actions w1).
Proof.
  intros Hread Hsel.
  destruct (substituted_copy_runs state (x :: rest) (Nd.to_float64 x_hat)
              (fun state_hat =>
                 loss ← forward_nograd self state_hat targets actions;
                 mret ((compute_emd x (model self (Nd.to_float32 x)) 3000).1, loss))
              w Hread) as (sh & w1 & Hsub & He & _ & Hnew & Hsh & Hrun);
    [discriminate|].
  exists sh, w1. repeat split; try assumption.
  apply read_state_inv in Hread. destruct Hread as (_ & items & Hs & Hvs).
  apply Forall2_cons_inv_r in Hvs. destruct Hvs as (s0 & items' & Hs0 & _ & ->).
  unfold Focal.exec_multistep, list_getitem, load.
  rewrite !run_bind_assoc, bind_unfold, Hs. cbn [lookup list_lookup].
  rewrite run_bind_ret, bind_unfold, (array_of_at _ _ _ Hs0). cbn zeta.
  destruct (compute_emd x (model self (Nd.to_float32 x)) 3000) as [lf asg] eqn:Eemd.
  cbn [fst snd] in *. unfold reorder. rewrite Hsel, run_bind_ret.
  rewrite Hrun. rewrite bind_unfold. unfold with_loss_first.
  destruct (forward_nograd self sh targets actions w1) as [[loss|e] w']; reflexivity.
Qed.

Lemma nd_row_some a n i :
  Nd.len a = Some n -> (i < n)%nat -> exists r, Nd.row a i = Some r.
Proof.
  unfold Nd.len, Nd.row. destruct (shape a) as [|d sh]; [discriminate|].
  cbn [head]. intros [= ->] Hi. apply Nat.ltb_lt in Hi. rewrite Hi. eauto.
Qed.

Lemma nd_row_none a n i :
  Nd.len a = Some n -> (n <= i)%nat -> Nd.row a i = None.
Proof.
  unfold Nd.len, Nd.row. destruct (shape a) as [|d sh]; [discriminate|].
  cbn [head]. intros [= ->] Hi. apply Nat.ltb_ge in Hi. rewrite Hi. reflexivity.
Qed.

Lemma getitem_row l a i (w : World) :
  heap w !! l = Some (NdArray a) ->
  getitem l i w =
    (match Nd.row a i with Some r => Ok r | None => Raise IndexError end, w).
Proof.
  intros Hl. unfold getitem, load. rewrite bind_unfold, Hl.
  destruct (Nd.row a i); reflexivity.
Qed.

(** A rollout loop that asks for more steps than there are actions stops
    with [IndexError] at the first missing action. *)
Lemma rollout_runs_out_of_actions self targets actions ta aa n m k : forall j (w : World),
  heap w !! targets = Some (NdArray ta) -> heap w !! actions = Some (NdArray aa) ->
  Nd.len ta = Some n -> Nd.len aa = Some m ->
  (j <= m)%nat -> (m < j + k)%nat -> (j + k <= n)%nat ->
  exists w',
    for_each (seq j k) (rollout_step self targets actions) w = (Raise IndexError, w') /\
    heap w' = heap w.
Proof.
  induction k as [|k IH]; intros j w Ht Ha Hn Hm Hj Hk Hjk; [lia|].
  cbn [seq for_each]. rewrite bind_unfold. unfold rollout_step at 1.
  destruct (nd_row_some ta n j Hn ltac:(lia)) as [t Hrow].
  rewrite bind_unfold, (getitem_row _ _ _ _ Ht), Hrow, run_bind_modify.
  rewrite bind_unfold.
  rewrite (getitem_row actions aa j); [|exact Ha].
  destruct (Nat.eq_dec j m) as [->|Hne].
  - rewrite (nd_row_none aa m m Hm (Nat.le_refl m)). eexists. split; reflexivity.
  - destruct (nd_row_some aa m j Hm ltac:(lia)) as [r Hr]. rewrite Hr.
    rewrite !run_bind_modify. unfold modify. cbv beta iota.
    match goal with |- context [for_each _ _ ?w2] =>
      destruct (IH (S j) w2) as (w' & Hrun & Hheap); try assumption; try lia
    end.
    exists w'. rewrite Hrun. split; [reflexivity | exact Hheap].
Qed.

(** X6.  When the actions array has fewer rows than the rollout has
    steps, [exec_multistep] raises [IndexError] (at the first missing
    [actions[i]]); the caller's objects are as they were. *)
Theorem exec_multistep_needs_an_action_per_step self state actions targets
    (w : World) x rest x_hat ta aa n m :
  read_state state w = (Ok (x :: rest), w) ->
  Nd.index_select (model self (Nd.to_float32 x))
    (compute_emd x (model self (Nd.to_float32 x)) 3000).2 = Some x_hat ->
  heap w !! targets = Some (NdArray ta) -> Nd.len ta = Some n ->
  heap w !! actions = Some (NdArray aa) -> Nd.len aa = Some m ->
  (m < Z.to_nat (effective_steps (steps self) (Z.of_nat n)))%nat ->
  (Focal.exec_multistep self state actions targets w).1 = Raise IndexError /\
  heap w ⊆ heap (Focal.exec_multistep self state actions targets w).2.
Proof.
  intros Hread Hsel Ht Hn Ha Hm Hshort.
  destruct (substituted_copy_runs state (x :: rest) (Nd.to_float64 x_hat)
              (fun state_hat =>
                 loss ← forward_nograd self state_hat targets actions;
                 mret ((compute_emd x (model self (Nd.to_float32 x)) 3000).1, loss))
              w Hread) as (sh & w1 & Hsub & He & _ & Hnew & Hsh & Hrun);
    [discriminate|].
  apply read_state_inv in Hread. destruct Hread as (_ & items & Hs & Hvs).
  apply Forall2_cons_inv_r in Hvs. destruct Hvs as (s0 & items' & Hs0 & _ & ->).
  assert (Hexec : Focal.exec_multistep self state actions targets w =
            with_loss_first (compute_emd x (model self (Nd.to_float32 x)) 3000).1
              (forward_nograd self sh targets actions w1)).
  { unfold Focal.exec_multistep, list_getitem, load.
    rewrite !run_bind_assoc, bind_unfold, Hs. cbn [lookup list_lookup].
    rewrite run_bind_ret, bind_unfold, (array_of_at _ _ _ Hs0). cbn zeta.
    destruct (compute_emd x (model self (Nd.to_float32 x)) 3000) as [lf asg] eqn:Eemd.
    cbn [fst snd] in *. unfold reorder. rewrite Hsel, run_bind_ret.
    rewrite Hrun. rewrite bind_unfold. unfold with_loss_first.
    destruct (forward_nograd self sh targets actions w1) as [[loss|e] w']; reflexivity. }
  rewrite Hexec. clear Hexec Hrun.
  assert (Ht1 : heap w1 !! targets = Some (NdArray ta))
    by (eapply lookup_weaken; eassumption).
  assert (Ha1 : heap w1 !! actions = Some (NdArray aa))
    by (eapply lookup_weaken; eassumption).
  assert (Hle : (Z.to_nat (effective_steps (steps self) (Z.of_nat n)) <= n)%nat).
  { unfold effective_steps. destruct (steps self) as [z|]; [|lia].
    destruct (z <? Z.of_nat n)%Z eqn:E1; cbn [andb]; [|lia].
    destruct (z >? 0)%Z; lia. }
  unfold forward_nograd. rewrite bind_unfold, Hsh, run_bind_modify.
  unfold py_len, load. rewrite !run_bind_assoc, bind_unfold. cbn [heap set_env].
  rewrite Ht1, Hn, run_bind_ret. cbn zeta. unfold for_range.
  match goal with |- context [(for_each (seq 0 ?k) _ ≫= _) ?w2] =>
    destruct (rollout_runs_out_of_actions self targets actions ta aa n m k 0%nat w2)
      as (w' & Hloop & Hheap); try assumption; try lia
  end.
  rewrite bind_unfold, Hloop. cbn. rewrite Hheap. split; [reflexivity | exact Hsub].
Qed.

End SubstitutionFacts.

Section SubstitutionFacts2.
Context `{TaichiEnv} `{Oracles}.

(** X5.  The same for lines 99-106 of [solve_multistep], in both
    variants: the gradient rollout is run on a new list whose arrays are
    the decoded and reordered cloud as binary64 followed by the values of
    the caller's other frames; the assignment comes from [compute_emd] in
    the focal variant and from [solve_icp] in [learn_latent]. *)
Theorem solve_multistep_rolls_out_the_copy self state actions targets (w : World)
    x rest x_hat :
  read_state state w = (Ok (x :: rest), w) ->
  (Nd.index_select (model self (Nd.to_float32 x))
     (compute_emd x (model self (Nd.to_float32 x)) 3000).2 = Some x_hat ->
   exists state_hat w1,
     heap w ⊆ heap w1 /\ env w1 = env w /\ heap w !! state_hat = None /\
     read_state state_hat w1 = (Ok (Nd.to_float64 x_hat :: rest), w1) /\
     Focal.rollout self state actions targets w =
       with_decoded
         (fun loss g =>
            (x_hat, (compute_emd x (model self (Nd.to_float32 x)) 3000).1, loss, g))
         (forward_grad self state_hat targets actions w1)) /\
  (Nd.index_select (model self (Nd.to_float32 x))
     (solve_icp (model self (Nd.to_float32 x)) x 3000) = Some x_hat ->
   exists state_hat w1,
     heap w ⊆ heap w1 /\ env w1 = env w /\ heap w !! state_hat = None /\
     read_state state_hat w1 = (Ok (Nd.to_float64 x_hat :: rest), w1) /\
     LearnLatent.rollout self state actions targets w =
       with_decoded (fun loss g => (x_hat, loss, g))
         (forward_grad self state_hat targets actions w1)).
Proof.
  intros Hread.
  pose proof Hread as Hread'.
  apply read_state_inv in Hread'. destruct Hread' as (_ & items & Hs & Hvs).
  apply Forall2_cons_inv_r in Hvs. destruct Hvs as (s0 & items' & Hs0 & _ & ->).
  split; intros Hsel.
  - destruct (substituted_copy_runs state (x :: rest) (Nd.to_float64 x_hat)
                (fun state_hat =>
                   '(loss, (x_hat_grad, _)) ←
                     forward_grad self state_hat targets actions;
                   mret (x_hat,
                         (compute_emd x (model self (Nd.to_float32 x)) 3000).1,
                         loss, x_hat_grad))
                w Hread) as (sh & w1 & Hsub & He & _ & Hnew & Hsh & Hrun);
      [discriminate|].
    exists sh, w1. repeat split; try assumption.
    unfold Focal.rollout, list_getitem, load.
    rewrite !run_bind_assoc, bind_unfold, Hs. cbn [lookup list_lookup].
    rewrite run_bind_ret, bind_unfold, (array_of_at _ _ _ Hs0). cbn zeta.
    destruct (compute_emd x (model self (Nd.to_float32 x)) 3000) as [lf asg] eqn:Eemd.
    cbn [fst snd] in *. unfold reorder. rewrite Hsel, run_bind_ret.
    rewrite Hrun. rewrite bind_unfold. unfold with_decoded.
    destruct (forward_grad self sh targets actions w1) as [[[loss [g g']]|e] w'];
      reflexivity.
  - destruct (substituted_copy_runs state (x :: rest) (Nd.to_float64 x_hat)
                (fun state_hat =>
                   '(loss, (x_hat_grad, _)) ←
                     forward_grad self state_hat targets actions;
                   mret (x_hat, loss, x_hat_grad))
                w Hread) as (sh & w1 & Hsub & He & _ & Hnew & Hsh & Hrun);
      [discriminate|].
    exists sh, w1. repeat split; try assumption.
    unfold LearnLatent.rollout, list_getitem, load.
    rewrite !run_bind_assoc, bind_unfold, Hs. cbn [lookup list_lookup].
    rewrite run_bind_ret, bind_unfold, (array_of_at _ _ _ Hs0). cbn zeta.
    unfold reorder. rewrite Hsel, run_bind_ret.
    rewrite Hrun. rewrite bind_unfold. unfold with_decoded.
    destruct (forward_grad self sh targets actions w1) as [[[loss [g g']]|e] w'];
      reflexivity.
Qed.

End SubstitutionFacts2.

(** ** More on the training loops *)

Section LoopFrames.
Context `{Runtime}.

Lemma unchanged_call {V A} (view : Loop -> V) (m : Prog Sys A) :
  (forall s w, view (set_sys s w) = view w) -> unchanged view (call m).
Proof.
  intros Hv w. unfold call. destruct (m (sys w)) as [r s]. apply Hv.
Qed.

Lemma unchanged_truediv {V} (view : Loop -> V) x n :
  unchanged view (truediv x n).
Proof. intros w. unfold truediv. destruct (n =? 0)%nat; reflexivity. Qed.

Lemma unchanged_add_loss {V} (view : Loop -> V) i x :
  (forall l w, length l = length (procAvgLoss w) ->
               view (set_procAvgLoss l w) = view w) ->
  unchanged view (add_loss i x).
Proof.
  intros Hv w. unfold add_loss. rewrite run_bind_gets.
  destruct (procAvgLoss w !! i); [|reflexivity].
  cbn. apply Hv. apply length_insert.
Qed.

Lemma unchanged_div_loss {V} (view : Loop -> V) i :
  (forall l w, length l = length (procAvgLoss w) ->
               view (set_procAvgLoss l w) = view w) ->
  unchanged view (div_loss i).
Proof.
  intros Hv w. unfold div_loss. rewrite run_bind_gets.
  destruct (procAvgLoss w !! i); [|reflexivity].
  rewrite run_bind_gets. unfold truediv.
  destruct (efficientBatchCnt w =? 0)%nat; [reflexivity|].
  rewrite run_bind_ret. cbn. apply Hv. apply length_insert.
Qed.

Lemma unchanged_read_loss {V} (view : Loop -> V) i : unchanged view (read_loss i).
Proof.
  intros w. unfold read_loss. rewrite run_bind_gets.
  destruct (procAvgLoss w !! i); reflexivity.
Qed.

End LoopFrames.

Ltac frame_side :=
  intros; cbn; first [reflexivity | congruence | f_equal; congruence].

Ltac loop_frame :=
  repeat first
    [ apply unchanged_ret | apply unchanged_raise | apply unchanged_gets
    | apply unchanged_truediv | apply unchanged_read_loss
    | apply unchanged_add_loss; frame_side
    | apply unchanged_div_loss; frame_side
    | apply unchanged_modify; reflexivity
    | apply unchanged_call; reflexivity
    | apply unchanged_when
    | apply unchanged_for_each; intros ?
    | match goal with
      | |- unchanged _ (let '(_, _) := ?x in _) => destruct x
      | |- unchanged _ (if ?c then _ else _) => destruct c
      end
    | apply unchanged_bind; [|intros ?] ].

Section LoopFacts.
Context `{Runtime}.

(** What the loops keep, whatever happens: the number of entries of
    [procAvgLoss]; in [learn_latent] also the dataloader. *)
Lemma focal_batch_entries i b :
  unchanged (fun w => length (procAvgLoss w)) (FocalLoop.process_batch i b).
Proof.
  unfold FocalLoop.process_batch, ext, ext_, emit, record. loop_frame.
Qed.


Lemma learn_latent_batch_entries i b :
  unchanged (fun w => (length (procAvgLoss w), dataloader w))
    (LearnLatentLoop.process_batch i b).
Proof.
  unfold LearnLatentLoop.process_batch, ext, ext_, emit, record. loop_frame.
Qed.

Lemma learn_latent_epoch_entries i :
  unchanged (fun w => (length (procAvgLoss w), dataloader w))
    (LearnLatentLoop.run_epoch i).
Proof.
  unfold LearnLatentLoop.run_epoch, ext, ext_, emit, record. loop_frame.
Qed.



Lemma learn_latent_training_entries n w :
  length (procAvgLoss (LearnLatentLoop.training_loop n w).2) = n /\
  dataloader (LearnLatentLoop.training_loop n w).2 = dataloader w.
Proof.
  unfold LearnLatentLoop.training_loop. rewrite !run_bind_modify. unfold for_range.
  pose proof (unchanged_for_each (fun w => (length (procAvgLoss w), dataloader w))
                (seq 0 n) LearnLatentLoop.run_epoch learn_latent_epoch_entries) as Hl.
  match goal with |- context [for_each _ _ ?w0] => specialize (Hl w0) end.
  cbn in Hl. injection Hl as Hl Hd. rewrite Hl, Hd. split; [|reflexivity].
  apply length_replicate.
Qed.


(** *** How often the focal loop rebuilds its dataloader *)

Lemma resamples_app t1 t2 : resamples (t1 ++ t2) = resamples t1 ++ resamples t2.
Proof. unfold resamples. apply omap_app. Qed.

Lemma epoch_events_resamples i g evs :
  Forall (epoch_event i g) evs -> resamples evs = [].
Proof.
  induction 1 as [|e evs He _ IH]; [reflexivity|].
  unfold resamples in *. cbn. destruct e; cbn in *; tauto.
Qed.

(** An epoch of the focal loop that completes rebuilds the dataloader
    once when [i mod 5 = 0] and not at all otherwise. *)
Lemma focal_epoch_resamples i w w' :
  FocalLoop.run_epoch i w = (Ok tt, w') ->
  resamples (trace w') =
    resamples (trace w) ++ (if (i mod 5 =? 0)%nat then [i] else []).
Proof.
  unfold FocalLoop.run_epoch. rewrite !run_bind_modify, run_bind_gets.
  intros Hrun.
  apply bind_ok_inv in Hrun. destruct Hrun as ([] & w1 & Hloop & Hrun).
  apply bind_ok_inv in Hrun. destruct Hrun as ([] & w2 & Hdiv & Hrun).
  apply focal_epoch_end_returns in Hrun. destruct Hrun as (_ & _ & Ht & _).
  pose proof (div_loss_frame i w1) as [Hd _]. rewrite Hdiv in Hd. cbn in Hd.
  match type of Hloop with for_each ?dl _ ?w0 = _ =>
    pose proof (batch_loop_trace use_grad i _ dl (focal_batch_spec i) w0) as Hb
  end.
  rewrite Hloop in Hb. cbn in Hb. destruct Hb as (_ & _ & evs & Hevs & Hall).
  rewrite Ht, Hd, Hevs, !resamples_app.
  rewrite (epoch_events_resamples _ _ _ Hall), app_nil_r.
  destruct (i mod 5 =? 0)%nat; reflexivity.
Qed.

Lemma focal_loop_resamples k : forall a w w',
  for_each (seq a k) FocalLoop.run_epoch w = (Ok tt, w') ->
  resamples (trace w') =
    resamples (trace w) ++ filter (fun i => i mod 5 = 0)%nat (seq a k).
Proof.
  induction k as [|k IH]; intros a w w' Hrun; cbn [seq for_each] in Hrun.
  - injection Hrun as <-. rewrite app_nil_r. reflexivity.
  - apply bind_ok_inv in Hrun. destruct Hrun as ([] & w1 & Hep & Hrun).
    apply focal_epoch_resamples in Hep. apply IH in Hrun.
    rewrite Hrun, Hep, <- app_assoc. f_equal. cbn [seq].
    rewrite filter_cons. destruct (Nat.eqb_spec (a mod 5) 0) as [E|E].
    + rewrite decide_True by exact E. reflexivity.
    + rewrite decide_False by exact E. reflexivity.
Qed.

Lemma focal_tail_trace :
  unchanged trace
    (l ← gets procAvgLoss;
     totalAverageLoss ← truediv (py_sum l) (length l);
     emit (MsgTotalLocal totalAverageLoss);;
     totalAverageLoss ← ext (mpi_avg totalAverageLoss None);
     pid ← ext mpi_proc_id;
     when (pid =? 0)%nat (
       ext_ (torch_save FocalModel);;
       ext_ (torch_save FocalEncoder))).
Proof. unfold ext, ext_, emit. loop_frame. Qed.

(** X7.  A run of the focal loop over [n] epochs that completes has
    rebuilt the dataloader exactly in the epochs [i < n] with
    [i mod 5 = 0], once each and in that order; [learn_latent_focal], with
    its 20 epochs, in the epochs 0, 5, 10 and 15. *)
Theorem focal_loop_resamples_every_fifth_epoch w :
  (forall n w',
      FocalLoop.training_loop n (set_trace [] w) = (Ok tt, w') ->
      resamples (trace w') = filter (fun i => i mod 5 = 0)%nat (seq 0 n)) /\
  (forall w',
      FocalLoop.learn_latent_focal (set_trace [] w) = (Ok tt, w') ->
      resamples (trace w') = [0; 5; 10; 15]%nat).
Proof.
  assert (Hn : forall n w',
             FocalLoop.training_loop n (set_trace [] w) = (Ok tt, w') ->
             resamples (trace w') = filter (fun i => i mod 5 = 0)%nat (seq 0 n)).
  { intros n w'. unfold FocalLoop.training_loop, for_range.
    rewrite !run_bind_modify. intros Hrun.
    apply focal_loop_resamples in Hrun. exact Hrun. }
  split; [exact Hn|]. intros w'. unfold FocalLoop.learn_latent_focal.
  intros Hrun. apply bind_ok_inv in Hrun. destruct Hrun as ([] & w1 & Hloop & Hrun).
  apply Hn in Hloop.
  pose proof (focal_tail_trace w1) as Ht. rewrite Hrun in Ht. cbn [snd] in Ht.
  rewrite Ht, Hloop. reflexivity.
Qed.

(** *** What the [learn_latent] loop never does *)

Lemma learn_latent_epoch_calls i w :
  exists evs,
    trace (LearnLatentLoop.run_epoch i w).2 = trace w ++ evs /\
    Forall solve_call evs.
Proof.
  unfold LearnLatentLoop.run_epoch. rewrite !run_bind_modify, run_bind_gets.
  rewrite bind_unfold.
  match goal with |- context [for_each ?dl _ ?w0] =>
    pose proof (batch_loop_trace (fun _ => true) i _ dl
                  (learn_latent_batch_spec i) w0) as Hb
  end.
  cbn zeta in Hb. destruct Hb as (_ & _ & evs & Hevs & Hall).
  assert (Hsolve : Forall solve_call evs).
  { eapply Forall_impl; [exact Hall|]. intros e He.
    destruct e; cbn in *; [exact I | destruct He; discriminate | contradiction]. }
  exists evs. split; [|exact Hsolve].
  destruct (for_each _ _ _) as [[[]|x] w1]; cbn [snd] in *; norm; [|exact Hevs].
  rewrite <- Hevs.
  assert (Htail : unchanged trace
            (div_loss i;; avg ← read_loss i; emit (MsgEpoch i avg))).
  { unfold emit. loop_frame. }
  apply Htail.
Qed.

Lemma learn_latent_loop_calls l : forall w,
  exists evs,
    trace (for_each l LearnLatentLoop.run_epoch w).2 = trace w ++ evs /\
    Forall solve_call evs.
Proof.
  induction l as [|i l IH]; intros w; cbn [for_each].
  - exists []. rewrite app_nil_r. auto.
  - rewrite bind_unfold.
    destruct (learn_latent_epoch_calls i w) as (evs & Ht & Hall).
    destruct (LearnLatentLoop.run_epoch i w) as [[[]|x] w1]; cbn [snd] in *.
    + destruct (IH w1) as (evs' & Ht' & Hall').
      exists (evs ++ evs'). rewrite Ht', Ht, app_assoc.
      split; [reflexivity|]. apply Forall_app; auto.
    + exists evs. auto.
Qed.

(** X8.  The loop of [learn_latent], run for any number of epochs and
    ended in any way, calls [solve_multistep] only (never
    [exec_multistep]) and never replaces the dataloader. *)
Theorem learn_latent_only_solves n w :
  let w' := (LearnLatentLoop.training_loop n (set_trace [] w)).2 in
  Forall solve_call (trace w') /\ dataloader w' = dataloader w.
Proof.
  cbn zeta. split; [|apply (learn_latent_training_entries n (set_trace [] w))].
  unfold LearnLatentLoop.training_loop, for_range. rewrite !run_bind_modify.
  match goal with |- context [for_each ?l _ ?w0] =>
    destruct (learn_latent_loop_calls l w0) as (evs & Ht & Hall)
  end.
  rewrite Ht. cbn. exact Hall.
Qed.

(** *** The batch counters of [learn_latent] *)

Lemma learn_latent_batch_counters i b w :
  match LearnLatentLoop.process_batch i b w with
  | (Ok _, w') =>
      batchCnt w' = (batchCnt w + 1)%nat /\ total_batch w' = (total_batch w + 1)%nat
  | (Raise _, w') => True
  end.
Proof.
  unfold LearnLatentLoop.process_batch.
  run. destruct a as [[[sp tp] ap] ip]. run.
  destruct r as [[[[st gr] lf] l]|e]; [|norm; auto].
  unfold record, emit, add_loss.
  destruct (bool_decide (is_Some st) && bool_decide (is_Some gr)) eqn:Hu.
  - run. destruct (procAvgLoss w !! i) as [v|] eqn:Hv.
    + run. returns (learn_latent_update_network_returns st gr lf false).
      unfold when. case_if; run; case_if; run; try (case_if; run); cbn; auto.
    + run. cbn. auto.
  - run. returns (learn_latent_update_network_returns st gr lf false).
    unfold when. case_if; run; case_if; run; try (case_if; run); cbn; auto.
Qed.

Lemma learn_latent_batches_counters i dl : forall w w',
  for_each dl (LearnLatentLoop.process_batch i) w = (Ok tt, w') ->
  batchCnt w' = (batchCnt w + length dl)%nat /\
  total_batch w' = (total_batch w + length dl)%nat.
Proof.
  induction dl as [|b dl IH]; intros w w' Hrun; cbn [for_each] in Hrun.
  - injection Hrun as <-. cbn. lia.
  - apply bind_ok_inv in Hrun. destruct Hrun as ([] & w1 & Hb & Hrun).
    pose proof (learn_latent_batch_counters i b w) as Hc. rewrite Hb in Hc.
    apply IH in Hrun. cbn [length]. lia.
Qed.

Lemma learn_latent_epoch_counters i w w' :
  LearnLatentLoop.run_epoch i w = (Ok tt, w') ->
  batchCnt w' = length (dataloader w) /\
  total_batch w' = (total_batch w + length (dataloader w))%nat /\
  dataloader w' = dataloader w.
Proof.
  intros Hrun.
  pose proof (learn_latent_epoch_entries i w) as Hd. rewrite Hrun in Hd.
  cbn in Hd. injection Hd as _ Hd.
  unfold LearnLatentLoop.run_epoch in Hrun.
  rewrite !run_bind_modify, run_bind_gets in Hrun.
  apply bind_ok_inv in Hrun. destruct Hrun as ([] & w1 & Hloop & Hrun).
  apply learn_latent_batches_counters in Hloop. norm.
  assert (Htail : unchanged (fun w => (batchCnt w, total_batch w))
            (div_loss i;; avg ← read_loss i; emit (MsgEpoch i avg))).
  { unfold emit. loop_frame. }
  specialize (Htail w1). rewrite Hrun in Htail. cbn in Htail.
  injection Htail as Hb Ht. rewrite Hb, Ht. split; [lia|]. split; [lia|exact Hd].
Qed.

Lemma learn_latent_epochs_counters k : forall a w w',
  for_each (seq a k) LearnLatentLoop.run_epoch w = (Ok tt, w') ->
  total_batch w' = (total_batch w + k * length (dataloader w))%nat /\
  dataloader w' = dataloader w /\
  (k <> 0%nat -> batchCnt w' = length (dataloader w)).
Proof.
  induction k as [|k IH]; intros a w w' Hrun; cbn [seq for_each] in Hrun.
  - injection Hrun as <-. split; [lia|]. split; [reflexivity|]. congruence.
  - apply bind_ok_inv in Hrun. destruct Hrun as ([] & w1 & Hep & Hrun).
    apply learn_latent_epoch_counters in Hep. destruct Hep as (Hb & Ht & Hd).
    pose proof (IH _ _ _ Hrun) as (Ht' & Hd' & Hb').
    split; [rewrite Ht', Hd, Ht; lia|]. split; [congruence|]. intros _.
    destruct k as [|k].
    + cbn in Hrun. injection Hrun as <-. exact Hb.
    + rewrite <- Hd. apply Hb'. lia.
Qed.

(** X9.  When the loop of [learn_latent] has completed [n] epochs,
    [total_batch] is [n] times the number of batches of the dataloader (it
    is not reset between epochs) and [batchCnt] is the number of batches
    of one epoch. *)
Theorem learn_latent_counts_batches n w w' :
  LearnLatentLoop.training_loop n w = (Ok tt, w') ->
  total_batch w' = (n * length (dataloader w))%nat /\
  (n <> 0%nat -> batchCnt w' = length (dataloader w)).
Proof.
  unfold LearnLatentLoop.training_loop, for_range. rewrite !run_bind_modify.
  intros Hrun. apply learn_latent_epochs_counters in Hrun.
  destruct Hrun as (Ht & _ & Hb). norm. split; [exact Ht | exact Hb].
Qed.

(** An epoch over an empty dataloader stops at the division. *)
Lemma focal_empty_epoch i w :
  dataloader w = [] -> (i < length (procAvgLoss w))%nat ->
  FocalLoop.run_epoch i w =
    (Raise ZeroDivisionError, set_efficientBatchCnt 0 (set_batchCnt 0 w)).
Proof.
  intros Hdl Hi. unfold FocalLoop.run_epoch.
  rewrite !run_bind_modify, run_bind_gets. norm. rewrite Hdl. cbn [for_each].
  rewrite run_bind_ret'. unfold div_loss. rewrite run_bind_assoc, run_bind_gets.
  norm. apply lookup_lt_is_Some in Hi. destruct Hi as [v Hv]. rewrite Hv.
  rewrite !run_bind_assoc, run_bind_gets. norm. unfold truediv. cbn [Nat.eqb].
  rewrite !run_bind_assoc, run_bind_raise. reflexivity.
Qed.

Lemma learn_latent_empty_epoch i w :
  dataloader w = [] -> (i < length (procAvgLoss w))%nat ->
  LearnLatentLoop.run_epoch i w =
    (Raise ZeroDivisionError, set_efficientBatchCnt 0 (set_batchCnt 0 w)).
Proof.
  intros Hdl Hi. unfold LearnLatentLoop.run_epoch.
  rewrite !run_bind_modify, run_bind_gets. norm. rewrite Hdl. cbn [for_each].
  rewrite run_bind_ret'. unfold div_loss. rewrite run_bind_assoc, run_bind_gets.
  norm. apply lookup_lt_is_Some in Hi. destruct Hi as [v Hv]. rewrite Hv.
  rewrite !run_bind_assoc, run_bind_gets. norm. unfold truediv. cbn [Nat.eqb].
  rewrite !run_bind_assoc, run_bind_raise. reflexivity.
Qed.

(** X10.  On an empty dataloader both [learn_latent_focal] and
    [learn_latent] raise [ZeroDivisionError] in their first epoch, without
    having called the coordinator or any library. *)
Theorem empty_dataloader_divides_by_zero w :
  dataloader w = [] ->
  ((FocalLoop.learn_latent_focal w).1 = Raise ZeroDivisionError /\
   trace (FocalLoop.learn_latent_focal w).2 = trace w /\
   sys (FocalLoop.learn_latent_focal w).2 = sys w) /\
  ((LearnLatentLoop.learn_latent w).1 = Raise ZeroDivisionError /\
   trace (LearnLatentLoop.learn_latent w).2 = trace w /\
   sys (LearnLatentLoop.learn_latent w).2 = sys w).
Proof.
  intros Hdl.
  assert (Hf : FocalLoop.learn_latent_focal w =
            (Raise ZeroDivisionError,
             set_efficientBatchCnt 0
               (set_batchCnt 0
                  (set_procAvgLoss (replicate FocalLoop.epochs Float64.zero)
                     (set_use_grad false w))))).
  { unfold FocalLoop.learn_latent_focal, FocalLoop.training_loop, for_range.
    change FocalLoop.epochs with (S 19). cbn [seq for_each].
    repeat first [rewrite run_bind_assoc | rewrite run_bind_modify].
    rewrite bind_unfold, focal_empty_epoch; [reflexivity|exact Hdl|cbn; lia]. }
  assert (Hl : LearnLatentLoop.learn_latent w =
            (Raise ZeroDivisionError,
             set_efficientBatchCnt 0
               (set_batchCnt 0
                  (set_total_batch 0
                     (set_procAvgLoss
                        (replicate LearnLatentLoop.epochs Float64.zero) w))))).
  { unfold LearnLatentLoop.learn_latent, LearnLatentLoop.training_loop, for_range.
    change LearnLatentLoop.epochs with (S 4). cbn [seq for_each].
    repeat first [rewrite run_bind_assoc | rewrite run_bind_modify].
    rewrite bind_unfold, learn_latent_empty_epoch; [reflexivity|exact Hdl|cbn; lia]. }
  rewrite Hf, Hl. cbn. auto.
Qed.

End LoopFacts.

(** ** More on the trajectory optimizer *)

Ltac report_steps :=
  repeat first
    [ apply unchanged_ret | apply unchanged_raise | apply unchanged_gets
    | apply unchanged_nd_len | apply unchanged_nd_getitem
    | apply unchanged_modify; reflexivity
    | apply unchanged_bind; [|intros ?] ].

Section SolveFacts.
Import TrajOpt.
Context `{TaichiEnv} `{TrajLibs}.

Lemma optims_lookup_none (s : string) :
  s <> "Adam" -> s <> "Momentum" -> OPTIMS !! s = None.
Proof.
  intros Ha Hm. unfold OPTIMS.
  rewrite lookup_insert_ne by congruence.
  rewrite lookup_insert_ne by congruence.
  apply lookup_empty.
Qed.

(** X13.  [solve] without initial actions raises [NotImplementedError]
    when [init_sampler] is not ['uniform'], whatever the optimizer type;
    [solve] with initial actions raises [KeyError] when the optimizer type
    is neither ['Adam'] nor ['Momentum'].  In both cases nothing has been
    changed. *)
Theorem solve_rejects_bad_configuration cfg cbs w :
  (init_sampler cfg <> "uniform" ->
   solve cfg None cbs w = (Raise NotImplementedError, w)) /\
  (optim_type cfg <> "Adam" -> optim_type cfg <> "Momentum" ->
   forall a, solve cfg (Some a) cbs w = (Raise KeyError, w)).
Proof.
  split.
  - intros Hs. unfold solve, init_actions.
    rewrite run_bind_assoc, run_bind_gets.
    apply String.eqb_neq in Hs. rewrite Hs.
    rewrite run_bind_raise. reflexivity.
  - intros Ha Hm a. unfold solve. rewrite run_bind_ret.
    rewrite (optims_lookup_none _ Ha Hm). rewrite run_bind_raise. reflexivity.
Qed.

Lemma forward_report cfg st a : unchanged report_view (forward cfg st a).
Proof.
  unfold forward, reset_logger.
  apply unchanged_bind; [apply unchanged_modify; reflexivity | intros _].
  apply unchanged_bind; [apply unchanged_modify; reflexivity | intros _].
  apply unchanged_bind; [apply unchanged_nd_len | intros n].
  apply unchanged_bind; [|intros _].
  - apply unchanged_with_tape; [reflexivity|].
    apply unchanged_for_each. intros i. report_steps.
  - report_steps.
Qed.

Lemma forward_nograd_report cfg st a : unchanged report_view (forward_nograd cfg st a).
Proof.
  unfold forward_nograd, reset_logger, save_current_state.
  apply unchanged_bind; [apply unchanged_modify; reflexivity | intros _].
  apply unchanged_bind; [apply unchanged_modify; reflexivity | intros _].
  apply unchanged_bind; [apply unchanged_nd_len | intros n].
  apply unchanged_bind; [|intros _].
  - apply unchanged_for_each. intros i. report_steps.
  - apply unchanged_bind.
    + destruct n; [apply unchanged_raise | apply unchanged_nd_getitem].
    + intros last. report_steps.
Qed.

Lemma callbacks_report loss grads cbs :
  unchanged report_view (for_each cbs (run_callback loss grads)).
Proof.
  apply unchanged_for_each. intros cb. apply unchanged_modify. intros w.
  destruct (cb loss grads (optim w, env w)) as [o e]. reflexivity.
Qed.

Lemma view_of {V A} (view : World -> V) (m : Prog World A) w r w' :
  unchanged view m -> m w = (r, w') -> view w' = view w.
Proof. intros Hm Hrun. specialize (Hm w). rewrite Hrun in Hm. exact Hm. Qed.

(** An iteration that completes has evaluated the current actions once
    and printed the loss of that rollout under its own number. *)
Lemma iteration_report cfg st cbs iter w w' :
  iteration cfg st cbs iter w = (Ok tt, w') ->
  exists loss,
    evals w' = evals w ++ [(actions w, loss)] /\
    printed w' = printed w ++ [(iter, loss)].
Proof.
  unfold iteration. rewrite run_bind_gets, run_bind_modify. intros Hrun.
  apply bind_ok_inv in Hrun. destruct Hrun as ([loss grads] & w1 & Hfw & Hrun).
  apply (view_of report_view) in Hfw; [|apply forward_report].
  rewrite run_bind_modify, run_bind_gets in Hrun.
  apply bind_ok_inv in Hrun. destruct Hrun as ([] & w2 & Hcmp & Hrun).
  assert (Hw2 : report_view w2 = report_view
                  (set_evals (fun l => l ++ [(actions w, loss)]) w1)).
  { revert Hcmp. apply view_of. apply unchanged_when. report_steps. }
  rewrite run_bind_modify in Hrun.
  apply bind_ok_inv in Hrun. destruct Hrun as ([] & w3 & Hcb & Hrun).
  apply (view_of report_view) in Hcb; [|apply callbacks_report].
  rewrite run_bind_gets in Hrun.
  apply bind_ok_inv in Hrun. destruct Hrun as ([] & w4 & Hng & Hrun).
  apply (view_of report_view) in Hng; [|apply forward_nograd_report].
  injection Hrun as <-. exists loss.
  assert (Hw3 : report_view w3 = report_view w2).
  { rewrite Hcb. destruct (optim_step grads (optim w2)) as [a' o]. reflexivity. }
  unfold report_view in *. cbn in *.
  rewrite Hw3, Hw2 in Hng. injection Hng as Hp He.
  injection Hfw as Hp1 He1.
  rewrite He, Hp, Hp1, He1. auto.
Qed.

Lemma iterations_report cfg st cbs k : forall a w w',
  for_each (seq a k) (iteration cfg st cbs) w = (Ok tt, w') ->
  exists evs,
    evals w' = evals w ++ evs /\ length evs = k /\
    printed w' = printed w ++ zip (seq a k) evs.*2.
Proof.
  induction k as [|k IH]; intros a w w' Hrun; cbn [seq for_each] in Hrun.
  - injection Hrun as <-. exists []. rewrite !app_nil_r. auto.
  - apply bind_ok_inv in Hrun. destruct Hrun as ([] & w1 & Hit & Hrun).
    apply iteration_report in Hit. destruct Hit as (loss & He & Hp).
    apply IH in Hrun. destruct Hrun as (evs & He' & Hlen & Hp').
    exists ((actions w, loss) :: evs). rewrite He', He, Hp', Hp.
    rewrite <- !app_assoc. cbn. auto.
Qed.

(** What a completed [solve] has gone through. *)
Lemma solve_inv cfg init cbs w r w' :
  solve cfg init cbs w = (Ok r, w') ->
  exists a0 w0 cls w1,
    match init with
    | Some a => mret a
    | None => init_actions cfg
    end w = (Ok a0, w0) /\
    OPTIMS !! optim_type cfg = Some cls /\
    let s := env_get_state (env w0) in
    for_range (Z.to_nat (n_iters cfg)) (iteration cfg s.1.1 cbs)
      (set_evals (fun _ => [])
         (set_actions a0
            (set_best_loss Float64.ten_billion
               (set_best_action None
                  (set_action_buffer (fun _ => [])
                     (set_pc_cnt (fun _ => 0%nat)
                        (set_total_steps (fun _ => 0%nat)
                           (set_optim (optim_new cls a0 (optim_cfg cfg)) w0))))))))
      = (Ok tt, w1) /\
    r = best_action w1 /\
    w' = set_action_file (Some (action_buffer w1))
           (set_env (env_set_state s.1.1 s.1.2 s.2) w1).
Proof.
  unfold solve. intros Hrun.
  apply bind_ok_inv in Hrun. destruct Hrun as (a0 & w0 & Hinit & Hrun).
  apply bind_ok_inv in Hrun. destruct Hrun as (cls & w0' & Hcls & Hrun).
  destruct (OPTIMS !! optim_type cfg) as [c|] eqn:Eopt; [|discriminate Hcls].
  injection Hcls as -> <-.
  rewrite run_bind_modify, run_bind_gets, !run_bind_modify in Hrun.
  apply bind_ok_inv in Hrun. destruct Hrun as ([] & w1 & Hloop & Hrun).
  rewrite run_bind_modify, run_bind_gets, run_bind_modify in Hrun.
  injection Hrun as <- <-.
  exists a0, w0, cls, w1. cbn zeta. repeat split; try reflexivity; assumption.
Qed.

Lemma init_actions_printed cfg w a0 w0 :
  init_actions cfg w = (Ok a0, w0) -> printed w0 = printed w /\ env w0 = env w.
Proof.
  unfold init_actions. rewrite run_bind_gets.
  destruct (String.eqb (init_sampler cfg) "uniform"); [|discriminate].
  unfold lift. destruct (np_random_uniform _ _ _ _ _) as [a r].
  intros Hrun. injection Hrun as _ <-. auto.
Qed.

(** X14.  When [solve] completes with [n_iters <= 0], with or without
    initial actions, it has returned [None], saved an empty action array,
    written no snapshot, evaluated nothing and set the simulator to the
    state it has read from it. *)
Theorem solve_without_iterations cfg init cbs w r w' :
  (n_iters cfg <= 0)%Z ->
  solve cfg init cbs w = (Ok r, w') ->
  r = None /\
  action_file w' = Some [] /\ state_files w' = state_files w /\
  evals w' = [] /\ total_steps w' = 0%nat /\ pc_cnt w' = 0%nat /\
  env w' =
    env_set_state (env_get_state (env w)).1.1 (env_get_state (env w)).1.2
      (env_get_state (env w)).2 (env w).
Proof.
  intros Hn Hrun. apply solve_inv in Hrun.
  destruct Hrun as (a0 & w0 & cls & w1 & Hinit & _ & Hloop & -> & ->).
  cbn zeta in Hloop.
  replace (Z.to_nat (n_iters cfg)) with 0%nat in Hloop by lia.
  unfold for_range in Hloop. cbn [seq for_each] in Hloop. injection Hloop as <-.
  assert (He : env w0 = env w /\ state_files w0 = state_files w).
  { destruct init as [a|].
    - injection Hinit as _ <-. auto.
    - split; [apply (init_actions_printed _ _ _ _ Hinit)|].
      pose proof (init_actions_files cfg w) as Hf. rewrite Hinit in Hf. exact Hf. }
  destruct He as (He & Hf). cbn. rewrite He, Hf. repeat split; reflexivity.
Qed.

(** X15.  When [solve] completes it has run the gradient rollout
    [n_iters] times and printed one line per iteration: the number of the
    iteration with the loss evaluated in it. *)
Theorem solve_reports_every_iteration cfg init cbs w r w' :
  solve cfg init cbs w = (Ok r, w') ->
  length (evals w') = Z.to_nat (n_iters cfg) /\
  printed w' =
    printed w ++ zip (seq 0 (Z.to_nat (n_iters cfg))) (evals w').*2.
Proof.
  intros Hrun. apply solve_inv in Hrun.
  destruct Hrun as (a0 & w0 & cls & w1 & Hinit & _ & Hloop & _ & ->).
  cbn zeta in Hloop. unfold for_range in Hloop.
  apply iterations_report in Hloop. destruct Hloop as (evs & He & Hlen & Hp).
  cbn in He, Hp |- *. rewrite He, Hp. split; [exact Hlen|].
  f_equal. destruct init as [a|].
  - injection Hinit as _ <-. reflexivity.
  - apply init_actions_printed in Hinit. apply Hinit.
Qed.

(** X16.  When [solve] completes, the last thing done to the simulator
    is [set_state] with the state, softness and flag that [get_state] gave
    before the first iteration. *)
Theorem solve_restores_the_simulator cfg init cbs w r w' :
  solve cfg init cbs w = (Ok r, w') ->
  exists e,
    env w' =
      env_set_state (env_get_state (env w)).1.1 (env_get_state (env w)).1.2
        (env_get_state (env w)).2 e.
Proof.
  intros Hrun. apply solve_inv in Hrun.
  destruct Hrun as (a0 & w0 & cls & w1 & Hinit & _ & _ & _ & ->).
  assert (He : env w0 = env w).
  { destruct init as [a|].
    - injection Hinit as _ <-. reflexivity.
    - apply init_actions_printed in Hinit. apply Hinit. }
  exists (env w1). cbn. rewrite He. reflexivity.
Qed.

End SolveFacts.

Section StepFacts.
Import TrajOpt.
Context `{TaichiEnv} `{TrajLibs}.

Lemma nd_getitem_row a n i (w : World) :
  Nd.len a = Some n -> (i < n)%nat ->
  exists r, nd_getitem a i w = (Ok r, w).
Proof.
  intros Hn Hi. destruct (nd_row_some a n i Hn Hi) as [r Hr].
  exists r. unfold nd_getitem. rewrite Hr. reflexivity.
Qed.

(** The loop of an archiving pass runs through on the indices of the
    array. *)
Lemma archive_loop_runs a n l : forall w,
  Nd.len a = Some n -> Forall (fun i => i < n)%nat l ->
  exists w', for_each l (archive_step a) w = (Ok tt, w').
Proof.
  induction l as [|i l IH]; intros w Hn Hl; cbn [for_each].
  - exists w. reflexivity.
  - apply Forall_cons in Hl. destruct Hl as [Hi Hl].
    unfold archive_step, save_current_state.
    repeat first [rewrite run_bind_assoc | rewrite run_bind_modify].
    match goal with |- context [(nd_getitem a i ≫= _) ?w1] =>
      destruct (nd_getitem_row a n i w1 Hn Hi) as [r Hr] end.
    rewrite bind_unfold, Hr.
    repeat first [rewrite run_bind_assoc | rewrite run_bind_modify].
    apply IH; assumption.
Qed.

(** X12.  The archiving pass [forward_nograd] on an action array: a
    0-dimensional array raises [TypeError] (it has no [len]); an array
    without rows raises [UnboundLocalError] at [action[i]] after the loop,
    with nothing archived; an array with at least one row returns. *)
Theorem archiving_pass_outcomes cfg st a w :
  match Nd.len a with
  | None => (forward_nograd cfg st a w).1 = Raise TypeError
  | Some 0%nat =>
      (forward_nograd cfg st a w).1 = Raise UnboundLocalError /\
      archive_view (forward_nograd cfg st a w).2 = archive_view w
  | Some (S n) => (forward_nograd cfg st a w).1 = Ok tt
  end.
Proof.
  unfold forward_nograd, reset_logger, nd_len.
  rewrite !run_bind_modify.
  destruct (Nd.len a) as [[|n]|] eqn:Hlen.
  - rewrite run_bind_ret. unfold for_range. cbn [seq for_each].
    rewrite run_bind_ret', run_bind_raise. split; reflexivity.
  - rewrite run_bind_ret. unfold for_range.
    match goal with |- context [(for_each ?l _ ≫= _) ?w1] =>
      destruct (archive_loop_runs a (S n) l w1 Hlen) as [w' Hrun]
    end.
    { apply Forall_forall. intros i Hi. apply elem_of_seq in Hi. lia. }
    unfold archive_step in Hrun. rewrite bind_unfold, Hrun.
    destruct (nd_getitem_row a (S n) n w' Hlen ltac:(lia)) as [r Hr].
    rewrite bind_unfold, Hr. reflexivity.
  - rewrite run_bind_raise. reflexivity.
Qed.

(** Counting simulator steps. *)
Lemma steps_loop_counts {A} (body : A -> Prog World unit) (l : list A) :
  (forall x w w', body x w = (Ok tt, w') ->
                  total_steps w' = (total_steps w + 1)%nat) ->
  forall w w',
    for_each l body w = (Ok tt, w') ->
    total_steps w' = (total_steps w + length l)%nat.
Proof.
  intros Hbody. induction l as [|x l IH]; intros w w' Hrun; cbn [for_each] in Hrun.
  - injection Hrun as <-. cbn. lia.
  - apply bind_ok_inv in Hrun. destruct Hrun as ([] & w1 & Hx & Hrun).
    apply Hbody in Hx. apply IH in Hrun. cbn [length]. lia.
Qed.

Lemma nd_len_inv a n (w w' : World) :
  nd_len a w = (Ok n, w') -> w' = w /\ Nd.len a = Some n.
Proof.
  unfold nd_len. destruct (Nd.len a); [|discriminate].
  intros Hrun. injection Hrun as <- <-. auto.
Qed.

Lemma nd_getitem_inv a i r (w w' : World) :
  nd_getitem a i w = (Ok r, w') -> w' = w.
Proof.
  unfold nd_getitem. destruct (Nd.row a i); [|discriminate].
  intros Hrun. injection Hrun as _ <-. reflexivity.
Qed.

Lemma forward_counts cfg st a w r w' :
  forward cfg st a w = (Ok r, w') ->
  total_steps w' = (total_steps w + n_rows a)%nat.
Proof.
  unfold forward, reset_logger. rewrite !run_bind_modify. intros Hrun.
  apply bind_ok_inv in Hrun. destruct Hrun as (n & w1 & Hn & Hrun).
  apply nd_len_inv in Hn. destruct Hn as (-> & Hn).
  apply bind_ok_inv in Hrun. destruct Hrun as ([] & w2 & Hloop & Hrun).
  rewrite run_bind_gets in Hrun. injection Hrun as _ <-.
  unfold with_tape in Hloop.
  match type of Hloop with (let '(_, _) := ?p in _) = _ =>
    destruct p as [r1 w3] eqn:Hbody end.
  injection Hloop as -> <-. unfold for_range in Hbody.
  apply steps_loop_counts in Hbody.
  - cbn in Hbody |- *. unfold n_rows. rewrite Hn, length_seq in *. exact Hbody.
  - intros i v v' Hi.
    apply bind_ok_inv in Hi. destruct Hi as (x & v1 & Hx & Hi).
    apply nd_getitem_inv in Hx. subst v1.
    rewrite !run_bind_modify in Hi. injection Hi as <-. reflexivity.
Qed.

Lemma forward_nograd_counts cfg st a w w' :
  forward_nograd cfg st a w = (Ok tt, w') ->
  total_steps w' = (total_steps w + n_rows a)%nat.
Proof.
  unfold forward_nograd, reset_logger. rewrite !run_bind_modify. intros Hrun.
  apply bind_ok_inv in Hrun. destruct Hrun as (n & w1 & Hn & Hrun).
  apply nd_len_inv in Hn. destruct Hn as (-> & Hn).
  apply bind_ok_inv in Hrun. destruct Hrun as ([] & w2 & Hloop & Hrun).
  apply bind_ok_inv in Hrun. destruct Hrun as (last & w3 & Hlast & Hrun).
  assert (w3 = w2) as ->.
  { destruct n; [discriminate Hlast|]. eapply nd_getitem_inv, Hlast. }
  unfold save_current_state in Hrun. rewrite !run_bind_modify in Hrun.
  injection Hrun as <-. unfold for_range in Hloop.
  apply steps_loop_counts in Hloop.
  - cbn in Hloop |- *. unfold n_rows. rewrite Hn, length_seq in *. exact Hloop.
  - intros i v v' Hi. unfold save_current_state in Hi.
    rewrite run_bind_modify in Hi.
    apply bind_ok_inv in Hi. destruct Hi as (x & v1 & Hx & Hi).
    apply nd_getitem_inv in Hx. subst v1.
    rewrite !run_bind_modify in Hi. injection Hi as <-. reflexivity.
Qed.

Lemma iteration_counts cfg st cbs iter w w' :
  iteration cfg st cbs iter w = (Ok tt, w') ->
  exists loss k,
    evals w' = evals w ++ [(actions w, loss)] /\
    total_steps w' = (total_steps w + n_rows (actions w) + k)%nat /\
    length (action_buffer w') = (length (action_buffer w) + k + 1)%nat.
Proof.
  unfold iteration. rewrite run_bind_gets, run_bind_modify. intros Hrun.
  apply bind_ok_inv in Hrun. destruct Hrun as ([loss grads] & w1 & Hfw & Hrun).
  pose proof (forward_counts _ _ _ _ _ _ Hfw) as Hts1.
  pose proof (view_of _ _ _ _ _ (forward_unchanged cfg st (actions w)) Hfw) as Hv1.
  rewrite run_bind_modify, run_bind_gets in Hrun.
  apply bind_ok_inv in Hrun. destruct Hrun as ([] & w2 & Hcmp & Hrun).
  assert (Hw2 : (total_steps w2, action_buffer w2, evals w2) =
                (total_steps w1, action_buffer w1, evals w1 ++ [(actions w, loss)])).
  { revert Hcmp. apply (view_of (fun v => (total_steps v, action_buffer v, evals v))).
    apply unchanged_when.
    apply unchanged_bind; [|intros ?]; apply unchanged_modify; reflexivity. }
  rewrite run_bind_modify in Hrun.
  apply bind_ok_inv in Hrun. destruct Hrun as ([] & w3 & Hcb & Hrun).
  assert (Hw3 : (total_steps w3, action_buffer w3, evals w3) =
                (total_steps w2, action_buffer w2, evals w2)).
  { apply (view_of (fun v => (total_steps v, action_buffer v, evals v))) in Hcb.
    - rewrite Hcb. destruct (optim_step grads (optim w2)) as [a' o]. reflexivity.
    - apply unchanged_for_each. intros cb. apply unchanged_modify. intros v.
      destruct (cb loss grads (optim v, env v)) as [o e]. reflexivity. }
  rewrite run_bind_gets in Hrun.
  apply bind_ok_inv in Hrun. destruct Hrun as ([] & w4 & Hng & Hrun).
  injection Hrun as <-.
  pose proof (forward_nograd_counts _ _ _ _ _ Hng) as Hts4.
  pose proof (view_of _ _ _ _ _ (forward_nograd_report cfg st (actions w3)) Hng) as Hv4.
  apply archive_pass in Hng.
  destruct Hng as (n & rws & last & Hn & Hlen & Hbuf & _).
  exists loss, (n_rows (actions w3)).
  injection Hw2 as Hts2 Hb2 He2. injection Hw3 as Hts3 Hb3 He3.
  unfold report_view in Hv4. injection Hv4 as _ He4.
  unfold archive_view, best_view in Hv1. injection Hv1 as Hb1 _ _ _ _ He1.
  cbn in *. split; [congruence|]. split; [lia|].
  rewrite Hbuf, !length_app, Hlen. cbn [length].
  unfold n_rows. rewrite Hn. cbn. rewrite Hb3, Hb2, Hb1. lia.
Qed.

Lemma iteration_accounted cfg st cbs iter :
  post steps_accounted (iteration cfg st cbs iter) (fun _ => steps_accounted)
    (fun _ => True).
Proof.
  intros w Hw. destruct (iteration cfg st cbs iter w) as [[[]|e] w'] eqn:Hrun;
    [|exact I].
  apply iteration_counts in Hrun. destruct Hrun as (loss & k & He & Hts & Hbuf).
  unfold steps_accounted in *. rewrite He, Hts, Hbuf.
  rewrite sum_list_with_app, length_app. cbn. lia.
Qed.

(** X17.  When [solve] completes, [total_steps] counts every simulator
    step: the rows of the action arrays of the gradient rollouts plus the
    rows archived, which are the saved actions without the one padding row
    of each iteration. *)
Theorem solve_counts_every_step cfg init cbs w r w' :
  solve cfg init cbs w = (Ok r, w') ->
  exists saved,
    action_file w' = Some saved /\
    (total_steps w' + length (evals w') =
     sum_list_with (fun p => n_rows p.1) (evals w') + length saved)%nat.
Proof.
  intros Hrun. apply solve_inv in Hrun.
  destruct Hrun as (a0 & w0 & cls & w1 & _ & _ & Hloop & _ & ->).
  cbn zeta in Hloop. unfold for_range in Hloop.
  match type of Hloop with for_each ?l (iteration _ ?st _) ?ws = _ =>
    pose proof (post_for_each_ok steps_accounted l _
                  (iteration_accounted cfg st cbs) ws) as Hpost
  end.
  rewrite Hloop in Hpost. exists (action_buffer w1). split; [reflexivity|].
  cbn. apply Hpost. unfold steps_accounted. cbn. reflexivity.
Qed.

End StepFacts.

(** ** The helpers of [learn_latent.py] *)

Lemma nd_squeeze_shape a : 1%nat ∉ shape (nd_squeeze a).
Proof.
  unfold nd_squeeze. cbn. intros Hin. apply list_elem_of_filter in Hin.
  destruct Hin as [Hne _]. congruence.
Qed.

(** X20.  [squeeze_batch] raises [IndexError] on fewer than five
    entries; on five or more tensors it returns five arrays, those of the
    first five tensors, squeezed: no dimension of size 1 is left and the
    elements are those of the tensor.  Entries after the fifth are
    dropped. *)
Theorem squeeze_batch_spec {W} (state : list Tensor) (w : W) :
  ((length state < 5)%nat -> squeeze_batch state w = (Raise IndexError, w)) /\
  ((5 <= length state)%nat ->
   exists r,
     squeeze_batch state w = (Ok r, w) /\
     r = map (fun t => nd_squeeze (numpy t)) (take 5 state) /\
     length r = 5%nat /\
     (forall a, a ∈ r -> 1%nat ∉ shape a) /\
     map data r = map (fun t => data (numpy t)) (take 5 state)).
Proof.
  unfold squeeze_batch. split.
  - intros Hlen.
    destruct state as [|s0 [|s1 [|s2 [|s3 [|s4 rest]]]]]; cbn in Hlen;
      try reflexivity. lia.
  - intros Hlen.
    destruct state as [|s0 [|s1 [|s2 [|s3 [|s4 rest]]]]]; cbn in Hlen; try lia.
    eexists. split; [reflexivity|]. split; [reflexivity|]. split; [reflexivity|].
    split; [|reflexivity].
    intros a Ha. apply list_elem_of_In in Ha. cbn in Ha.
    destruct Ha as [<-|[<-|[<-|[<-|[<-|[]]]]]]; apply nd_squeeze_shape.
Qed.

Lemma prefix_app (p s : string) : String.prefix p (p +:+ s) = true.
Proof.
  induction p as [|c p IH]; [destruct s; reflexivity|].
  change (String c p +:+ s) with (String c (p +:+ s)). cbn [String.prefix].
  destruct (Ascii.ascii_dec c c); [exact IH | congruence].
Qed.

Lemma prefix_inv (p n : string) :
  String.prefix p n = true -> exists s, n = p +:+ s.
Proof.
  revert n. induction p as [|c p IH]; intros n Hp.
  - exists n. reflexivity.
  - destruct n as [|c' n]; [discriminate Hp|]. cbn [String.prefix] in Hp.
    destruct (Ascii.ascii_dec c c') as [<-|]; [|discriminate Hp].
    destruct (IH n Hp) as [s ->]. exists s. reflexivity.
Qed.

Lemma prefix_none (p n : string) :
  (forall s, n <> p +:+ s) -> String.prefix p n = false.
Proof.
  intros Hn. destruct (String.prefix p n) eqn:Hp; [|reflexivity].
  apply prefix_inv in Hp. destruct Hp as [s ->]. exfalso. exact (Hn s eq_refl).
Qed.

Section LoadingFacts.
Context `{Runtime}.
Variable new_dataset : dataset_class -> Sys -> Subset * Sys.

(** X21.  [_loading_dataset] of [learn_latent.py] chooses the dataset
    class by the prefix of the environment name (Chopsticks, Rope, Writer,
    Torus, whatever follows) and builds the dataloader with the number of
    processes as batch size; for a name with none of these prefixes it
    raises [UnboundLocalError] and has done nothing. *)
Theorem loading_dataset_by_prefix env_name (s : Sys) :
  (forall rest, env_name = "Chopsticks" +:+ rest ->
     _loading_dataset new_dataset env_name s = loaded new_dataset ChopSticksDataset s) /\
  (forall rest, env_name = "Rope" +:+ rest ->
     _loading_dataset new_dataset env_name s = loaded new_dataset RopeDataset s) /\
  (forall rest, env_name = "Writer" +:+ rest ->
     _loading_dataset new_dataset env_name s = loaded new_dataset WriterDataset s) /\
  (forall rest, env_name = "Torus" +:+ rest ->
     _loading_dataset new_dataset env_name s = loaded new_dataset TorusDataset s) /\
  ((forall rest, env_name <> "Chopsticks" +:+ rest) ->
   (forall rest, env_name <> "Rope" +:+ rest) ->
   (forall rest, env_name <> "Writer" +:+ rest) ->
   (forall rest, env_name <> "Torus" +:+ rest) ->
   _loading_dataset new_dataset env_name s = (Raise UnboundLocalError, s)).
Proof.
  assert (Hload : forall c, (lift (new_dataset c) ≫= fun dataset =>
                     n ← lift mpi_num_procs; mret (make_DataLoader dataset n)) s
                    = loaded new_dataset c s).
  { intros c. unfold loaded. rewrite bind_unfold. unfold lift.
    destruct (new_dataset c s) as [d s1]. rewrite bind_unfold.
    destruct (mpi_num_procs s1) as [n s2]. reflexivity. }
  unfold _loading_dataset. repeat split.
  - intros rest ->. rewrite prefix_app. apply Hload.
  - intros rest ->.
    change (String.prefix "Chopsticks" ("Rope" +:+ rest)) with false.
    rewrite prefix_app. apply Hload.
  - intros rest ->.
    change (String.prefix "Chopsticks" ("Writer" +:+ rest)) with false.
    change (String.prefix "Rope" ("Writer" +:+ rest)) with false.
    rewrite prefix_app. apply Hload.
  - intros rest ->.
    change (String.prefix "Chopsticks" ("Torus" +:+ rest)) with false.
    change (String.prefix "Rope" ("Torus" +:+ rest)) with false.
    change (String.prefix "Writer" ("Torus" +:+ rest)) with false.
    rewrite prefix_app. apply Hload.
  - intros Hc Hr Hw Ht.
    rewrite (prefix_none _ _ Hc), (prefix_none _ _ Hr), (prefix_none _ _ Hw),
      (prefix_none _ _ Ht).
    rewrite run_bind_raise. reflexivity.
Qed.

End LoadingFacts.

(** ** The entry point of [solver.py] *)

Section DriverFacts.
Import TrajOpt Driver.
Context `{TaichiEnv} `{TrajLibs}.
Variable gym_reset : Env -> Env.
Variable optim_with_lr : float -> OptimCfg.
Variable FileSystem : Type.
Variable os_makedirs : string -> FileSystem -> option FileSystem.

Lemma in_solver_inv {A} (m : Prog World A) (s : Session FileSystem) r s' :
  in_solver m s = (r, s') ->
  m (solver s) = (r, solver s') /\
  files s' = files s /\ stdout s' = stdout s.
Proof.
  unfold in_solver. destruct (m (solver s)) as [r0 w]. intros Hrun.
  injection Hrun as <- <-. auto.
Qed.

Lemma makedirs_inv p (s s' : Session FileSystem) :
  makedirs os_makedirs p s = (Ok tt, s') ->
  solver s' = solver s /\ stdout s' = stdout s.
Proof.
  unfold makedirs. destruct (os_makedirs p (files s)); [|discriminate].
  intros Hrun. injection Hrun as <-. auto.
Qed.

Lemma make_necessary_dirs_inv path name (s s' : Session FileSystem) :
  _make_necessary_dirs os_makedirs path name s = (Ok tt, s') ->
  solver s' = solver s /\ stdout s' = stdout s.
Proof.
  unfold _make_necessary_dirs. intros Hrun.
  apply bind_ok_inv in Hrun. destruct Hrun as ([] & s1 & H1 & Hrun).
  apply bind_ok_inv in Hrun. destruct Hrun as ([] & s2 & H2 & Hrun).
  apply bind_ok_inv in Hrun. destruct Hrun as ([] & s3 & H3 & H4).
  apply makedirs_inv in H1, H2, H3, H4.
  destruct H1, H2, H3, H4. split; congruence.
Qed.

(** X18.  When [solve_action] completes, [T] is not 0, the optimizer
    has run [(num_steps + T - 1) // T] iterations (none when that is
    negative), which is the least number of iterations of [T] steps that
    covers [num_steps], and the line [Done] has been printed. *)
Theorem solve_action_iterations path T args s s' :
  solve_action gym_reset optim_with_lr os_makedirs path T args s = (Ok tt, s') ->
  T <> 0%nat /\
  length (evals (solver s')) =
    Z.to_nat ((num_steps args + Z.of_nat T - 1) / Z.of_nat T) /\
  (num_steps args <= Z.of_nat (length (evals (solver s')) * T))%Z /\
  ((0 < num_steps args)%Z ->
   (Z.of_nat ((length (evals (solver s')) - 1) * T) < num_steps args)%Z) /\
  stdout s' = stdout s ++ ["Done"].
Proof.
  unfold solve_action, write_line, floordiv. intros Hrun.
  apply bind_ok_inv in Hrun. destruct Hrun as ([] & s0 & Hdirs & Hrun).
  apply make_necessary_dirs_inv in Hdirs. destruct Hdirs as (_ & Hout0).
  apply bind_ok_inv in Hrun. destruct Hrun as ([] & s1 & Hreset & Hrun).
  apply in_solver_inv in Hreset. destruct Hreset as (_ & _ & Hout1).
  destruct (Z.of_nat T =? 0)%Z eqn:HT; [discriminate Hrun|].
  apply Z.eqb_neq in HT. rewrite run_bind_ret in Hrun. cbn zeta in Hrun.
  apply bind_ok_inv in Hrun. destruct Hrun as (action & s2 & Hsolve & Hrun).
  apply in_solver_inv in Hsolve. destruct Hsolve as (Hsolve & _ & Hout2).
  injection Hrun as <-. cbn [solver stdout].
  apply solve_inv in Hsolve.
  destruct Hsolve as (a0 & w0 & cls & w1 & _ & _ & Hloop & _ & Hs2).
  cbn zeta in Hloop. unfold for_range in Hloop.
  apply iterations_report in Hloop. destruct Hloop as (evs & He & Hlen & _).
  rewrite Hs2. cbn in He |- *. rewrite He. cbn [n_iters] in Hlen.
  rewrite Hlen, Hout2, Hout1, Hout0. cbn.
  set (N := num_steps args) in *. set (t := Z.of_nat T) in *.
  assert (Ht : (0 < t)%Z) by lia.
  pose proof (Z.mul_div_le (N + t - 1) t Ht) as Hlo.
  pose proof (Z.mul_succ_div_gt (N + t - 1) t Ht) as Hhi.
  set (q := ((N + t - 1) / t)%Z) in *.
  split; [lia|]. split; [reflexivity|].
  split; [|split; [|reflexivity]].
  - rewrite Nat2Z.inj_mul. fold t. destruct (Z.le_gt_cases 0 q) as [Hq|Hq].
    + rewrite Z2Nat.id by exact Hq. nia.
    + replace (Z.to_nat q) with 0%nat by lia. nia.
  - intros HN. rewrite Nat2Z.inj_mul. fold t.
    assert (Hq : (0 < q)%Z) by nia.
    rewrite Nat2Z.inj_sub by lia. rewrite Z2Nat.id by lia. nia.
Qed.



End DriverFacts.

(** ** The further properties on concrete systems *)

Section MoreExamples.
Import Example Cases.

Lemma empty_state_witness :
  @Focal.solve_multistep sim oracles plain_solver 0 1 2 empty_state_world
    = (Raise IndexError, empty_state_world) /\
  @Focal.exec_multistep sim oracles plain_solver 0 1 2 empty_state_world
    = (Raise IndexError, empty_state_world) /\
  @LearnLatent.solve_multistep sim oracles plain_solver 0 1 2 empty_state_world
    = (Raise IndexError, empty_state_world).
Proof.
  exact (@empty_state_raises_IndexError sim oracles plain_solver 0 1 2
           empty_state_world eq_refl).
Defined.

Lemma loss_first_shared_witness :
  (Some plain_decoded, Some unit_gradient, Float64.one, two).1.2 =
  (Float64.one, two).1.
Proof.
  exact (@loss_first_is_shared sim oracles plain_solver 0 1 2 1 2 world0
           (Some plain_decoded, Some unit_gradient, Float64.one, two) plain_world
           (Float64.one, two) executed_world eq_refl eq_refl).
Defined.

Lemma solve_without_iterations_witness :
  @TrajOpt.solve sim (libs small_actions) (config small_actions 0) None []
    (traj0 small_actions) = (Ok None, idle_world) /\
  TrajOpt.action_file idle_world = Some [] /\
  TrajOpt.state_files idle_world = TrajOpt.state_files (traj0 small_actions) /\
  TrajOpt.evals idle_world = [] /\ TrajOpt.total_steps idle_world = 0%nat /\
  TrajOpt.pc_cnt idle_world = 0%nat /\
  TrajOpt.env idle_world =
    env_set_state (env_get_state (TrajOpt.env (traj0 small_actions))).1.1
      (env_get_state (TrajOpt.env (traj0 small_actions))).1.2
      (env_get_state (TrajOpt.env (traj0 small_actions))).2
      (TrajOpt.env (traj0 small_actions)).
Proof.
  split; [reflexivity|].
  apply (proj2 (@solve_without_iterations sim (libs small_actions)
                  (config small_actions 0) None [] (traj0 small_actions)
                  None idle_world ltac:(cbn; lia) eq_refl)).
Defined.

Lemma bad_configuration_witness :
  @TrajOpt.solve sim (libs small_actions) bad_config None [] (traj0 small_actions)
    = (Raise NotImplementedError, traj0 small_actions) /\
  @TrajOpt.solve sim (libs small_actions) bad_config (Some small_actions) []
    (traj0 small_actions) = (Raise KeyError, traj0 small_actions).
Proof.
  destruct (@solve_rejects_bad_configuration sim (libs small_actions) bad_config []
              (traj0 small_actions)) as [Hsampler Hoptim].
  split.
  - apply Hsampler. cbn. discriminate.
  - apply Hoptim; cbn; discriminate.
Defined.

Lemma solve_reports_witness :
  length (TrajOpt.evals solved_small) = Z.to_nat (TrajOpt.n_iters (config small_actions 2)) /\
  TrajOpt.printed solved_small =
    TrajOpt.printed (traj0 small_actions) ++
    zip (seq 0 (Z.to_nat (TrajOpt.n_iters (config small_actions 2))))
      (TrajOpt.evals solved_small).*2.
Proof.
  exact (@solve_reports_every_iteration sim (libs small_actions)
           (config small_actions 2) (Some small_actions) [] (traj0 small_actions)
           (Some small_actions) solved_small eq_refl).
Defined.

Lemma solve_restores_witness :
  exists e,
    TrajOpt.env solved_small =
      env_set_state (env_get_state (TrajOpt.env (traj0 small_actions))).1.1
        (env_get_state (TrajOpt.env (traj0 small_actions))).1.2
        (env_get_state (TrajOpt.env (traj0 small_actions))).2 e.
Proof.
  exact (@solve_restores_the_simulator sim (libs small_actions)
           (config small_actions 2) (Some small_actions) [] (traj0 small_actions)
           (Some small_actions) solved_small eq_refl).
Defined.

Lemma solve_counts_witness :
  exists saved,
    TrajOpt.action_file solved_small = Some saved /\
    (TrajOpt.total_steps solved_small + length (TrajOpt.evals solved_small) =
     sum_list_with (fun p => n_rows p.1) (TrajOpt.evals solved_small) + length saved)%nat.
Proof.
  exact (@solve_counts_every_step sim (libs small_actions)
           (config small_actions 2) (Some small_actions) [] (traj0 small_actions)
           (Some small_actions) solved_small eq_refl).
Defined.

Lemma focal_resamples_witness :
  resamples (trace trained_focal) = filter (fun i => i mod 5 = 0)%nat (seq 0 5) /\
  resamples (trace finished_focal) = [0; 5; 10; 15]%nat.
Proof.
  destruct (@focal_loop_resamples_every_fifth_epoch (runtime true)
              (loop0 true 1 false 0)) as [Hn Hall].
  split.
  - exact (Hn 5%nat trained_focal eq_refl).
  - exact (Hall finished_focal eq_refl).
Defined.

Lemma learn_latent_counts_witness :
  total_batch trained_plain = (5 * length (dataloader (loop0 true 2 true 0)))%nat /\
  (5%nat <> 0%nat ->
   batchCnt trained_plain = length (dataloader (loop0 true 2 true 0))).
Proof.
  exact (@learn_latent_counts_batches (runtime true) 5 (loop0 true 2 true 0)
           trained_plain eq_refl).
Defined.

Lemma empty_dataloader_witness :
  ((@FocalLoop.learn_latent_focal (runtime true) (loop0 true 0 true 0)).1
     = Raise ZeroDivisionError /\
   trace (@FocalLoop.learn_latent_focal (runtime true) (loop0 true 0 true 0)).2
     = trace (loop0 true 0 true 0) /\
   sys (@FocalLoop.learn_latent_focal (runtime true) (loop0 true 0 true 0)).2
     = sys (loop0 true 0 true 0)) /\
  ((@LearnLatentLoop.learn_latent (runtime true) (loop0 true 0 true 0)).1
     = Raise ZeroDivisionError /\
   trace (@LearnLatentLoop.learn_latent (runtime true) (loop0 true 0 true 0)).2
     = trace (loop0 true 0 true 0) /\
   sys (@LearnLatentLoop.learn_latent (runtime true) (loop0 true 0 true 0)).2
     = sys (loop0 true 0 true 0)).
Proof.
  exact (@empty_dataloader_divides_by_zero (runtime true) (loop0 true 0 true 0)
           eq_refl).
Defined.

Lemma squeeze_batch_witness :
  @squeeze_batch unit (take 4 six_frames) tt = (Raise IndexError, tt) /\
  exists r,
    @squeeze_batch unit six_frames tt = (Ok r, tt) /\
    r = map (fun t => nd_squeeze (numpy t)) (take 5 six_frames) /\
    length r = 5%nat /\
    (forall a, a ∈ r -> 1%nat ∉ shape a) /\
    map data r = map (fun t => data (numpy t)) (take 5 six_frames).
Proof.
  split.
  - apply (proj1 (@squeeze_batch_spec unit (take 4 six_frames) tt)). cbn. lia.
  - apply (proj2 (@squeeze_batch_spec unit six_frames tt)). cbn. lia.
Defined.

Lemma loading_dataset_witness :
  @_loading_dataset (runtime true) (fun _ s => (tt, s)) "Rope-v1" tt =
    @loaded (runtime true) (fun _ s => (tt, s)) RopeDataset tt /\
  @_loading_dataset (runtime true) (fun _ s => (tt, s)) "rope" tt =
    (Raise UnboundLocalError, tt).
Proof.
  split.
  - exact (proj1 (proj2 (@loading_dataset_by_prefix (runtime true)
                           (fun _ s => (tt, s)) "Rope-v1" tt)) "-v1" eq_refl).
  - apply (proj2 (proj2 (proj2 (proj2 (@loading_dataset_by_prefix (runtime true)
                           (fun _ s => (tt, s)) "rope" tt)))));
      intros rest E; discriminate E.
Defined.

Lemma solve_action_witness :
  2%nat <> 0%nat /\
  length (TrajOpt.evals (Driver.solver session1)) =
    Z.to_nat ((Driver.num_steps args + Z.of_nat 2 - 1) / Z.of_nat 2) /\
  (Driver.num_steps args <=
   Z.of_nat (length (TrajOpt.evals (Driver.solver session1)) * 2))%Z /\
  ((0 < Driver.num_steps args)%Z ->
   (Z.of_nat ((length (TrajOpt.evals (Driver.solver session1)) - 1) * 2)
    < Driver.num_steps args)%Z) /\
  Driver.stdout session1 = Driver.stdout session0 ++ ["Done"].
Proof.
  exact (@solve_action_iterations sim (libs small_actions) (fun e => e)
           (fun _ => tt) (list string) mkdir "out" 2 args session0 session1 eq_refl).
Defined.


End MoreExamples.

Section MoreExamples2.
Import Example Cases.

Lemma exec_copy_witness :
  exists state_hat w1,
    heap world0 ⊆ heap w1 /\ env w1 = env world0 /\
    heap world0 !! state_hat = None /\
    read_state state_hat w1 = (Ok (Nd.to_float64 plain_decoded :: [still]), w1) /\
    @Focal.exec_multistep sim oracles plain_solver 0 1 2 world0 =
      with_loss_first
        (@compute_emd oracles cloud (model plain_solver (Nd.to_float32 cloud)) 3000).1
        (forward_nograd plain_solver state_hat 2 1 w1).
Proof.
  exact (@exec_multistep_rolls_out_the_copy sim oracles plain_solver 0 1 2 world0
           cloud [still] plain_decoded eq_refl eq_refl).
Defined.

Lemma short_actions_witness :
  (@Focal.exec_multistep sim oracles plain_solver 0 5 2 short_world).1
    = Raise IndexError /\
  heap short_world ⊆
    heap (@Focal.exec_multistep sim oracles plain_solver 0 5 2 short_world).2.
Proof.
  apply (@exec_multistep_needs_an_action_per_step sim oracles plain_solver 0 5 2
           short_world cloud [still] plain_decoded still
           (mk_ndarray [1; 1]%nat [Float64.one]) 2 1);
    try reflexivity.
  cbn. lia.
Defined.

Lemma solve_copy_witness :
  (exists state_hat w1,
     heap world0 ⊆ heap w1 /\ env w1 = env world0 /\
     heap world0 !! state_hat = None /\
     read_state state_hat w1 = (Ok (Nd.to_float64 plain_decoded :: [still]), w1) /\
     @Focal.rollout sim oracles plain_solver 0 1 2 world0 =
       with_decoded
         (fun loss g =>
            (plain_decoded,
             (@compute_emd oracles cloud (model plain_solver (Nd.to_float32 cloud))
                3000).1, loss, g))
         (forward_grad plain_solver state_hat 2 1 w1)) /\
  (exists state_hat w1,
     heap world0 ⊆ heap w1 /\ env w1 = env world0 /\
     heap world0 !! state_hat = None /\
     read_state state_hat w1 = (Ok (Nd.to_float64 plain_decoded :: [still]), w1) /\
     @LearnLatent.rollout sim oracles plain_solver 0 1 2 world0 =
       with_decoded (fun loss g => (plain_decoded, loss, g))
         (forward_grad plain_solver state_hat 2 1 w1)).
Proof.
  destruct (@solve_multistep_rolls_out_the_copy sim oracles plain_solver 0 1 2 world0
              cloud [still] plain_decoded eq_refl) as [Hfocal Hplain].
  split; [exact (Hfocal eq_refl) | exact (Hplain eq_refl)].
Defined.

End MoreExamples2.
